(** * Honeypot statistics: log parsing and aggregation

    A shallow embedding of the log pipeline of the honeypot statistics page
    (the second script of [src/unnamed/part_000]): [stripAddrPrefix], the
    [LOG_PARSERS] table with its [fortipot] grammar, [parseLogLines],
    [listLogFiles], [fetchLogContent], [aggregate], [filterFilesByDate] and
    [loadAndParseLogs]; then the page around the pipeline ([escapeHtml],
    the data of the tables and charts, [runStats]) and, of the first
    script of that file, [filterDays].

    Conventions.
    - A JavaScript string is the list of its UTF-16 code units, each an [N].
      [js "..."] turns a literal into such a list.
    - A plain object used as a dictionary ([{}], [LOG_PARSERS]) is a [gmap]
      of its own properties together with the members it inherits from
      [Object.prototype]: a read of an absent own key falls through to the
      prototype.
    - [null]/[undefined] are [None]; a thrown exception is [Throw]. *)

From Stdlib Require Import String Ascii NArith List Bool Arith Lia.
From Stdlib Require Import DecimalString DecimalN Sorting.Sorted Sorting.Permutation.
From stdpp Require Import base option list gmap sorting.

Set Default Proof Using "Type".

(** ** Strings as UTF-16 code units *)

Abbreviation jsstring := (list N).

Definition js (s : string) : jsstring :=
  List.map N_of_ascii (list_ascii_of_string s).
Arguments js s%_string : simpl never.

(** [WhiteSpace] and [LineTerminator] of ECMAScript: what [trim] removes and
    what [\s] matches. *)
Definition isWhiteSpace (c : N) : bool :=
  ((9 <=? c) && (c <=? 13) || (c =? 32) || (c =? 160) || (c =? 5760)
   || (8192 <=? c) && (c <=? 8202) || (c =? 8232) || (c =? 8233)
   || (c =? 8239) || (c =? 8287) || (c =? 12288) || (c =? 65279))%N.

(** [LineTerminator]: the code units the regular-expression dot refuses. *)
Definition isLineTerminator (c : N) : bool :=
  ((c =? 10) || (c =? 13) || (c =? 8232) || (c =? 8233))%N.

(** [\d] *)
Definition isDigit (c : N) : bool := ((48 <=? c) && (c <=? 57))%N.

(** [.] without the [s] flag *)
Definition isDot (c : N) : bool := negb (isLineTerminator c).

Definition notSpace (c : N) : bool := negb (isWhiteSpace c).

Fixpoint dropWhile (p : N -> bool) (s : jsstring) : jsstring :=
  match s with
  | [] => []
  | c :: s' => if p c then dropWhile p s' else s
  end.

Fixpoint takeWhile (p : N -> bool) (s : jsstring) : jsstring :=
  match s with
  | [] => []
  | c :: s' => if p c then c :: takeWhile p s' else []
  end.

Definition trimStart (s : jsstring) : jsstring := dropWhile isWhiteSpace s.
Definition trimEnd (s : jsstring) : jsstring :=
  rev (dropWhile isWhiteSpace (rev s)).

(** [s.trim()] *)
Definition trim (s : jsstring) : jsstring := trimEnd (trimStart s).

(** [s.startsWith(p)] *)
Fixpoint startsWith (p s : jsstring) : bool :=
  match p, s with
  | [], _ => true
  | _ :: _, [] => false
  | a :: p', b :: s' => (a =? b)%N && startsWith p' s'
  end.

(** The rest of [s] after the literal [p], when [s] starts with it. *)
Fixpoint stripPrefix (p s : jsstring) : option jsstring :=
  match p, s with
  | [], _ => Some s
  | _ :: _, [] => None
  | a :: p', b :: s' => if (a =? b)%N then stripPrefix p' s' else None
  end.

(** [s.includes(needle)] *)
Fixpoint includes (needle s : jsstring) : bool :=
  startsWith needle s ||
  match s with
  | [] => false
  | _ :: s' => includes needle s'
  end.

(** [s.split(sep)] for a separator of one code unit: the fields between the
    separators, always at least one field. *)
Fixpoint split (sep : N) (s : jsstring) : list jsstring :=
  match s with
  | [] => [[]]
  | c :: s' =>
      if (c =? sep)%N then [] :: split sep s'
      else match split sep s' with
           | [] => [[c]]
           | f :: fs => (c :: f) :: fs
           end
  end.

(** [parts.join(sep)] *)
Fixpoint join (sep : jsstring) (parts : list jsstring) : jsstring :=
  match parts with
  | [] => []
  | [p] => p
  | p :: ps => p ++ sep ++ join sep ps
  end.

(** [text.split(/\r?\n/)]: a cut at every line feed, which takes a carriage
    return right before it along. *)
Fixpoint splitLines (s : jsstring) : list jsstring :=
  match s with
  | [] => [[]]
  | c :: s' =>
      let cons_char :=
        match splitLines s' with
        | [] => [[c]]
        | f :: fs => (c :: f) :: fs
        end in
      if (c =? 10)%N then [] :: splitLines s'
      else if (c =? 13)%N then
        match s' with
        | d :: s'' => if (d =? 10)%N then [] :: splitLines s'' else cons_char
        | [] => cons_char
        end
      else cons_char
  end.

(** ** Regular expressions

    The patterns of the script are sequences of literals, of character
    classes under a quantifier, of capture groups around one quantified
    class, and of the end-of-input assertion. The matcher is the
    backtracking search of the language: a greedy quantifier tries the
    longest run first and gives code units back one by one, a lazy
    quantifier tries the shortest run first and takes one more on failure;
    what follows the quantifier is the continuation that accepts or refuses
    each try. *)

Inductive quantifier :=
  | Once
  | Optional
  | ZeroOrMore
  | OneOrMore
  | OneOrMoreLazy
  | Times (n : nat).

Inductive piece :=
  | Class (q : quantifier) (p : N -> bool)
  | Group (q : quantifier) (p : N -> bool)
  | Literal (l : jsstring)
  | EndOfInput.

Section Quantifiers.

Context {R : Type}.

(** The class, and the continuation: it gets the code units the quantifier
    took and the rest of the input. *)
Variable p : N -> bool.
Variable k : jsstring -> jsstring -> option R.

(** [taken] holds the code units of the run so far, the last one first. *)
Fixpoint greedy (taken s : jsstring) : option R :=
  match s with
  | c :: s' =>
      if p c then
        match greedy (c :: taken) s' with
        | Some r => Some r
        | None => k (rev taken) s
        end
      else k (rev taken) s
  | [] => k (rev taken) s
  end.

Fixpoint lazy (taken s : jsstring) : option R :=
  match k (rev taken) s with
  | Some r => Some r
  | None =>
      match s with
      | c :: s' => if p c then lazy (c :: taken) s' else None
      | [] => None
      end
  end.

Fixpoint times (n : nat) (taken s : jsstring) : option R :=
  match n with
  | O => k (rev taken) s
  | S n' =>
      match s with
      | c :: s' => if p c then times n' (c :: taken) s' else None
      | [] => None
      end
  end.

Definition quantified (q : quantifier) (s : jsstring) : option R :=
  match q with
  | Once => times 1 [] s
  | Times n => times n [] s
  | Optional =>
      match s with
      | c :: s' =>
          if p c then
            match k [c] s' with
            | Some r => Some r
            | None => k [] s
            end
          else k [] s
      | [] => k [] s
      end
  | ZeroOrMore => greedy [] s
  | OneOrMore =>
      match s with
      | c :: s' => if p c then greedy [c] s' else None
      | [] => None
      end
  | OneOrMoreLazy =>
      match s with
      | c :: s' => if p c then lazy [c] s' else None
      | [] => None
      end
  end.

End Quantifiers.

(** A match of the pattern at the start of [s]: the captures, in the order
    of their groups, and the rest of [s] behind the match. [groups] holds
    the captures so far, the last one first. *)
Fixpoint matchHere (pat : list piece) (groups : list jsstring) (s : jsstring)
  : option (list jsstring * jsstring) :=
  match pat with
  | [] => Some (rev groups, s)
  | Class q p :: pat' =>
      quantified p (fun _ rest => matchHere pat' groups rest) q s
  | Group q p :: pat' =>
      quantified p (fun taken rest => matchHere pat' (taken :: groups) rest) q s
  | Literal l :: pat' =>
      match stripPrefix l s with
      | Some rest => matchHere pat' groups rest
      | None => None
      end
  | EndOfInput :: pat' =>
      match s with
      | [] => matchHere pat' groups []
      | _ :: _ => None
      end
  end.

(** The part of [s] in front of its suffix [rest]. *)
Definition consumed (s rest : jsstring) : jsstring :=
  take (length s - length rest) s.

(** [s.match(pattern)] for a pattern without flags: the leftmost match, as
    the matched text and the captures. *)
Fixpoint exec (pat : list piece) (s : jsstring) : option (jsstring * list jsstring) :=
  match matchHere pat [] s with
  | Some (groups, rest) => Some (consumed s rest, groups)
  | None =>
      match s with
      | [] => None
      | _ :: s' => exec pat s'
      end
  end.

Definition LPAREN : N := 40.
Definition RPAREN : N := 41.
Definition COMMA : N := 44.
Definition DOT : N := 46.
Definition APOS : N := 39.
Definition DQUOTE : N := 34.
Definition PIPE : N := 124.

(** The class of the two quotes, and the class of digits and dots. *)
Definition isQuote (c : N) : bool := ((c =? APOS) || (c =? DQUOTE))%N.
Definition isDigitOrDot (c : N) : bool := isDigit c || (c =? DOT)%N.

(** The pattern of [stripAddrPrefix]. It starts with the start-of-input
    assertion, so it is matched at the start only. *)
Definition ADDR_PREFIX : list piece :=
  [ Class ZeroOrMore isWhiteSpace; Literal [LPAREN];
    Class ZeroOrMore isWhiteSpace; Class Optional isQuote;
    Class OneOrMore isDigitOrDot; Class Optional isQuote;
    Class ZeroOrMore isWhiteSpace; Literal [COMMA];
    Class ZeroOrMore isWhiteSpace; Class OneOrMore isDigit; Literal [RPAREN];
    Class ZeroOrMore isWhiteSpace ].

(** The date at the start of a timestamp (anchored at the start; the one
    group spans the whole pattern). *)
Definition DATE_PREFIX : list piece :=
  [ Class (Times 4) isDigit; Literal (js "-"); Class (Times 2) isDigit;
    Literal (js "-"); Class (Times 2) isDigit ].

(** The login pattern. *)
Definition LOGIN_PATTERN : list piece :=
  [ Literal (js "LOGIN username="); Group OneOrMoreLazy isDot;
    Literal (js " password="); Group ZeroOrMore isDot; EndOfInput ].

(** The CVE pattern. *)
Definition CVE_PATTERN : list piece :=
  [ Literal (js "CVE-"); Class (Times 4) isDigit; Literal (js "-");
    Class OneOrMore isDigit ].

(** The pattern of a log file name (anchored at the start). *)
Definition LOG_FILE_NAME : list piece :=
  [ Class (Times 4) isDigit; Literal (js "-"); Class (Times 2) isDigit;
    Literal (js "-"); Class (Times 2) isDigit; Literal (js "_");
    Class ZeroOrMore isDot; Literal (js ".log"); EndOfInput ].

(** [stripAddrPrefix(s)]: [replace] removes the match when there is one and
    leaves [s] alone otherwise. The early return for a falsy [s] answers
    the empty string with itself. *)
Definition stripAddrPrefix (s : jsstring) : jsstring :=
  match s with
  | [] => s
  | _ =>
      trim match matchHere ADDR_PREFIX [] s with
           | Some (_, rest) => rest
           | None => s
           end
  end.

(** [ts.match(DATE_PREFIX)], then [dateMatch ? dateMatch[1] : null]. *)
Definition dateMatch (ts : jsstring) : option jsstring :=
  match matchHere DATE_PREFIX [] ts with
  | Some (_, rest) => Some (consumed ts rest)
  | None => None
  end.

(** [message.match(LOGIN_PATTERN)]: the two captures. *)
Definition loginMatch (message : jsstring) : option (jsstring * jsstring) :=
  match exec LOGIN_PATTERN message with
  | Some (_, [u; p]) => Some (u, p)
  | _ => None
  end.

(** [s.match(CVE_PATTERN)?.[0]]; [test] is whether it is there. *)
Definition cveMatch (s : jsstring) : option jsstring :=
  fst <$> exec CVE_PATTERN s.

(** ** Events and the fortipot grammar *)

(** The object a grammar returns. [date] is [null] or the date text;
    [loginUsername]/[loginPassword] are [None] when the property is absent.
    The grammar writes the two together and only when a credential was
    captured, so a present property is never [null]. *)
Record Event := mkEvent {
  date : option jsstring;
  ip : jsstring;
  eventType : jsstring;
  ts : jsstring;
  loginUsername : option jsstring;
  loginPassword : option jsstring
}.

(** [x != null], which is also [x !== undefined] for a property that is
    never [null]. *)
Definition notNull (x : option jsstring) : bool :=
  match x with
  | Some _ => true
  | None => false
  end.

(** [x || fallback] on strings: the empty string is falsy. *)
Definition orElse (x fallback : jsstring) : jsstring :=
  match x with
  | [] => fallback
  | _ => x
  end.

(** [LOG_PARSERS.fortipot(line)] *)
Definition fortipot (line : jsstring) : option Event :=
  match split PIPE line with
  | p0 :: _ :: p2 :: p3 :: rest =>
      let ts := trim p0 in
      let ip := trim p2 in
      let rawMessage := trim (join [PIPE] (p3 :: rest)) in
      let message := stripAddrPrefix rawMessage in
      let date := dateMatch ts in
      let '(eventType, loginUsername, loginPassword) :=
        if includes (js "LOGIN username=") message then
          match loginMatch message with
          | Some (u, p) => (js "LOGIN", Some (trim u), Some (trim p))
          | None => (js "LOGIN", None, None)
          end
        else if startsWith (js "GET ") message then
          let path := orElse (takeWhile notSpace (drop 4 message)) [] in
          (js "GET " ++ orElse path (js "/"), None, None)
        else
          match cveMatch message with
          | Some m => (m, None, None)
          | None => (message, None, None)
          end in
      Some {| date := date; ip := ip;
              eventType := orElse eventType (js "other"); ts := ts;
              loginUsername :=
                if notNull loginUsername || notNull loginPassword
                then loginUsername else None;
              loginPassword :=
                if notNull loginUsername || notNull loginPassword
                then loginPassword else None |}
  | _ => None
  end.

(** ** Plain objects used as dictionaries

    [byDate], [byIp] and [byEvent] start as the literal [{}], whose
    prototype is [Object.prototype]. The own properties are a [gmap]; the
    values the loop can store are numbers and, after a read that fell
    through to the prototype, strings. *)

Inductive jsval :=
  | VNum (n : nat)
  | VStr (s : jsstring).

(** The data properties of [Object.prototype] (all functions), as browsers
    have them. *)
Definition objectPrototypeMethods : list jsstring :=
  [ js "constructor"; js "hasOwnProperty"; js "isPrototypeOf";
    js "propertyIsEnumerable"; js "toLocaleString"; js "toString";
    js "valueOf"; js "__defineGetter__"; js "__defineSetter__";
    js "__lookupGetter__"; js "__lookupSetter__" ].

(** [__proto__] is an accessor of [Object.prototype]: reading it gives the
    prototype object, writing a primitive to it does nothing. *)
Definition protoAccessor : jsstring := js "__proto__".

Definition inheritedKey (k : jsstring) : bool :=
  bool_decide (k ∈ objectPrototypeMethods) || bool_decide (k = protoAccessor).

(** What [o[k]] evaluates to. *)
Inductive readResult :=
  | Undefined
  | Own (v : jsval)
  | Inherited (k : jsstring).

Definition getProp (o : gmap jsstring jsval) (k : jsstring) : readResult :=
  match o !! k with
  | Some v => Own v
  | None => if inheritedKey k then Inherited k else Undefined
  end.

(** [String(x)] of an inherited member: the prototype object prints as
    [[object Object]], a built-in function as its native source text, named
    after the function ([Object] for [constructor]). *)
Definition inheritedText (k : jsstring) : jsstring :=
  if bool_decide (k = protoAccessor) then js "[object Object]"
  else js "function " ++
       (if bool_decide (k = js "constructor") then js "Object" else k) ++
       js "() { [native code] }".

(** [(x || 0) + 1]: zero, the empty string and [undefined] are falsy; a
    string or an object on the left makes [+] a concatenation. *)
Definition orZeroPlusOne (x : readResult) : jsval :=
  match x with
  | Undefined => VNum 1
  | Own (VNum n) => VNum (n + 1)
  | Own (VStr []) => VNum 1
  | Own (VStr s) => VStr (s ++ js "1")
  | Inherited k => VStr (inheritedText k ++ js "1")
  end.

(** [o[k] = v] for a primitive [v]. *)
Definition setProp (o : gmap jsstring jsval) (k : jsstring) (v : jsval)
  : gmap jsstring jsval :=
  if bool_decide (k = protoAccessor) then o else <[k := v]> o.

(** [o[k] = (o[k] || 0) + 1] *)
Definition bump (o : gmap jsstring jsval) (k : jsstring) : gmap jsstring jsval :=
  setProp o k (orZeroPlusOne (getProp o k)).

(** ** The aggregator *)

(** One row of [loginAttempts]. *)
Record Attempt := mkAttempt {
  a_ts : jsstring;
  a_date : option jsstring;
  a_ip : jsstring;
  username : jsstring;
  password : jsstring
}.

(** The object [aggregate] returns; during the loop, the accumulators. *)
Record Stats := mkStats {
  byDate : gmap jsstring jsval;
  byIp : gmap jsstring jsval;
  byEvent : gmap jsstring jsval;
  total : nat;
  loginAttempts : list Attempt
}.

(** [if (e.date)]: [null] and the empty string are falsy. *)
Definition truthyDate (d : option jsstring) : option jsstring :=
  match d with
  | Some (c :: s) => Some (c :: s)
  | _ => None
  end.

(** [x ?? ''] *)
Definition orEmpty (x : option jsstring) : jsstring := default [] x.

(** The body of the loop of [aggregate]. [total] is set at the end, from
    [entries.length]. *)
Definition aggregateStep (acc : Stats) (e : Event) : Stats :=
  let byDate' :=
    match truthyDate (date e) with
    | Some d => bump (byDate acc) d
    | None => byDate acc
    end in
  let byIp' :=
    match ip e with
    | [] => byIp acc
    | _ => bump (byIp acc) (ip e)
    end in
  let ev := orElse (eventType e) (js "other") in
  let byEvent' := bump (byEvent acc) ev in
  let loginAttempts' :=
    if notNull (loginUsername e) || notNull (loginPassword e) then
      loginAttempts acc ++
        [ {| a_ts := ts e; a_date := date e; a_ip := ip e;
             username := orEmpty (loginUsername e);
             password := orEmpty (loginPassword e) |} ]
    else loginAttempts acc in
  {| byDate := byDate'; byIp := byIp'; byEvent := byEvent';
     total := total acc; loginAttempts := loginAttempts' |}.

Definition emptyStats : Stats :=
  {| byDate := ∅; byIp := ∅; byEvent := ∅; total := 0; loginAttempts := [] |}.

(** [aggregate(entries)] *)
Definition aggregate (entries : list Event) : Stats :=
  let acc := fold_left aggregateStep entries emptyStats in
  {| byDate := byDate acc; byIp := byIp acc; byEvent := byEvent acc;
     total := length entries; loginAttempts := loginAttempts acc |}.

(** ** Completions *)

Inductive jsError :=
  | Error (message : jsstring)
  | TypeError
  | URIError
  | SyntaxError
  | RangeError
  | NetworkFailure.

Inductive completion (A : Type) :=
  | Normal (a : A)
  | Throw (e : jsError).
Arguments Normal {A} a.
Arguments Throw {A} e.

(** ** The parser table and [parseLogLines] *)

(** The own properties of [LOG_PARSERS]. *)
Definition LOG_PARSERS : gmap jsstring (jsstring -> option Event) :=
  <[js "fortipot" := fortipot]>
    (<[js "ssh" := fun _ => None]>
       (<[js "rdp" := fun _ => None]>
          (<[js "ftp" := fun _ => None]> ∅))).

(** What [LOG_PARSERS[honeypotType] || LOG_PARSERS.fortipot] picks: an own
    grammar, a member inherited from [Object.prototype] (truthy, so the
    fallback is not taken), or the fallback. *)
Inductive parserRef :=
  | Grammar (g : jsstring -> option Event)
  | PrototypeMember (k : jsstring).

Definition selectParser (honeypotType : jsstring) : parserRef :=
  match LOG_PARSERS !! honeypotType with
  | Some g => Grammar g
  | None =>
      if inheritedKey honeypotType then PrototypeMember honeypotType
      else Grammar fortipot
  end.

(** What [parseLogLines] can push: an event, or the value a built-in
    returned. *)
Inductive entry :=
  | EventEntry (e : Event)
  | StringObject (s : jsstring)
  | StringValue (s : jsstring).

(** [parser(trimmed)], a call without receiver. The prototype object is not
    callable; [Object] wraps the line; [toString] names the missing
    receiver; [isPrototypeOf] answers [false] for a primitive; the other
    built-ins refuse the missing receiver. *)
Definition callParser (p : parserRef) (trimmed : jsstring)
  : completion (option entry) :=
  match p with
  | Grammar g => Normal (EventEntry <$> g trimmed)
  | PrototypeMember k =>
      if bool_decide (k = js "constructor") then
        Normal (Some (StringObject trimmed))
      else if bool_decide (k = js "toString") then
        Normal (Some (StringValue (js "[object Undefined]")))
      else if bool_decide (k = js "isPrototypeOf") then Normal None
      else Throw TypeError
  end.

(** The loop of [parseLogLines] over the lines still to read. *)
Fixpoint parseLoop (p : parserRef) (lines : list jsstring) (entries : list entry)
  : completion (list entry) :=
  match lines with
  | [] => Normal entries
  | line :: lines' =>
      match trim line with
      | [] => parseLoop p lines' entries
      | trimmed =>
          match callParser p trimmed with
          | Throw err => Throw err
          | Normal (Some parsed) => parseLoop p lines' (entries ++ [parsed])
          | Normal None => parseLoop p lines' entries
          end
      end
  end.

(** [parseLogLines(text, honeypotType)] *)
Definition parseLogLines (text honeypotType : jsstring) : completion (list entry) :=
  parseLoop (selectParser honeypotType) (splitLines text) [].

(** [parse(rawLine)] of the fortipot grammar, as [parseLogLines] runs it on
    one line. *)
Definition parseLine (line : jsstring) : option Event :=
  match trim line with
  | [] => None
  | trimmed => fortipot trimmed
  end.

(** How [aggregate] reads an entry: a value that is not an event has none
    of the properties read, and every read gives [undefined], which the
    loop treats as it treats an empty string or [null]. *)
Definition entryView (x : entry) : Event :=
  match x with
  | EventEntry e => e
  | _ => {| date := None; ip := []; eventType := []; ts := [];
            loginUsername := None; loginPassword := None |}
  end.

(** ** Comparing and sorting strings *)

(** [a <= b] on strings: code unit by code unit, a prefix first. *)
Fixpoint leStr (a b : jsstring) : bool :=
  match a, b with
  | [], _ => true
  | _ :: _, [] => false
  | x :: a', y :: b' =>
      if (x <? y)%N then true
      else if (y <? x)%N then false
      else leStr a' b'
  end.

(** [a >= b] *)
Definition geStr (a b : jsstring) : bool := leStr b a.

Definition StrLe (a b : jsstring) : Prop := leStr a b = true.

#[global] Instance StrLe_dec a b : Decision (StrLe a b).
Proof. unfold StrLe. apply _. Defined.

(** [names.sort()]: the default order of [sort] on strings is [leStr]. *)
Definition sortNames (names : list jsstring) : list jsstring :=
  merge_sort StrLe names.

(** [LOG_FILE_NAME.test(name)] *)
Definition isLogFileName (name : jsstring) : bool :=
  match matchHere LOG_FILE_NAME [] name with
  | Some _ => true
  | None => false
  end.

(** One element of the array the contents API answers with. *)
Record Listed := mkListed {
  l_type : jsstring;
  l_name : jsstring
}.

(** The value of [logFiles] in [listLogFiles]:
    [data.filter(...).map(f => f.name).sort()]. *)
Definition logFiles (data : list Listed) : list jsstring :=
  sortNames
    (l_name <$>
       filter (fun f => l_type f = js "file" ∧ isLogFileName (l_name f) = true)
              data).

(** ** The remote store *)

Definition LOGS_REPO : jsstring := js "seckid/logs".
Definition GITHUB_API_BASE : jsstring := js "https://api.github.com/repos".

(** What [res.json()] resolves to. *)
Inductive jsonData :=
  | JArray (items : list Listed)
  | JOther.

(** A response: [res.ok], [res.status], and what reading the body gives,
    [None] when the read rejects. *)
Record Response := mkResponse {
  ok : bool;
  status : N;
  textBody : option jsstring;
  jsonBody : option jsonData
}.

(** How the promise of [fetch] settles. *)
Inductive fetchOutcome :=
  | Rejected
  | Resolved (res : Response).

Record Request := mkRequest {
  url : jsstring;
  accept : jsstring
}.

(** [String(n)] of a non-negative integer. *)
Definition decimal (n : N) : jsstring :=
  js (NilZero.string_of_uint (N.to_uint n)).

(** The run time the script talks to. The world [W] is threaded through
    every call that observes it: the clock and the network. The URI encoder
    and [toISOString] throw on some arguments ([None]): a lone surrogate,
    an invalid date. [makeDate y m d] is [new Date(y, m, d)], and
    [daysBefore d days] is the date object [d] after
    [d.setDate(d.getDate() - parseInt(days, 10))]. *)
Record Runtime (W Date : Type) := mkRuntime {
  dateNow : W -> N * W;
  fetch : Request -> W -> fetchOutcome * W;
  encodeURIComponent : jsstring -> option jsstring;
  newDate : W -> Date * W;
  makeDate : N -> N -> N -> Date;
  daysBefore : Date -> jsstring -> Date;
  toISOString : Date -> option jsstring
}.
Arguments dateNow {W Date} _ _.
Arguments fetch {W Date} _ _ _.
Arguments encodeURIComponent {W Date} _ _.
Arguments newDate {W Date} _ _.
Arguments makeDate {W Date} _ _ _ _.
Arguments daysBefore {W Date} _ _ _.
Arguments toISOString {W Date} _ _.

(** The [{ start, end }] object of [getDateRange]. *)
Record DateRange (Date : Type) := mkDateRange {
  range_start : Date;
  range_end : Date
}.
Arguments range_start {Date} _.
Arguments range_end {Date} _.

(** A computation of the script: it runs in a world and completes. *)
Definition Async (W A : Type) : Type := W -> completion A * W.

Definition resolve {W A} (a : A) : Async W A := fun w => (Normal a, w).
Definition reject {W A} (e : jsError) : Async W A := fun w => (Throw e, w).
Definition await {W A B} (c : Async W A) (k : A -> Async W B) : Async W B :=
  fun w =>
    match c w with
    | (Normal a, w') => k a w'
    | (Throw e, w') => (Throw e, w')
    end.

Notation "'let*' x ':=' c 'in' k" := (await c (fun x => k))
  (at level 10, x name, c at level 100, k at level 200).

Section Pipeline.

Context {W Date : Type} (rt : Runtime W Date).

(** [cacheBust()] *)
Definition cacheBust : Async W jsstring :=
  fun w => let '(t, w') := dateNow rt w in (Normal (js "?nocache=" ++ decimal t), w').

(** [await fetch(url, ...)] *)
Definition awaitFetch (req : Request) : Async W Response :=
  fun w =>
    match fetch rt req w with
    | (Resolved res, w') => (Normal res, w')
    | (Rejected, w') => (Throw NetworkFailure, w')
    end.

(** [listLogFiles(folder)] *)
Definition listLogFiles (folder : jsstring) : Async W (list jsstring) :=
  let* q := cacheBust in
  let* res := awaitFetch
    {| url := GITHUB_API_BASE ++ js "/" ++ LOGS_REPO ++ js "/contents/" ++ folder ++ q;
       accept := js "application/vnd.github.v3+json" |} in
  if negb (ok res) then
    reject (Error (js "Failed to list " ++ folder ++ js ": " ++ decimal (status res)))
  else
    match jsonBody res with
    | None => reject SyntaxError
    | Some (JArray data) =>
        resolve (logFiles data)
    | Some JOther => reject (Error (js "Invalid API response"))
    end.

(** [fetchLogContent(folder, filename)] *)
Definition fetchLogContent (folder filename : jsstring) : Async W jsstring :=
  match encodeURIComponent rt filename with
  | None => reject URIError
  | Some encoded =>
      let path := folder ++ js "/" ++ encoded in
      let* q := cacheBust in
      let* res := awaitFetch
        {| url := GITHUB_API_BASE ++ js "/" ++ LOGS_REPO ++ js "/contents/" ++ path ++ q;
           accept := js "application/vnd.github.v3.raw" |} in
      if negb (ok res) then resolve []
      else
        match textBody res with
        | Some text => resolve text
        | None => resolve []
        end
  end.

(** [getDateRange(days)] *)
Definition getDateRange (days : jsstring) : W -> DateRange Date * W :=
  fun w =>
    let '(end_, w1) := newDate rt w in
    let '(start, w2) := newDate rt w1 in
    if bool_decide (days = js "all") then
      ({| range_start := makeDate rt 2000 0 1; range_end := end_ |}, w2)
    else
      ({| range_start := daysBefore rt start days; range_end := end_ |}, w2).

(** The filter of [filterFilesByDate] for the two date texts. *)
Definition datedWithin (startStr endStr : jsstring) (files : list jsstring)
  : list jsstring :=
  filter (fun f =>
            let dateStr := take 10 f in
            geStr dateStr startStr && leStr dateStr endStr = true)
         files.

(** [filterFilesByDate(files, dateRange)] *)
Definition filterFilesByDate (files : list jsstring) (dateRange : DateRange Date)
  : completion (list jsstring) :=
  match toISOString rt (range_start dateRange) with
  | None => Throw RangeError
  | Some startIso =>
      let startStr := take 10 startIso in
      match toISOString rt (range_end dateRange) with
      | None => Throw RangeError
      | Some endIso =>
          let endStr := take 10 endIso in
          Normal (datedWithin startStr endStr files)
      end
  end.

(** The loop of [loadAndParseLogs] over the files still to fetch. *)
Fixpoint loadLoop (folder : jsstring) (filtered : list jsstring)
    (allEntries : list entry) : Async W (list entry) :=
  match filtered with
  | [] => resolve allEntries
  | filename :: filtered' =>
      let* text := fetchLogContent folder filename in
      match parseLogLines text folder with
      | Throw err => reject err
      | Normal entries => loadLoop folder filtered' (allEntries ++ entries)
      end
  end.

(** [loadAndParseLogs(folder, dateRange)] *)
Definition loadAndParseLogs (folder : jsstring) (dateRange : DateRange Date)
  : Async W Stats :=
  let* files := listLogFiles folder in
  match filterFilesByDate files dateRange with
  | Throw err => reject err
  | Normal filtered =>
      let* allEntries := loadLoop folder filtered [] in
      resolve (aggregate (entryView <$> allEntries))
  end.

End Pipeline.

(** * The vocabulary of the properties *)

(** ** Scanners

    What the patterns compute, without search: one pass over the input.
    They are proved equal to the matcher on the patterns of the script and
    carry the proofs about the grammar. *)

(** One given code unit. *)
Definition expect (c : N) (s : jsstring) : option jsstring :=
  match s with
  | d :: s' => if (d =? c)%N then Some s' else None
  | [] => None
  end.

(** At most one code unit of the class. *)
Definition skipOne (p : N -> bool) (s : jsstring) : jsstring :=
  match s with
  | c :: s' => if p c then s' else s
  | [] => s
  end.

(** The longest run of the class, which has to be non-empty. *)
Definition many1 (p : N -> bool) (s : jsstring) : option jsstring :=
  match takeWhile p s with
  | [] => None
  | _ :: _ => Some (dropWhile p s)
  end.

Definition addrPrefixRest (s : jsstring) : option jsstring :=
  s1 ← expect LPAREN (dropWhile isWhiteSpace s);
  s2 ← many1 isDigitOrDot (skipOne isQuote (dropWhile isWhiteSpace s1));
  s3 ← expect COMMA (dropWhile isWhiteSpace (skipOne isQuote s2));
  s4 ← many1 isDigit (dropWhile isWhiteSpace s3);
  s5 ← expect RPAREN s4;
  Some (dropWhile isWhiteSpace s5).

Fixpoint digitsExactly (n : nat) (s : jsstring) : option jsstring :=
  match n with
  | O => Some s
  | S n' =>
      match s with
      | c :: s' => if isDigit c then digitsExactly n' s' else None
      | [] => None
      end
  end.

Definition dateShapeRest (s : jsstring) : option jsstring :=
  s1 ← digitsExactly 4 s;
  s2 ← stripPrefix (js "-") s1;
  s3 ← digitsExactly 2 s2;
  s4 ← stripPrefix (js "-") s3;
  digitsExactly 2 s4.

(** The lazy group of the login pattern: it stops at the first password
    literal behind which no line terminator follows. *)
Fixpoint lazyUser (user : jsstring) (s : jsstring) : option (jsstring * jsstring) :=
  let more :=
    match s with
    | c :: s' => if isDot c then lazyUser (c :: user) s' else None
    | [] => None
    end in
  match stripPrefix (js " password=") s with
  | Some pw => if forallb isDot pw then Some (rev user, pw) else more
  | None => more
  end.

Definition loginAt (s : jsstring) : option (jsstring * jsstring) :=
  match stripPrefix (js "LOGIN username=") s with
  | Some (c :: s') => if isDot c then lazyUser [c] s' else None
  | _ => None
  end.

Fixpoint scanLogin (s : jsstring) : option (jsstring * jsstring) :=
  match loginAt s with
  | Some m => Some m
  | None =>
      match s with
      | [] => None
      | _ :: s' => scanLogin s'
      end
  end.

Definition cveAt (s : jsstring) : option jsstring :=
  s1 ← stripPrefix (js "CVE-") s;
  s2 ← digitsExactly 4 s1;
  s3 ← stripPrefix (js "-") s2;
  match takeWhile isDigit s3 with
  | [] => None
  | ds => Some (js "CVE-" ++ take 4 s1 ++ js "-" ++ ds)
  end.

Fixpoint scanCve (s : jsstring) : option jsstring :=
  match cveAt s with
  | Some m => Some m
  | None =>
      match s with
      | [] => None
      | _ :: s' => scanCve s'
      end
  end.

(** ** Shapes *)

(** The number of occurrences of a code unit. *)
Fixpoint occurrences (c : N) (s : jsstring) : nat :=
  match s with
  | [] => 0
  | d :: s' => (if (d =? c)%N then 1 else 0) + occurrences c s'
  end.

(** The first code unit of [s], if there is one, is outside the class. *)
Definition headOutside (p : N -> bool) (s : jsstring) : Prop :=
  match s with
  | [] => True
  | c :: _ => p c = false
  end.



(** A date as the patterns have it: four digits, two digits, two digits,
    with hyphens between. *)
Definition DateShaped (d : jsstring) : Prop :=
  exists y m dd,
    d = y ++ js "-" ++ m ++ js "-" ++ dd /\
    length y = 4 /\ length m = 2 /\ length dd = 2 /\
    forallb isDigit y = true /\ forallb isDigit m = true /\
    forallb isDigit dd = true.

(** The name of a log file in the words of the specification: the date,
    an underscore, anything (that the dot accepts), and the extension. *)
Definition LogFilePattern (name : jsstring) : Prop :=
  exists d anything,
    name = d ++ js "_" ++ anything ++ js ".log" /\
    DateShaped d /\ forallb isDot anything = true.

(** The number a run of digits denotes. *)
Definition digitsValue (ds : jsstring) : N :=
  fold_left (fun acc c => (10 * acc + (c - 48))%N) ds 0%N.

(** A date text as one number: year, month and day side by side. *)
Definition dateNumber (d : jsstring) : N :=
  (digitsValue (take 4 d) * 10000
   + digitsValue (take 2 (drop 5 d)) * 100
   + digitsValue (take 2 (drop 8 d)))%N.

(** Whether the first ten code units of a name lie between two texts. *)
Definition inWindow (startStr endStr name : jsstring) : Prop :=
  StrLe startStr (take 10 name) /\ StrLe (take 10 name) endStr.

(** ** The grammar *)

Definition LOGIN_MARKER : jsstring := js "LOGIN username=".

(** The [message] variable of the grammar for a line. *)
Definition messageOf (line : jsstring) : jsstring :=
  stripAddrPrefix (trim (join [PIPE] (drop 3 (split PIPE line)))).

(** The event type as the grammar computes it from the message, as one
    function. *)
Definition classifyByPriority (message : jsstring) : jsstring :=
  if includes (js "LOGIN username=") message then js "LOGIN"
  else if startsWith (js "GET ") message then
    match takeWhile notSpace (drop 4 message) with
    | [] => js "GET /"
    | path => js "GET " ++ path
    end
  else
    match cveMatch message with
    | Some cve => cve
    | None =>
        match message with
        | [] => js "other"
        | _ => message
        end
    end.

(** ** Shapes of the classification *)

(** [needle] occurs in [s]. *)
Definition Contains (needle s : jsstring) : Prop :=
  exists before after, s = before ++ needle ++ after.

(** A CVE identifier: [CVE-], four digits, a hyphen, one or more digits. *)
Definition CveId (id : jsstring) : Prop :=
  exists year num,
    id = js "CVE-" ++ year ++ js "-" ++ num /\
    length year = 4 /\ forallb isDigit year = true /\
    num <> [] /\ forallb isDigit num = true.

(** [id] is the first CVE identifier in [s]: none starts further to the
    left, and it takes every digit that follows. *)
Definition FirstCve (s id : jsstring) : Prop :=
  exists before after,
    s = before ++ id ++ after /\ CveId id /\ headOutside isDigit after /\
    forall before' id' after',
      s = before' ++ id' ++ after' -> CveId id' ->
      length before <= length before'.

(** The classification in the words of the specification. First the login
    marker anywhere; else [GET] and a space at the start, with the path up
    to the next white space, [/] when that is empty; else the first CVE
    identifier; else the message itself, [other] when it is empty. *)
Inductive Classified (message : jsstring) : jsstring -> Prop :=
  | Classified_login :
      Contains (js "LOGIN username=") message ->
      Classified message (js "LOGIN")
  | Classified_get path rest :
      ~ Contains (js "LOGIN username=") message ->
      message = js "GET " ++ path ++ rest ->
      forallb notSpace path = true -> headOutside notSpace rest ->
      Classified message
        (js "GET " ++ match path with [] => js "/" | _ => path end)
  | Classified_cve id :
      ~ Contains (js "LOGIN username=") message ->
      (forall rest, message <> js "GET " ++ rest) ->
      FirstCve message id ->
      Classified message id
  | Classified_literal :
      ~ Contains (js "LOGIN username=") message ->
      (forall rest, message <> js "GET " ++ rest) ->
      (forall id, CveId id -> ~ Contains id message) ->
      message <> [] ->
      Classified message message
  | Classified_other :
      message = [] -> Classified message (js "other").

(** ** Shapes of a login *)

(** [s] starts with a login: the marker, a user of one code unit or more,
    the password literal, and the password up to the end of [s]; neither
    holds a line terminator. *)
Definition LoginAt (s user pw : jsstring) : Prop :=
  s = js "LOGIN username=" ++ user ++ js " password=" ++ pw /\
  user <> [] /\ forallb isDot user = true /\ forallb isDot pw = true.

(** The login of a message: the first place where one starts, and there
    the shortest user. *)
Definition FirstLogin (message user pw : jsstring) : Prop :=
  exists before rest,
    message = before ++ rest /\ LoginAt rest user pw /\
    (forall user' pw', LoginAt rest user' pw' -> length user <= length user') /\
    (forall before' rest' user' pw',
        message = before' ++ rest' -> LoginAt rest' user' pw' ->
        length before <= length before').

(** No login starts anywhere in the message. *)
Definition NoLogin (message : jsstring) : Prop :=
  forall before rest user pw,
    message = before ++ rest -> ~ LoginAt rest user pw.

(** A user and a password behind the marker and the first code unit of
    the user: [s] is a run [more] of the user, the password literal and
    the password. *)
Definition Credential (s more pw : jsstring) : Prop :=
  s = more ++ js " password=" ++ pw /\
  forallb isDot more = true /\ forallb isDot pw = true.

Definition declaredTypes : list jsstring :=
  [js "fortipot"; js "ssh"; js "rdp"; js "ftp"].

(** ** The tallies *)

(** The keys an event is counted under, and its row of [loginAttempts]. *)
Definition eventKey (e : Event) : jsstring := orElse (eventType e) (js "other").

Definition ipKey (e : Event) : option jsstring :=
  match ip e with
  | [] => None
  | _ => Some (ip e)
  end.

Definition dateKey (e : Event) : option jsstring := truthyDate (date e).

Definition hasCredential (e : Event) : bool :=
  notNull (loginUsername e) || notNull (loginPassword e).

Definition attemptRow (e : Event) : Attempt :=
  {| a_ts := ts e; a_date := date e; a_ip := ip e;
     username := orEmpty (loginUsername e);
     password := orEmpty (loginPassword e) |}.

(** What a tally holds under a key after counting it [n] times. *)
Definition counted (n : nat) : option jsval :=
  match n with
  | O => None
  | S _ => Some (VNum n)
  end.

(** The number of times a key occurs in a list of keys. *)
Definition timesIn (k : jsstring) (keys : list jsstring) : nat :=
  length (filter (fun k' => k' = k) keys).

(** The count a tally shows under a key. *)
Definition tallyCount (o : gmap jsstring jsval) (k : jsstring) : nat :=
  match o !! k with
  | Some (VNum n) => n
  | _ => 0
  end.

(** The sum of the values of a tally, when all of them are numbers. *)
Definition numberOf (v : jsval) : option nat :=
  match v with
  | VNum n => Some n
  | VStr _ => None
  end.

Definition addValue (_ : jsstring) (v : jsval) (acc : option nat) : option nat :=
  n ← numberOf v; t ← acc; Some (n + t).

Definition sumValues (o : gmap jsstring jsval) : option nat :=
  map_fold addValue (Some 0) o.

(** An event without a date and without an address, as the grammar gives
    it for [nodate|INFO||probe]. *)
Definition undatedProbe : Event :=
  {| date := None; ip := []; eventType := js "probe"; ts := js "nodate";
     loginUsername := None; loginPassword := None |}.

(** ** Requests and sample stores *)

(** The two requests, for a reading [t] of the clock. *)
Definition listRequest (folder : jsstring) (t : N) : Request :=
  {| url := GITHUB_API_BASE ++ js "/" ++ LOGS_REPO ++ js "/contents/" ++ folder
              ++ js "?nocache=" ++ decimal t;
     accept := js "application/vnd.github.v3+json" |}.

Definition contentRequest (folder encoded : jsstring) (t : N) : Request :=
  {| url := GITHUB_API_BASE ++ js "/" ++ LOGS_REPO ++ js "/contents/"
              ++ (folder ++ js "/" ++ encoded) ++ js "?nocache=" ++ decimal t;
     accept := js "application/vnd.github.v3.raw" |}.

(** The texts that the content fetches of a run return, file by file, and
    the worlds before and after. *)
Inductive Fetched {W Date : Type} (rt : Runtime W Date) (folder : jsstring)
  : list jsstring -> W -> list jsstring -> W -> Prop :=
  | Fetched_nil w : Fetched rt folder [] w [] w
  | Fetched_cons filename files text texts w w1 w2 :
      fetchLogContent rt folder filename w = (Normal text, w1) ->
      Fetched rt folder files w1 texts w2 ->
      Fetched rt folder (filename :: files) w (text :: texts) w2.

(** In the sample stores the clock stands still, a date is its own ISO
    text, and the URI encoder changes nothing. *)
Definition sampleNow : jsstring := js "2026-02-28T23:59:59.999Z".

(** A store that answers every request with status 403. *)
Definition forbiddenStore : Runtime unit jsstring :=
  {| dateNow := fun w => (1772323199999%N, w);
     fetch := fun _ w =>
       (Resolved {| ok := false; status := 403; textBody := None; jsonBody := None |}, w);
     encodeURIComponent := fun s => Some s;
     newDate := fun w => (sampleNow, w);
     makeDate := fun _ _ _ => js "2000-01-01T00:00:00.000Z";
     daysBefore := fun d _ => d;
     toISOString := fun d => Some d |}.

(** A folder with two log files in February 2026, one in March, a name
    outside the pattern and a directory; every file has one line. *)
Definition sampleListing : list Listed :=
  [ {| l_type := js "file"; l_name := js "2026-03-05_fortipot.log" |};
    {| l_type := js "file"; l_name := js "2026-02-19_fortipot.log" |};
    {| l_type := js "file"; l_name := js "not-a-date.log" |};
    {| l_type := js "dir"; l_name := js "2026-02-20_fortipot.log" |};
    {| l_type := js "file"; l_name := js "2026-02-18_fortipot.log" |} ].

Definition sampleStore : Runtime unit jsstring :=
  {| dateNow := fun w => (1772323199999%N, w);
     fetch := fun req w =>
       (Resolved
          (if bool_decide (accept req = js "application/vnd.github.v3+json") then
             {| ok := true; status := 200; textBody := None;
                jsonBody := Some (JArray sampleListing) |}
           else if includes (js "2026-02-18") (url req) then
             {| ok := true; status := 200;
                textBody := Some (js "2026-02-18T10:00:00|INFO|1.2.3.4|LOGIN username=root password=toor");
                jsonBody := None |}
           else if includes (js "2026-02-19") (url req) then
             {| ok := true; status := 200;
                textBody := Some (js "2026-02-19T11:00:00|INFO|1.2.3.4|GET /admin HTTP/1.1");
                jsonBody := None |}
           else
             {| ok := true; status := 200;
                textBody := Some (js "2026-03-05T12:00:00|INFO|5.6.7.8|GET /late HTTP/1.1");
                jsonBody := None |}), w);
     encodeURIComponent := fun s => Some s;
     newDate := fun w => (sampleNow, w);
     makeDate := fun _ _ _ => js "2000-01-01T00:00:00.000Z";
     daysBefore := fun d _ => d;
     toISOString := fun d => Some d |}.

(** The sample store on a network that fails for the file of 19 February:
    the promise of that fetch rejects. *)
Definition flakyStore : Runtime unit jsstring :=
  {| dateNow := dateNow sampleStore;
     fetch := fun req w =>
       if includes (js "2026-02-19") (url req) then (Rejected, w)
       else fetch sampleStore req w;
     encodeURIComponent := encodeURIComponent sampleStore;
     newDate := newDate sampleStore;
     makeDate := makeDate sampleStore;
     daysBefore := daysBefore sampleStore;
     toISOString := toISOString sampleStore |}.

Definition february : DateRange jsstring :=
  {| range_start := js "2026-02-01T00:00:00.000Z";
     range_end := sampleNow |}.

Ltac class_cases :=
  repeat match goal with
         | H : context [(?a =? ?b)%N] |- _ =>
             destruct (N.eqb_spec a b); simpl in H; try lia
         | H : context [(?a <=? ?b)%N] |- _ =>
             destruct (N.leb_spec a b); simpl in H; try lia
         | |- context [(?a =? ?b)%N] =>
             destruct (N.eqb_spec a b); simpl; try lia
         | |- context [(?a <=? ?b)%N] =>
             destruct (N.leb_spec a b); simpl; try lia
         end; try done.

Ltac compare_digits x y :=
  destruct (N.lt_trichotomy x y) as [Hlt|[Heq|Hgt]];
  [ rewrite (proj2 (N.ltb_lt (x + 48) (y + 48))) by lia; split; intros; [lia|done]
  | subst; rewrite N.ltb_irrefl
  | rewrite (proj2 (N.ltb_ge (x + 48) (y + 48))) by lia;
    rewrite (proj2 (N.ltb_lt (y + 48) (x + 48))) by lia;
    split; intros; [done|lia] ].

Ltac destruct_classification :=
  match goal with
  | |- context [match ?c with (_, _) => _ end] => destruct c as [[? ?] ?]
  end.

(** * The page: markup, tables and the run

    The rest of the second script of [src/unnamed/part_000]: [escapeHtml],
    the data that [renderSummary], [renderTrafficChart], [renderTopIps],
    [renderEvents] and [renderLoginAttempts] compute, [show] and
    [runStats]. A chart is the labels and the data handed to the chart
    library; a table body is the text assigned to its [innerHTML]. *)

(** ** Markup *)

Definition AMP : N := 38.
Definition LT : N := 60.
Definition GT : N := 62.
Definition ELLIPSIS : N := 8230.

(** A text between double quotes. *)
Definition quoted (s : jsstring) : jsstring := [DQUOTE] ++ s ++ [DQUOTE].

(** [s.replace(/c/g, replacement)] for a pattern of the one code unit [c]
    and a replacement without dollar sign: every occurrence, left to
    right. *)
Definition replaceAll (c : N) (replacement s : jsstring) : jsstring :=
  flat_map (fun d => if (d =? c)%N then replacement else [d]) s.

(** [escapeHtml(s)] of a string: the empty string is falsy, and [String]
    leaves a string as it is. *)
Definition escapeHtml (s : jsstring) : jsstring :=
  match s with
  | [] => []
  | _ =>
      replaceAll DQUOTE (js "&quot;")
        (replaceAll GT (js "&gt;")
           (replaceAll LT (js "&lt;")
              (replaceAll AMP (js "&amp;") s)))
  end.

(** [s.slice(0, e)]: a negative end counts from the end of [s]. *)
Definition sliceTo (e : Z) (s : jsstring) : jsstring :=
  if (e <? 0)%Z then take (Z.to_nat (Z.of_nat (length s) + e)) s
  else take (Z.to_nat e) s.

(** [shortLabel(s, maxLen)] of [renderEvents]. *)
Definition shortLabel (s : jsstring) (maxLen : nat) : jsstring :=
  if length s <=? maxLen then s
  else sliceTo (Z.of_nat maxLen - 1) s ++ [ELLIPSIS].

(** ** The table of login attempts *)

(** The markup of one row. *)
Definition loginRow (row : Attempt) : jsstring :=
  js "<tr><td class=" ++ quoted (js "login-ts") ++ js ">" ++
  escapeHtml (orElse (a_ts row) []) ++
  js "</td><td><code>" ++
  escapeHtml (orElse (a_ip row) []) ++
  js "</code></td><td class=" ++ quoted (js "login-username") ++ js ">" ++
  escapeHtml (orElse (username row) []) ++
  js "</td><td class=" ++ quoted (js "login-password") ++ js ">" ++
  escapeHtml (orElse (password row) []) ++
  js "</td></tr>".

(** [renderLoginAttempts(loginAttempts, limit)]. [tbody] is the table body
    the selector finds, as its [innerHTML], or [None] when there is none;
    the result is the table body afterwards. *)
Definition renderLoginAttempts (tbody : option jsstring)
    (loginAttempts : list Attempt) (limit : nat) : option jsstring :=
  match tbody with
  | None => None
  | Some _ =>
      let sorted := take limit (rev loginAttempts) in
      Some (join [] (loginRow <$> sorted))
  end.

(** ** Charts *)

(** The entries of a tally as numbers; [None] when a value is a string
    (then [b[1] - a[1]] is not a number and the order of [sort] is up to
    the engine). *)
Definition numericEntries (entries : list (jsstring * jsval))
  : option (list (jsstring * nat)) :=
  mapM (fun kv => n ← numberOf kv.2; Some (kv.1, n)) entries.

(** [entries.sort((a, b) => b[1] - a[1])]: [sort] is stable, so an entry
    goes in front of the first entry behind it whose count is not greater.
    The sorted array is fixed by the comparison and the order before, not
    by the algorithm of the engine. *)
Fixpoint insertByCount (a : jsstring * nat) (sorted : list (jsstring * nat))
  : list (jsstring * nat) :=
  match sorted with
  | [] => [a]
  | b :: sorted' =>
      if b.2 <=? a.2 then a :: b :: sorted' else b :: insertByCount a sorted'
  end.

Definition sortByCount (entries : list (jsstring * nat)) : list (jsstring * nat) :=
  foldr insertByCount [] entries.

Section Charts.

(** [Object.entries(o)] lists the own properties in the order of the
    engine: array indices first, then the other keys as they were created.
    A map does not hold that order, so the listing is a parameter. *)
Variable entriesOf : gmap jsstring jsval -> list (jsstring * jsval).

(** [Object.keys(o)] *)
Definition keysOf (o : gmap jsstring jsval) : list jsstring := (entriesOf o).*1.

(** The three numbers of [renderSummary]: [stats.total],
    [Object.keys(stats.byIp).length] and
    [Object.keys(stats.byDate).length]. *)
Definition renderSummary (stats : Stats) : nat * nat * nat :=
  (total stats, length (keysOf (byIp stats)), length (keysOf (byDate stats))).

(** [dates] and [counts] of [renderTrafficChart]: the labels and the data
    of the chart. *)
Definition renderTrafficChart (byDate : gmap jsstring jsval)
  : list jsstring * list readResult :=
  let dates := sortNames (keysOf byDate) in
  let counts := (fun d => getProp byDate d) <$> dates in
  (dates, counts).

(** [sorted] of [renderTopIps] and of [renderEvents]. *)
Definition sortedTop (o : gmap jsstring jsval) (limit : nat)
  : option (list (jsstring * nat)) :=
  entries ← numericEntries (entriesOf o);
  Some (take limit (sortByCount entries)).

(** [labels] and [data] of [renderTopIps(byIp, limit)]. *)
Definition renderTopIps (byIp : gmap jsstring jsval) (limit : nat)
  : option (list jsstring * list nat) :=
  sorted ← sortedTop byIp limit;
  Some (sorted.*1, sorted.*2).

(** [fullLabels], [chartLabels] and [data] of
    [renderEvents(byEvent, limit)]. *)
Definition renderEvents (byEvent : gmap jsstring jsval) (limit : nat)
  : option (list jsstring * list jsstring * list nat) :=
  sorted ← sortedTop byEvent limit;
  let fullLabels := sorted.*1 in
  let chartLabels := (fun s => shortLabel s 40) <$> fullLabels in
  Some (fullLabels, chartLabels, sorted.*2).

End Charts.

(** ** The run *)

(** An element whose class list [show] changes: whether it has the class
    [hidden], and its [innerHTML]. *)
Record Panel := mkPanel {
  hidden : bool;
  innerHTML : jsstring
}.

(** What [runStats] reads and writes of the document. An element is [None]
    when [getElementById] finds none. The two selects are their [value],
    the button is its [disabled]; [chartDefined] is whether the chart
    library is loaded; [frames] holds the statistics of the [renderCharts]
    calls handed to [requestAnimationFrame]. *)
Record Page := mkPage {
  honeypotSelect : option jsstring;
  dateRangeSelect : option jsstring;
  loadBtn : option bool;
  loadingEl : option Panel;
  errorEl : option Panel;
  contentEl : option Panel;
  chartDefined : bool;
  frames : list Stats
}.

(** [show(el, visible)] *)
Definition show (el : option Panel) (visible : bool) : option Panel :=
  match el with
  | None => None
  | Some p => Some {| hidden := negb visible; innerHTML := innerHTML p |}
  end.

(** [el.innerHTML = html]: a [TypeError] when there is no element. *)
Definition setInnerHTML (el : option Panel) (html : jsstring)
  : completion (option Panel) :=
  match el with
  | None => Throw TypeError
  | Some p => Normal (Some {| hidden := hidden p; innerHTML := html |})
  end.

(** [if (loadBtn) loadBtn.disabled = d] *)
Definition setDisabled (btn : option bool) (d : bool) : option bool :=
  match btn with
  | None => None
  | Some _ => Some d
  end.

Definition withPanels (page : Page) (loading error content : option Panel)
    (btn : option bool) : Page :=
  {| honeypotSelect := honeypotSelect page;
     dateRangeSelect := dateRangeSelect page;
     loadBtn := btn; loadingEl := loading; errorEl := error;
     contentEl := content; chartDefined := chartDefined page;
     frames := frames page |}.

Definition withFrame (page : Page) (stats : Stats) : Page :=
  {| honeypotSelect := honeypotSelect page;
     dateRangeSelect := dateRangeSelect page;
     loadBtn := loadBtn page; loadingEl := loadingEl page;
     errorEl := errorEl page; contentEl := contentEl page;
     chartDefined := chartDefined page;
     frames := frames page ++ [stats] |}.

Definition repoLink (text : jsstring) : jsstring :=
  js "<a href=" ++ quoted (js "https://github.com/seckid/logs") ++
  js " target=" ++ quoted (js "_blank") ++
  js " rel=" ++ quoted (js "noopener") ++ js ">" ++ text ++ js "</a>".

Definition ONLY_FORTIPOT : jsstring :=
  js "<p>Only FortiPot logs are available at the moment. SSH, RDP, and FTP will be added when logs are available in the repo.</p>".

Definition NO_ENTRIES : jsstring :=
  js "<p>No log entries found for the selected period. Data is pulled from " ++
  repoLink (js "github.com/seckid/logs") ++ js ".</p>".

Definition CHART_MISSING : jsstring :=
  js "Chart.js failed to load. Check your connection or try disabling ad blockers.".

(** The markup of the [catch] block for [err.message]. *)
Definition errorMarkup (message : jsstring) : jsstring :=
  js "<p><strong>Error:</strong> " ++ message ++
  js ". GitHub API may be rate-limited (60 req/hour unauthenticated). Try again later or check the repo " ++
  repoLink (js "seckid/logs") ++ js ".</p>".

Section Run.

Context {W Date : Type} (rt : Runtime W Date).

(** The [message] of an error object that the engine made: its text is up
    to the engine. *)
Variable engineMessage : jsError -> jsstring.

(** [err.message] *)
Definition messageText (err : jsError) : jsstring :=
  match err with
  | Error message => message
  | _ => engineMessage err
  end.

(** The [catch] block of [runStats]. *)
Definition runStatsCatch (page : Page) (err : jsError) : completion unit * Page :=
  let page1 :=
    withPanels page (show (loadingEl page) false) (show (errorEl page) true)
      (contentEl page) (setDisabled (loadBtn page) false) in
  match setInnerHTML (errorEl page1) (errorMarkup (messageText err)) with
  | Throw e => (Throw e, page1)
  | Normal el =>
      (Normal tt,
       withPanels page1 (loadingEl page1) el (contentEl page1) (loadBtn page1))
  end.

(** The [try] block of [runStats], from a page that shows the loading
    panel. *)
Definition runStatsTry (page : Page) (dateRangeVal : jsstring) (w : W)
  : completion unit * Page * W :=
  if negb (chartDefined page) then (Throw (Error CHART_MISSING), page, w)
  else
    let '(dateRange, w1) := getDateRange rt dateRangeVal w in
    match loadAndParseLogs rt (js "fortipot") dateRange w1 with
    | (Throw err, w2) => (Throw err, page, w2)
    | (Normal stats, w2) =>
        let page1 :=
          withPanels page (show (loadingEl page) false) (errorEl page)
            (contentEl page) (setDisabled (loadBtn page) false) in
        if total stats =? 0 then
          let page2 :=
            withPanels page1 (loadingEl page1) (show (errorEl page1) true)
              (contentEl page1) (loadBtn page1) in
          match setInnerHTML (errorEl page2) NO_ENTRIES with
          | Throw e => (Throw e, page2, w2)
          | Normal el =>
              (Normal tt,
               withPanels page2 (loadingEl page2) el (contentEl page2)
                 (loadBtn page2), w2)
          end
        else
          let page2 :=
            withPanels page1 (loadingEl page1) (errorEl page1)
              (show (contentEl page1) true) (loadBtn page1) in
          (Normal tt, withFrame page2 stats, w2)
    end.

(** [runStats()] *)
Definition runStats (page : Page) (w : W) : completion unit * Page * W :=
  match honeypotSelect page with
  | None => (Throw TypeError, page, w)
  | Some honeypotType =>
      match dateRangeSelect page with
      | None => (Throw TypeError, page, w)
      | Some dateRangeVal =>
          if negb (bool_decide (honeypotType = js "fortipot")) then
            let page1 :=
              withPanels page (show (loadingEl page) false)
                (show (errorEl page) true) (show (contentEl page) false)
                (loadBtn page) in
            match setInnerHTML (errorEl page1) ONLY_FORTIPOT with
            | Throw e => (Throw e, page1, w)
            | Normal el =>
                (Normal tt,
                 withPanels page1 (loadingEl page1) el (contentEl page1)
                   (loadBtn page1), w)
            end
          else
            let page1 :=
              withPanels page (show (loadingEl page) true)
                (show (errorEl page) false) (show (contentEl page) false)
                (setDisabled (loadBtn page) true) in
            match runStatsTry page1 dateRangeVal w with
            | (Normal tt, page2, w2) => (Normal tt, page2, w2)
            | (Throw err, page2, w2) =>
                let '(result, page3) := runStatsCatch page2 err in
                (result, page3, w2)
            end
      end
  end.

End Run.

(** ** Markup *)

(** What [escapeHtml] writes for one code unit. *)
Definition escapeUnit (c : N) : jsstring :=
  if (c =? AMP)%N then js "&amp;"
  else if (c =? LT)%N then js "&lt;"
  else if (c =? GT)%N then js "&gt;"
  else if (c =? DQUOTE)%N then js "&quot;"
  else [c].

(** The code units that [escapeHtml] rewrites. *)
Definition isMarkup (c : N) : bool :=
  ((c =? AMP) || (c =? LT) || (c =? GT) || (c =? DQUOTE))%N.

(** The four entity names, behind the ampersand. *)
Definition entityNames : list jsstring :=
  [js "amp;"; js "lt;"; js "gt;"; js "quot;"].

(** ** Keys of a tally *)

(** The different keys of a list, without [__proto__], under which a
    tally never holds a property. *)
Definition distinctKeys (keys : list jsstring) : list jsstring :=
  remove_dups (filter (fun k => k <> protoAccessor) keys).

(** An event that the fortipot grammar gave for some line. *)
Definition FromGrammar (e : Event) : Prop := exists line, fortipot line = Some e.

(** The array is in the order of [sort] by count: no entry has a greater
    count than an entry in front of it. *)
Definition ByCountDesc (entries : list (jsstring * nat)) : Prop :=
  StronglySorted (fun a b => b.2 <= a.2) entries.

(** ** A sample page *)

Definition hiddenPanel : Panel := {| hidden := true; innerHTML := [] |}.

(** A page with every element, the type [fortipot] and the range [all]
    selected, the chart library loaded, nothing shown yet. *)
Definition samplePage : Page :=
  {| honeypotSelect := Some (js "fortipot");
     dateRangeSelect := Some (js "all");
     loadBtn := Some false;
     loadingEl := Some hiddenPanel;
     errorEl := Some hiddenPanel;
     contentEl := Some hiddenPanel;
     chartDefined := true;
     frames := [] |}.

(** * The statistics page

    Of the first script of [src/unnamed/part_000], which renders a file
    of statistics made elsewhere: the filter of the days, [filterDays]. *)

Section Days.

Context {W Date : Type} (rt : Runtime W Date).

(** The value under a day: an object of counts by source, or whatever
    the file holds there. [isObjectOrNull] is whether a value is an object
    or [null], which is what the [__proto__] setter of [Object.prototype]
    accepts as a prototype. *)
Context {V : Type}.
Variable isObjectOrNull : V -> bool.

(** An object made by the literal [{}] and filled by assignments: its own
    properties, and its prototype when an assignment to [__proto__]
    replaced [Object.prototype]. *)
Record DayTable := mkDayTable {
  own : gmap jsstring V;
  proto : option V
}.

Definition emptyTable : DayTable := {| own := ∅; proto := None |}.

(** [filtered[d] = v]: under [__proto__] the setter runs and no own
    property is made. *)
Definition assignDay (filtered : DayTable) (d : jsstring) (v : V) : DayTable :=
  if bool_decide (d = protoAccessor) then
    if isObjectOrNull v then {| own := own filtered; proto := Some v |}
    else filtered
  else {| own := <[d := v]> (own filtered); proto := proto filtered |}.

(** The body of the loop of [filterDays] for the day [d] and
    [eventsPerDay[d]]. *)
Definition keepDay (cutStr : jsstring) (filtered : DayTable) (day : jsstring * V)
  : DayTable :=
  if geStr day.1 cutStr then assignDay filtered day.1 day.2 else filtered.

(** [filterDays(eventsPerDay, days)]. A missing [eventsPerDay] is [None].
    [Object.keys(eventsPerDay).sort()] does not depend on the order in
    which the engine lists the keys, since the keys differ; each key is
    listed here with the value read under it. *)
Definition filterDays (eventsPerDay : option (gmap jsstring V)) (days : jsstring)
  : Async W DayTable :=
  fun w =>
    match eventsPerDay with
    | None => (Normal emptyTable, w)
    | Some o =>
        let allDays := sortNames (map_to_list o).*1 in
        if bool_decide (days = js "all") then
          (Normal {| own := o; proto := None |}, w)
        else
          let '(cutoff, w1) := newDate rt w in
          match toISOString rt (daysBefore rt cutoff days) with
          | None => (Throw RangeError, w1)
          | Some iso =>
              let cutStr := take 10 iso in
              let read := omap (fun d => v ← o !! d; Some (d, v)) allDays in
              (Normal (fold_left (keepDay cutStr) read emptyTable), w1)
          end
    end.

End Days.

Arguments own {V} _.
Arguments proto {V} _.

(** * Properties *)

(** ** Scanning and trimming *)

Section Scanning.

Variable p : N -> bool.

Lemma dropWhile_run (run s : jsstring) :
  forallb p run = true -> dropWhile p (run ++ s) = dropWhile p s.
Proof.
  induction run as [|c run IH]; simpl; [done|].
  intros [Hc Hrun]%andb_true_iff. rewrite Hc. auto.
Qed.


Lemma takeWhile_run (run s : jsstring) :
  forallb p run = true -> takeWhile p (run ++ s) = run ++ takeWhile p s.
Proof.
  induction run as [|c run IH]; simpl; [done|].
  intros [Hc Hrun]%andb_true_iff. rewrite Hc. f_equal. auto.
Qed.

Lemma takeWhile_dropWhile (s : jsstring) :
  takeWhile p s ++ dropWhile p s = s.
Proof.
  induction s as [|c s IH]; simpl; [done|].
  destruct (p c); simpl; [by f_equal|done].
Qed.

Lemma takeWhile_forallb (s : jsstring) : forallb p (takeWhile p s) = true.
Proof.
  induction s as [|c s IH]; simpl; [done|].
  destruct (p c) eqn:Hc; simpl; [by rewrite Hc|done].
Qed.


End Scanning.

Lemma occurrences_app c s t :
  occurrences c (s ++ t) = occurrences c s + occurrences c t.
Proof. induction s as [|d s IH]; simpl; [done|]. rewrite IH. lia. Qed.

Lemma occurrences_rev c s : occurrences c (rev s) = occurrences c s.
Proof.
  induction s as [|d s IH]; simpl; [done|].
  rewrite occurrences_app, IH. simpl. lia.
Qed.

Lemma occurrences_dropWhile p c s :
  p c = false -> occurrences c (dropWhile p s) = occurrences c s.
Proof.
  intros Hc. induction s as [|d s IH]; simpl; [done|].
  destruct (p d) eqn:Hd; [|done].
  rewrite IH. destruct (N.eqb_spec d c) as [->|]; [congruence|done].
Qed.

Lemma occurrences_trim c s :
  isWhiteSpace c = false -> occurrences c (trim s) = occurrences c s.
Proof.
  intros Hc. unfold trim, trimEnd, trimStart.
  rewrite occurrences_rev, occurrences_dropWhile, occurrences_rev by done.
  by apply occurrences_dropWhile.
Qed.

(** [split] gives one field more than there are separators. *)
Lemma split_length sep s : length (split sep s) = S (occurrences sep s).
Proof.
  induction s as [|c s IH]; simpl; [done|].
  destruct (c =? sep)%N; simpl; [by rewrite IH|].
  destruct (split sep s); simpl in *; lia.
Qed.

Lemma split_trim_length s :
  length (split PIPE (trim s)) = length (split PIPE s).
Proof. rewrite !split_length. f_equal. by apply occurrences_trim. Qed.

(** ** Character classes *)

Lemma digitOrDot_notSpace c : isDigitOrDot c = true -> isWhiteSpace c = false.
Proof.
  unfold isDigitOrDot, isDigit, isWhiteSpace, DOT. intros H. class_cases.
Qed.

Lemma digitOrDot_notQuote c : isDigitOrDot c = true -> isQuote c = false.
Proof.
  unfold isDigitOrDot, isDigit, isQuote, DOT, APOS, DQUOTE. intros H. class_cases.
Qed.

Lemma space_notQuote c : isWhiteSpace c = true -> isQuote c = false.
Proof.
  unfold isWhiteSpace, isQuote, APOS, DQUOTE. intros H. class_cases.
Qed.

Lemma space_notDigitOrDot c : isWhiteSpace c = true -> isDigitOrDot c = false.
Proof.
  intros H. destruct (isDigitOrDot c) eqn:E; [|done].
  apply digitOrDot_notSpace in E. congruence.
Qed.

Lemma digit_digitOrDot c : isDigit c = true -> isDigitOrDot c = true.
Proof. unfold isDigitOrDot. by intros ->. Qed.

(** ** What the scanners accept *)

Lemma digitsExactly_spec n s r :
  digitsExactly n s = Some r <->
  exists ds, s = ds ++ r /\ length ds = n /\ forallb isDigit ds = true.
Proof.
  revert s. induction n as [|n IH]; intros s; simpl.
  - split.
    + intros [= ->]. by exists [].
    + intros (ds & -> & Hlen & _). by destruct ds.
  - destruct s as [|c s].
    + split; [done|]. intros (ds & Hs & Hlen & _). by destruct ds.
    + destruct (isDigit c) eqn:Hc.
      * rewrite IH. split.
        -- intros (ds & -> & Hlen & Hds). exists (c :: ds). simpl.
           rewrite Hc, Hds. auto.
        -- intros (ds & Hs & Hlen & Hds). destruct ds as [|c' ds]; [done|].
           simpl in *. injection Hs as -> ->. injection Hlen as Hlen.
           apply andb_true_iff in Hds as [_ Hds]. by exists ds.
      * split; [done|]. intros (ds & Hs & Hlen & Hds).
        destruct ds as [|c' ds]; [done|]. simpl in *. injection Hs as -> ->.
        apply andb_true_iff in Hds as [Hc' _]. congruence.
Qed.

Lemma stripPrefix_spec p s r : stripPrefix p s = Some r <-> s = p ++ r.
Proof.
  revert s. induction p as [|a p IH]; intros s; simpl.
  - split; [by intros [= ->]|by intros ->].
  - destruct s as [|b s]; [done|].
    destruct (N.eqb_spec a b) as [->|Hne].
    + rewrite IH. split; [by intros ->|by intros [= ->]].
    + split; [done|]. intros [= -> _]. done.
Qed.

Lemma dateShapeRest_spec s r :
  dateShapeRest s = Some r <-> exists d, s = d ++ r /\ DateShaped d.
Proof.
  unfold dateShapeRest, DateShaped. split.
  - intros H.
    apply bind_Some in H as (s1 & (y & -> & Hy & Hyd)%digitsExactly_spec & H).
    apply bind_Some in H as (s2 & ->%stripPrefix_spec & H).
    apply bind_Some in H as (s3 & (m & -> & Hm & Hmd)%digitsExactly_spec & H).
    apply bind_Some in H as (s4 & ->%stripPrefix_spec & H).
    apply digitsExactly_spec in H as (dd & -> & Hdd & Hddd).
    exists (y ++ js "-" ++ m ++ js "-" ++ dd). split.
    + by rewrite <- !app_assoc.
    + by exists y, m, dd.
  - intros (d & -> & y & m & dd & -> & Hy & Hm & Hdd & Hyd & Hmd & Hddd).
    rewrite <- !app_assoc.
    apply bind_Some. exists (js "-" ++ m ++ js "-" ++ dd ++ r).
    split; [apply digitsExactly_spec; by exists y|].
    apply bind_Some. exists (m ++ js "-" ++ dd ++ r).
    split; [by apply stripPrefix_spec|].
    apply bind_Some. exists (js "-" ++ dd ++ r).
    split; [apply digitsExactly_spec; by exists m|].
    apply bind_Some. exists (dd ++ r).
    split; [by apply stripPrefix_spec|].
    apply digitsExactly_spec. by exists dd.
Qed.

Lemma startsWith_spec p s : startsWith p s = true <-> exists r, s = p ++ r.
Proof.
  revert s. induction p as [|a p IH]; intros s; simpl.
  - split; [by exists s|done].
  - destruct s as [|b s]; [split; [done|by intros [r ?]]|].
    rewrite andb_true_iff, IH, N.eqb_eq. split.
    + intros [-> [r ->]]. by exists r.
    + intros [r [= -> ->]]. split; [done|by exists r].
Qed.

Lemma DateShaped_length d : DateShaped d -> length d = 10.
Proof.
  intros (y & m & dd & -> & Hy & Hm & Hdd & _).
  rewrite !length_app, Hy, Hm, Hdd. done.
Qed.

(** ** The matcher on the patterns of the script *)

Lemma space_notDigit c : isWhiteSpace c = true -> isDigit c = false.
Proof.
  intros H. destruct (isDigit c) eqn:E; [|done].
  apply digit_digitOrDot, digitOrDot_notSpace in E. congruence.
Qed.

Lemma quote_notDigitOrDot c : isQuote c = true -> isDigitOrDot c = false.
Proof.
  intros H. destruct (isDigitOrDot c) eqn:E; [|done].
  apply digitOrDot_notQuote in E. congruence.
Qed.

Lemma quote_notSpace c : isQuote c = true -> isWhiteSpace c = false.
Proof.
  intros H. destruct (isWhiteSpace c) eqn:E; [|done].
  apply space_notQuote in E. congruence.
Qed.

(** What follows a class commits it when it refuses every input that
    starts inside the class: then no shorter run can match. *)
Definition Commits {R} (p : N -> bool) (f : jsstring -> option R) : Prop :=
  forall c s', p c = true -> f (c :: s') = None.

Section QuantifierLemmas.

Context {R : Type} (p : N -> bool) (f : jsstring -> option R).

Lemma greedy_commit taken s :
  Commits p f -> greedy p (fun _ rest => f rest) taken s = f (dropWhile p s).
Proof.
  intros Hc. revert taken. induction s as [|c s IH]; intros taken; simpl; [done|].
  destruct (p c) eqn:Hpc; [|done].
  rewrite IH. destruct (f (dropWhile p s)) eqn:E; [done|]. by apply Hc.
Qed.

(** What accepts behind the longest run decides the match. *)
Lemma greedy_longest taken s :
  is_Some (f (dropWhile p s)) ->
  greedy p (fun _ rest => f rest) taken s = f (dropWhile p s).
Proof.
  revert taken. induction s as [|c s IH]; intros taken; simpl; [done|].
  destruct (p c) eqn:Hpc; [|done].
  intros Hsome. rewrite IH by done. by destruct Hsome as [r ->].
Qed.

(** A greedy run matches when some run of the class has an accepting
    rest. *)
Lemma greedy_is_Some taken s :
  is_Some (greedy p (fun _ rest => f rest) taken s) <->
  exists run rest, s = run ++ rest /\ forallb p run = true /\ is_Some (f rest).
Proof.
  revert taken. induction s as [|c s IH]; intros taken; simpl.
  - split.
    + intros H. by exists [], [].
    + intros (run & rest & Hs & _ & H). symmetry in Hs.
      apply app_eq_nil in Hs as [-> ->]. done.
  - destruct (p c) eqn:Hpc.
    + destruct (greedy p (fun _ rest => f rest) (c :: taken) s) as [r|] eqn:Hg.
      * split; [|by eauto]. intros _.
        destruct (proj1 (IH (c :: taken))) as (run & rest & -> & Hrun & Hrest).
        { by rewrite Hg. }
        exists (c :: run), rest. simpl. by rewrite Hpc, Hrun.
      * split.
        -- intros H. by exists [], (c :: s).
        -- intros (run & rest & Hs & Hrun & Hrest).
           destruct run as [|c' run]; simpl in Hs.
           ++ by subst rest.
           ++ injection Hs as -> ->. simpl in Hrun.
              apply andb_true_iff in Hrun as [_ Hrun].
              assert (is_Some (greedy p (fun _ rest0 => f rest0) (c' :: taken) (run ++ rest)))
                as [r Hr] by (apply IH; eauto).
              congruence.
    + split.
      * intros H. by exists [], (c :: s).
      * intros (run & rest & Hs & Hrun & Hrest).
        destruct run as [|c' run]; simpl in Hs; [by subst rest|].
        injection Hs as -> ->. simpl in Hrun. by rewrite Hpc in Hrun.
Qed.

End QuantifierLemmas.

(** A greedy group in front of the end of the input takes all of it, and
    matches when all of it is in the class. *)
Lemma greedy_to_end {R} p (g : jsstring -> R) taken s :
  greedy p (fun t rest => match rest with [] => Some (g t) | _ :: _ => None end) taken s =
  if forallb p s then Some (g (rev taken ++ s)) else None.
Proof.
  revert taken. induction s as [|c s IH]; intros taken; simpl.
  - by rewrite app_nil_r.
  - destruct (p c) eqn:Hpc; simpl; [|done].
    rewrite IH. simpl. rewrite <- app_assoc. simpl.
    by destruct (forallb p s).
Qed.

Lemma times_digits {R} (f : jsstring -> option R) n taken s :
  times isDigit (fun _ rest => f rest) n taken s = digitsExactly n s ≫= f.
Proof.
  revert taken s. induction n as [|n IH]; intros taken s; simpl; [done|].
  destruct s as [|c s]; [done|]. destruct (isDigit c); [apply IH|done].
Qed.

Lemma optional_commit {R} p (f : jsstring -> option R) s :
  Commits p f ->
  quantified p (fun _ rest => f rest) Optional s = f (skipOne p s).
Proof.
  intros Hc. destruct s as [|c s]; simpl; [done|].
  destruct (p c) eqn:Hpc; [|done].
  destruct (f s) eqn:E; [done|]. by apply Hc.
Qed.

Lemma oneOrMore_commit {R} p (f : jsstring -> option R) s :
  Commits p f ->
  quantified p (fun _ rest => f rest) OneOrMore s = many1 p s ≫= f.
Proof.
  intros Hc. unfold many1. destruct s as [|c s]; simpl; [done|].
  destruct (p c) eqn:Hpc; [|done]. simpl. by apply greedy_commit.
Qed.

Lemma oneOrMore_longest {R} p (f : jsstring -> option R) s :
  (forall r, is_Some (f r)) ->
  quantified p (fun _ rest => f rest) OneOrMore s = many1 p s ≫= f.
Proof.
  intros Hc. unfold many1. destruct s as [|c s]; simpl; [done|].
  destruct (p c) eqn:Hpc; [|done]. simpl. by apply greedy_longest.
Qed.

Lemma expect_stripPrefix c s : stripPrefix [c] s = expect c s.
Proof.
  destruct s as [|d s]; simpl; [done|].
  rewrite (N.eqb_sym c d). by destruct (d =? c)%N.
Qed.

Section Steps.

Context (pat : list piece) (groups : list jsstring).

Lemma matchHere_literal l s :
  matchHere (Literal l :: pat) groups s = stripPrefix l s ≫= matchHere pat groups.
Proof. cbn [matchHere]. by destruct (stripPrefix l s). Qed.

Lemma matchHere_star p s :
  Commits p (matchHere pat groups) ->
  matchHere (Class ZeroOrMore p :: pat) groups s =
  matchHere pat groups (dropWhile p s).
Proof. intros Hc. cbn [matchHere quantified]. by apply greedy_commit. Qed.

Lemma matchHere_optional p s :
  Commits p (matchHere pat groups) ->
  matchHere (Class Optional p :: pat) groups s = matchHere pat groups (skipOne p s).
Proof. intros Hc. cbn [matchHere]. by apply optional_commit. Qed.

Lemma matchHere_plus p s :
  Commits p (matchHere pat groups) ->
  matchHere (Class OneOrMore p :: pat) groups s =
  many1 p s ≫= matchHere pat groups.
Proof. intros Hc. cbn [matchHere]. by apply oneOrMore_commit. Qed.

Lemma matchHere_times n s :
  matchHere (Class (Times n) isDigit :: pat) groups s =
  digitsExactly n s ≫= matchHere pat groups.
Proof. cbn [matchHere quantified]. apply times_digits. Qed.

Lemma commits_literal p a l :
  (forall c, p c = true -> c <> a) ->
  Commits p (matchHere (Literal (a :: l) :: pat) groups).
Proof.
  intros Hp c s' Hc. cbn [matchHere stripPrefix].
  destruct (N.eqb_spec a c) as [->|]; [|done]. by destruct (Hp c Hc).
Qed.

Lemma commits_plus p q :
  (forall c, p c = true -> q c = false) ->
  Commits p (matchHere (Class OneOrMore q :: pat) groups).
Proof. intros Hp c s' Hc. cbn [matchHere quantified]. by rewrite (Hp c Hc). Qed.

Lemma commits_optional p q :
  (forall c, p c = true -> q c = false) ->
  Commits p (matchHere pat groups) ->
  Commits p (matchHere (Class Optional q :: pat) groups).
Proof.
  intros Hp Hpat c s' Hc. cbn [matchHere quantified].
  rewrite (Hp c Hc). by apply Hpat.
Qed.

Lemma commits_star p q :
  (forall c, p c = true -> q c = false) ->
  Commits p (matchHere pat groups) ->
  Commits p (matchHere (Class ZeroOrMore q :: pat) groups).
Proof.
  intros Hp Hpat c s' Hc. cbn [matchHere quantified greedy].
  rewrite (Hp c Hc). by apply Hpat.
Qed.

End Steps.

Lemma matchHere_star_last groups p s :
  matchHere [Class ZeroOrMore p] groups s = Some (rev groups, dropWhile p s).
Proof.
  cbn [matchHere quantified].
  by rewrite (greedy_longest p (fun rest => Some (rev groups, rest))).
Qed.

Lemma matchHere_plus_last groups p s :
  matchHere [Class OneOrMore p] groups s =
  (fun rest => (rev groups, rest)) <$> many1 p s.
Proof.
  cbn [matchHere].
  rewrite (oneOrMore_longest p (fun rest => Some (rev groups, rest))) by done.
  by destruct (many1 p s).
Qed.

(** The address pattern needs no backtracking: every starred or optional
    class is followed by something outside the class. *)
Lemma matchHere_addrPrefix s :
  matchHere ADDR_PREFIX [] s = (fun rest => ([], rest)) <$> addrPrefixRest s.
Proof.
  unfold ADDR_PREFIX, addrPrefixRest.
  rewrite matchHere_star.
  2:{ apply commits_literal. by intros c Hc ->. }
  rewrite matchHere_literal, expect_stripPrefix.
  destruct (expect LPAREN (dropWhile isWhiteSpace s)) as [s1|]; [|done].
  cbn [mbind option_bind].
  rewrite matchHere_star.
  2:{ apply commits_optional; [apply space_notQuote|].
      apply commits_plus, space_notDigitOrDot. }
  rewrite matchHere_optional.
  2:{ apply commits_plus, quote_notDigitOrDot. }
  rewrite matchHere_plus.
  2:{ apply commits_optional; [apply digitOrDot_notQuote|].
      apply commits_star; [apply digitOrDot_notSpace|].
      apply commits_literal. by intros c Hc ->. }
  destruct (many1 isDigitOrDot (skipOne isQuote (dropWhile isWhiteSpace s1)))
    as [s2|]; [|done].
  cbn [mbind option_bind].
  rewrite matchHere_optional.
  2:{ apply commits_star; [apply quote_notSpace|].
      apply commits_literal. by intros c Hc ->. }
  rewrite matchHere_star.
  2:{ apply commits_literal. by intros c Hc ->. }
  rewrite matchHere_literal, expect_stripPrefix.
  destruct (expect COMMA (dropWhile isWhiteSpace (skipOne isQuote s2)))
    as [s3|]; [|done].
  cbn [mbind option_bind].
  rewrite matchHere_star.
  2:{ apply commits_plus, space_notDigit. }
  rewrite matchHere_plus.
  2:{ apply commits_literal. by intros c Hc ->. }
  destruct (many1 isDigit (dropWhile isWhiteSpace s3)) as [s4|]; [|done].
  cbn [mbind option_bind].
  rewrite matchHere_literal, expect_stripPrefix.
  destruct (expect RPAREN s4) as [s5|]; [|done].
  cbn [mbind option_bind].
  by rewrite matchHere_star_last.
Qed.

Lemma stripAddrPrefix_scan s :
  stripAddrPrefix s =
  match s with
  | [] => s
  | _ => trim (default s (addrPrefixRest s))
  end.
Proof.
  unfold stripAddrPrefix. rewrite matchHere_addrPrefix.
  destruct s; [done|]. by destruct (addrPrefixRest _).
Qed.

Lemma matchHere_dateShape pat groups s :
  matchHere (Class (Times 4) isDigit :: Literal (js "-") :: Class (Times 2) isDigit
               :: Literal (js "-") :: Class (Times 2) isDigit :: pat) groups s =
  dateShapeRest s ≫= matchHere pat groups.
Proof.
  unfold dateShapeRest.
  rewrite matchHere_times. destruct (digitsExactly 4 s) as [s1|]; [|done].
  cbn [mbind option_bind].
  rewrite matchHere_literal. destruct (stripPrefix (js "-") s1) as [s2|]; [|done].
  cbn [mbind option_bind].
  rewrite matchHere_times. destruct (digitsExactly 2 s2) as [s3|]; [|done].
  cbn [mbind option_bind].
  rewrite matchHere_literal. destruct (stripPrefix (js "-") s3) as [s4|]; [|done].
  cbn [mbind option_bind].
  by rewrite matchHere_times.
Qed.

Lemma consumed_app a rest : consumed (a ++ rest) rest = a.
Proof.
  unfold consumed. rewrite length_app.
  replace (length a + length rest - length rest) with (length a) by lia.
  by rewrite take_app_length.
Qed.

(** The date of a timestamp is its first ten code units, when they have
    the shape of a date. *)
Lemma dateMatch_spec ts d :
  dateMatch ts = Some d <-> DateShaped d /\ exists rest, ts = d ++ rest.
Proof.
  unfold dateMatch, DATE_PREFIX. rewrite matchHere_dateShape.
  destruct (dateShapeRest ts) as [rest|] eqn:Hrest; cbn.
  - apply dateShapeRest_spec in Hrest as (d' & -> & Hd').
    rewrite consumed_app. split.
    + intros [= <-]. eauto.
    + intros [Hd [rest' Hts]]. f_equal.
      apply DateShaped_length in Hd, Hd'.
      apply (f_equal (take 10)) in Hts.
      by rewrite !take_app_length' in Hts.
  - split; [done|]. intros [Hd [rest ->]].
    assert (dateShapeRest (d ++ rest) = Some rest) as Heq
      by (apply dateShapeRest_spec; eauto).
    congruence.
Qed.

(** The login pattern. *)
Lemma lazy_lazyUser groups taken s :
  lazy isDot
    (fun t rest =>
       matchHere [Literal (js " password="); Group ZeroOrMore isDot; EndOfInput]
                 (t :: groups) rest)
    taken s =
  (fun '(u, p) => (rev groups ++ [u; p], [])) <$> lazyUser taken s.
Proof.
  assert (Hk : forall t rest,
    matchHere [Literal (js " password="); Group ZeroOrMore isDot; EndOfInput]
              (t :: groups) rest =
    match stripPrefix (js " password=") rest with
    | Some pw =>
        if forallb isDot pw then Some (rev groups ++ [t; pw], []) else None
    | None => None
    end).
  { intros t rest. cbn [matchHere quantified].
    destruct (stripPrefix (js " password=") rest) as [pw|]; [|done].
    rewrite (greedy_to_end isDot (fun t2 => (rev (t2 :: t :: groups), []))).
    simpl. by rewrite <- app_assoc. }
  revert taken. induction s as [|c s IH]; intros taken.
  - cbn [lazy lazyUser]. rewrite Hk.
    destruct (stripPrefix (js " password=") []) as [pw|]; [|done].
    by destruct (forallb isDot pw).
  - cbn [lazy lazyUser]. rewrite Hk.
    destruct (stripPrefix (js " password=") (c :: s)) as [pw|].
    + destruct (forallb isDot pw); [done|].
      destruct (isDot c); [apply IH|done].
    + destruct (isDot c); [apply IH|done].
Qed.

Lemma matchHere_login s :
  matchHere LOGIN_PATTERN [] s = (fun '(u, p) => ([u; p], [])) <$> loginAt s.
Proof.
  unfold LOGIN_PATTERN, loginAt. cbn [matchHere quantified].
  destruct (stripPrefix (js "LOGIN username=") s) as [[|c s']|]; [done| |done].
  destruct (isDot c); [|done].
  by rewrite (lazy_lazyUser []).
Qed.

Lemma loginMatch_scan s : loginMatch s = scanLogin s.
Proof.
  unfold loginMatch. induction s as [|c s IH].
  - cbn [exec scanLogin]. rewrite matchHere_login.
    by destruct (loginAt []) as [[u p]|].
  - cbn [exec scanLogin]. rewrite matchHere_login.
    by destruct (loginAt (c :: s)) as [[u p]|].
Qed.

(** The CVE pattern. *)
Lemma matchHere_cve s :
  matchHere CVE_PATTERN [] s =
  s1 ← stripPrefix (js "CVE-") s;
  s2 ← digitsExactly 4 s1;
  s3 ← stripPrefix (js "-") s2;
  rest ← many1 isDigit s3;
  Some ([], rest).
Proof.
  unfold CVE_PATTERN.
  rewrite matchHere_literal. destruct (stripPrefix (js "CVE-") s) as [s1|]; [|done].
  cbn [mbind option_bind].
  rewrite matchHere_times. destruct (digitsExactly 4 s1) as [s2|]; [|done].
  cbn [mbind option_bind].
  rewrite matchHere_literal. destruct (stripPrefix (js "-") s2) as [s3|]; [|done].
  cbn [mbind option_bind].
  rewrite matchHere_plus_last. by destruct (many1 isDigit s3).
Qed.

Lemma cveAt_scan s :
  (fun '(groups, rest) => consumed s rest) <$> matchHere CVE_PATTERN [] s = cveAt s.
Proof.
  rewrite matchHere_cve. unfold cveAt, many1.
  destruct (stripPrefix (js "CVE-") s) as [s1|] eqn:H1; [|done].
  cbn [mbind option_bind].
  destruct (digitsExactly 4 s1) as [s2|] eqn:H2; [|done].
  cbn [mbind option_bind].
  destruct (stripPrefix (js "-") s2) as [s3|] eqn:H3; [|done].
  cbn [mbind option_bind].
  destruct (takeWhile isDigit s3) as [|d ds] eqn:H4; [done|].
  cbn. f_equal.
  apply stripPrefix_spec in H1 as ->.
  apply digitsExactly_spec in H2 as (year & -> & Hlen & _).
  apply stripPrefix_spec in H3 as ->.
  rewrite take_app_length' by done.
  rewrite <- (takeWhile_dropWhile isDigit s3) at 1. rewrite H4.
  rewrite <- (consumed_app (js "CVE-" ++ year ++ js "-" ++ d :: ds) (dropWhile isDigit s3)).
  f_equal. by rewrite <- !app_assoc.
Qed.

Lemma cveMatch_scan s : cveMatch s = scanCve s.
Proof.
  unfold cveMatch. induction s as [|c s IH].
  - cbn [exec scanCve]. rewrite <- cveAt_scan.
    by destruct (matchHere CVE_PATTERN [] []) as [[groups rest]|].
  - cbn [exec scanCve]. rewrite <- cveAt_scan.
    by destruct (matchHere CVE_PATTERN [] (c :: s)) as [[groups rest]|].
Qed.

(** The test of [listLogFiles] accepts exactly the names of the pattern. *)
Lemma isLogFileName_spec name : isLogFileName name = true <-> LogFilePattern name.
Proof.
  unfold isLogFileName, LOG_FILE_NAME, LogFilePattern.
  rewrite matchHere_dateShape.
  assert (Htail : forall tail,
    is_Some (matchHere [Class ZeroOrMore isDot; Literal (js ".log"); EndOfInput] [] tail)
    <-> exists anything, tail = anything ++ js ".log" /\ forallb isDot anything = true).
  { intros tail. cbn [matchHere quantified]. rewrite greedy_is_Some. split.
    - intros (run & rest & -> & Hrun & Hrest). exists run. split; [|done].
      destruct (stripPrefix (js ".log") rest) as [[|c r]|] eqn:E;
        [|by destruct Hrest..].
      apply stripPrefix_spec in E as ->. by rewrite app_nil_r.
    - intros (anything & -> & Hdots). exists anything, (js ".log"). done. }
  split.
  - destruct (dateShapeRest name) as [rest|] eqn:Hrest; [|done].
    apply dateShapeRest_spec in Hrest as (d & -> & Hd).
    cbn [mbind option_bind]. rewrite matchHere_literal.
    destruct (stripPrefix (js "_") rest) as [tail|] eqn:Htl; [|done].
    apply stripPrefix_spec in Htl as ->. cbn [mbind option_bind].
    destruct (matchHere _ [] tail) as [r|] eqn:Hm; [|done]. intros _.
    destruct (proj1 (Htail tail)) as (anything & -> & Hdots); [by rewrite Hm|].
    by exists d, anything.
  - intros (d & anything & -> & Hd & Hdots).
    assert (dateShapeRest (d ++ js "_" ++ anything ++ js ".log")
            = Some (js "_" ++ anything ++ js ".log")) as ->
      by (apply dateShapeRest_spec; eauto).
    cbn [mbind option_bind]. rewrite matchHere_literal.
    assert (stripPrefix (js "_") (js "_" ++ anything ++ js ".log")
            = Some (anything ++ js ".log")) as ->
      by by apply stripPrefix_spec.
    cbn [mbind option_bind].
    destruct (proj2 (Htail (anything ++ js ".log"))) as [r ->]; [eauto|done].
Qed.

(** ** The marker and the address prefix *)

Lemma includes_tail needle c s :
  includes needle s = true -> includes needle (c :: s) = true.
Proof. intros H. cbn [includes]. rewrite H. apply orb_true_r. Qed.

Lemma includes_spec needle s :
  includes needle s = true <-> exists a b, s = a ++ needle ++ b.
Proof.
  induction s as [|c s IH]; cbn [includes].
  - rewrite orb_false_r, startsWith_spec. split.
    + intros [r Hr]. by exists [], r.
    + intros (a & b & H). symmetry in H.
      apply app_eq_nil in H as [-> H]. exists b. done.
  - rewrite orb_true_iff, startsWith_spec, IH. split.
    + intros [[r Hr]|(a & b & ->)]; [by exists [], r|by exists (c :: a), b].
    + intros ([|c' a] & b & H); [left; by exists b|].
      injection H as -> ->. right. by exists a, b.
Qed.

(** Dropping code units that the needle does not start with keeps the
    needle. *)
Lemma includes_dropWhile p needle s :
  headOutside p needle -> needle <> [] ->
  includes needle (dropWhile p s) = includes needle s.
Proof.
  intros Hhead Hne. induction s as [|c s IH]; [done|].
  cbn [dropWhile]. destruct (p c) eqn:Hpc; [|done].
  rewrite IH. cbn [includes].
  destruct needle as [|n needle]; [done|]. cbn [startsWith]. simpl in Hhead.
  destruct (N.eqb_spec n c) as [->|]; [congruence|done].
Qed.

Lemma includes_rev needle s : includes (rev needle) (rev s) = includes needle s.
Proof.
  apply eq_true_iff_eq. rewrite !includes_spec. split.
  - intros (a & b & H). exists (rev b), (rev a).
    apply (f_equal (@rev N)) in H.
    rewrite rev_involutive, !rev_app_distr, rev_involutive in H.
    by rewrite <- app_assoc in H.
  - intros (a & b & ->). exists (rev b), (rev a).
    by rewrite !rev_app_distr, <- app_assoc.
Qed.

(** Trimming keeps a needle that starts and ends with a visible code
    unit. *)
Lemma includes_trim needle s :
  needle <> [] ->
  headOutside isWhiteSpace needle -> headOutside isWhiteSpace (rev needle) ->
  includes needle (trim s) = includes needle s.
Proof.
  intros Hne Hfirst Hlast. unfold trim, trimEnd, trimStart.
  rewrite <- includes_rev, rev_involutive.
  rewrite includes_dropWhile; [|done|by destruct needle using rev_ind; [|rewrite rev_app_distr]].
  rewrite includes_rev. by apply includes_dropWhile.
Qed.

Lemma marker_head c s :
  c <> 76%N -> includes LOGIN_MARKER (c :: s) = includes LOGIN_MARKER s.
Proof.
  intros Hc. cbn [includes].
  change LOGIN_MARKER with (76%N :: js "OGIN username=") at 1.
  cbn [startsWith]. by destruct (N.eqb_spec 76 c) as [<-|].
Qed.

Lemma marker_dropWhile p s :
  p 76%N = false -> includes LOGIN_MARKER (dropWhile p s) = includes LOGIN_MARKER s.
Proof. intros Hp. by apply includes_dropWhile. Qed.

Lemma marker_expect c s s' :
  c <> 76%N -> expect c s = Some s' -> includes LOGIN_MARKER s' = includes LOGIN_MARKER s.
Proof.
  intros Hc. destruct s as [|d s]; [done|]. cbn [expect].
  destruct (N.eqb_spec d c) as [->|]; [|done]. intros [= ->].
  by rewrite marker_head.
Qed.

Lemma marker_skipOne p s :
  p 76%N = false -> includes LOGIN_MARKER (skipOne p s) = includes LOGIN_MARKER s.
Proof.
  intros Hp. destruct s as [|c s]; [done|]. cbn [skipOne].
  destruct (p c) eqn:Hpc; [|done]. rewrite marker_head; [done|congruence].
Qed.

Lemma marker_many1 p s s' :
  p 76%N = false -> many1 p s = Some s' -> includes LOGIN_MARKER s' = includes LOGIN_MARKER s.
Proof.
  intros Hp. unfold many1. destruct (takeWhile p s); [done|].
  intros [= <-]. by apply marker_dropWhile.
Qed.

Lemma marker_addrPrefixRest s rest :
  addrPrefixRest s = Some rest -> includes LOGIN_MARKER rest = includes LOGIN_MARKER s.
Proof.
  unfold addrPrefixRest. intros H.
  apply bind_Some in H as (s1 & H1 & H).
  apply bind_Some in H as (s2 & H2 & H).
  apply bind_Some in H as (s3 & H3 & H).
  apply bind_Some in H as (s4 & H4 & H).
  apply bind_Some in H as (s5 & H5 & H).
  injection H as <-.
  rewrite marker_dropWhile by done.
  rewrite (marker_expect RPAREN _ _ ltac:(done) H5).
  rewrite (marker_many1 isDigit _ _ ltac:(done) H4).
  rewrite marker_dropWhile by done.
  rewrite (marker_expect COMMA _ _ ltac:(done) H3).
  rewrite marker_dropWhile, marker_skipOne by done.
  rewrite (marker_many1 isDigitOrDot _ _ ltac:(done) H2).
  rewrite marker_skipOne, marker_dropWhile by done.
  rewrite (marker_expect LPAREN _ _ ltac:(done) H1).
  by rewrite marker_dropWhile.
Qed.

Lemma marker_trim s : includes LOGIN_MARKER (trim s) = includes LOGIN_MARKER s.
Proof. by apply includes_trim. Qed.

Lemma marker_stripAddrPrefix s :
  includes LOGIN_MARKER (stripAddrPrefix s) = includes LOGIN_MARKER s.
Proof.
  rewrite stripAddrPrefix_scan. destruct s as [|c t]; [done|].
  rewrite marker_trim.
  destruct (addrPrefixRest (c :: t)) as [rest|] eqn:Hrest; cbn [default]; [|done].
  by apply marker_addrPrefixRest.
Qed.

(** The marker is in the message the grammar classifies exactly when it is
    in fields three and up of the line: neither trimming nor the removal
    of the address prefix can take it away or bring it in. *)
Lemma marker_in_message line :
  includes (js "LOGIN username=") (messageOf line) =
  includes (js "LOGIN username=") (join [PIPE] (drop 3 (split PIPE line))).
Proof.
  fold LOGIN_MARKER. unfold messageOf.
  by rewrite marker_stripAddrPrefix, marker_trim.
Qed.

(** * The shapes the patterns find *)

(** ** CVE identifiers *)

Lemma headOutside_dropWhile p s : headOutside p (dropWhile p s).
Proof.
  induction s as [|c s IH]; simpl; [done|].
  destruct (p c) eqn:Hc; [done|]. by simpl.
Qed.

Lemma takeWhile_upto p run t :
  forallb p run = true -> headOutside p t -> takeWhile p (run ++ t) = run.
Proof.
  intros Hrun Ht. rewrite takeWhile_run by done.
  destruct t as [|c t]; simpl in *; [by rewrite app_nil_r|].
  by rewrite Ht, app_nil_r.
Qed.

Lemma take_app_exact {A} (l k : list A) n : length l = n -> take n (l ++ k) = l.
Proof. intros <-. by rewrite take_app_length. Qed.

(** [cveAt] finds the identifier at the start of [s], with every digit
    that follows. *)
Lemma cveAt_spec s id :
  cveAt s = Some id <->
  exists after, s = id ++ after /\ CveId id /\ headOutside isDigit after.
Proof.
  unfold cveAt. split.
  - intros H.
    apply bind_Some in H as (s1 & H1 & H).
    apply bind_Some in H as (s2 & H2 & H).
    apply bind_Some in H as (s3 & H3 & H).
    apply stripPrefix_spec in H1 as ->.
    apply digitsExactly_spec in H2 as (year & -> & Hlen & Hyear).
    apply stripPrefix_spec in H3 as ->.
    destruct (takeWhile isDigit s3) as [|d ds] eqn:Hds; [done|].
    apply (inj Some) in H. subst id. exists (dropWhile isDigit s3).
    rewrite take_app_exact by done. split; [|split].
    + rewrite <- (takeWhile_dropWhile isDigit s3) at 1. rewrite Hds.
      by rewrite <- !app_assoc.
    + exists year, (d :: ds). repeat split; try done.
      rewrite <- Hds. apply takeWhile_forallb.
    + apply headOutside_dropWhile.
  - intros (after & -> & (year & num & -> & Hlen & Hyear & Hnum & Hdigits) & Hafter).
    rewrite <- !app_assoc.
    rewrite (proj2 (stripPrefix_spec (js "CVE-") _ _) eq_refl).
    cbn [mbind option_bind].
    rewrite (proj2 (digitsExactly_spec 4 _ (js "-" ++ num ++ after))) by eauto.
    cbn [mbind option_bind].
    rewrite (proj2 (stripPrefix_spec (js "-") _ _) eq_refl).
    cbn [mbind option_bind].
    rewrite take_app_exact by done.
    rewrite takeWhile_upto by done.
    by destruct num.
Qed.

(** Where [cveAt] finds nothing, no identifier starts. *)
Lemma cveAt_none s id after : cveAt s = None -> s = id ++ after -> ~ CveId id.
Proof.
  intros Hnone -> (year & num & -> & Hlen & Hyear & Hnum & Hdigits).
  assert (exists m, cveAt ((js "CVE-" ++ year ++ js "-" ++ num) ++ after) = Some m)
    as [m Hm]; [|congruence].
  exists (js "CVE-" ++ year ++ js "-" ++ (num ++ takeWhile isDigit after)).
  apply cveAt_spec. exists (dropWhile isDigit after). split; [|split].
  - rewrite <- !app_assoc. do 3 f_equal. by rewrite takeWhile_dropWhile.
  - exists year, (num ++ takeWhile isDigit after). repeat split; try done.
    + by destruct num.
    + by rewrite forallb_app, Hdigits, takeWhile_forallb.
  - apply headOutside_dropWhile.
Qed.

(** [scanCve] finds the first identifier. *)
Lemma scanCve_first s id : scanCve s = Some id <-> FirstCve s id.
Proof.
  split.
  - induction s as [|c s IH]; cbn [scanCve].
    + destruct (cveAt []) as [m|] eqn:Hat; [|done]. intros [= ->].
      apply cveAt_spec in Hat as (after & Hs & Hid & Hafter).
      exists [], after. repeat split; try done. intros; simpl; lia.
    + destruct (cveAt (c :: s)) as [m|] eqn:Hat.
      * intros [= ->].
        apply cveAt_spec in Hat as (after & Hs & Hid & Hafter).
        exists [], after. repeat split; try done. intros; simpl; lia.
      * intros (before & after & -> & Hid & Hafter & Hleft)%IH.
        exists (c :: before), after. repeat split; try done.
        intros [|c' before'] id' after' Heq Hid'.
        { exfalso. by eapply (cveAt_none _ id' after' Hat). }
        injection Heq as -> Heq. simpl.
        specialize (Hleft _ _ _ Heq Hid'). lia.
  - intros (before & after & -> & Hid & Hafter & Hleft).
    induction before as [|c before IH].
    + simpl. assert (cveAt (id ++ after) = Some id) as Hat.
      { apply cveAt_spec. by exists after. }
      destruct id as [|i id]; [by destruct Hid as (? & ? & ? & _)|].
      cbn [scanCve app] in *. by rewrite Hat.
    + cbn [app scanCve].
      destruct (cveAt (c :: before ++ id ++ after)) as [m|] eqn:Hat.
      * exfalso. apply cveAt_spec in Hat as (after' & Heq & Hid' & _).
        specialize (Hleft [] m after' Heq Hid'). simpl in Hleft. lia.
      * apply IH. intros before' id' after' Heq Hid'.
        specialize (Hleft (c :: before') id' after'). simpl in Hleft.
        rewrite Heq in Hleft. specialize (Hleft eq_refl Hid'). lia.
Qed.

(** [scanCve] finds nothing exactly when the text has no identifier. *)
Lemma scanCve_none s :
  scanCve s = None <-> forall id, CveId id -> ~ Contains id s.
Proof.
  split.
  - intros Hnone id Hid (before & after & ->).
    revert Hnone. induction before as [|c before IH].
    + simpl. destruct (id ++ after) as [|c t] eqn:Heq; cbn [scanCve].
      * destruct (cveAt []) eqn:Hat; [done|]. intros _.
        by eapply (cveAt_none [] id after Hat).
      * destruct (cveAt (c :: t)) eqn:Hat; [done|]. intros _.
        by eapply (cveAt_none (c :: t) id after Hat).
    + cbn [app scanCve].
      by destruct (cveAt (c :: before ++ id ++ after)).
  - intros Hno. destruct (scanCve s) as [id|] eqn:Hscan; [exfalso|done].
    apply scanCve_first in Hscan as (before & after & -> & Hid & _).
    apply (Hno id Hid). by exists before, after.
Qed.

(** ** The classification *)

Lemma Contains_includes needle s : Contains needle s <-> includes needle s = true.
Proof. symmetry. apply includes_spec. Qed.

Lemma not_Contains_includes needle s :
  ~ Contains needle s <-> includes needle s = false.
Proof. rewrite Contains_includes. by destruct (includes needle s). Qed.

Lemma not_startsWith p s :
  (forall rest, s <> p ++ rest) <-> startsWith p s = false.
Proof.
  destruct (startsWith p s) eqn:Hs.
  - apply startsWith_spec in Hs as [r ->]. split; [|done].
    intros H. by destruct (H r).
  - split; [done|]. intros _ rest ->.
    assert (startsWith p (p ++ rest) = true) by (apply startsWith_spec; eauto).
    congruence.
Qed.

(** What the grammar computes is the classification of the
    specification. *)
Lemma classifyByPriority_Classified message :
  Classified message (classifyByPriority message).
Proof.
  unfold classifyByPriority.
  destruct (includes (js "LOGIN username=") message) eqn:Hlogin.
  { apply Classified_login. by apply Contains_includes. }
  pose proof (proj2 (not_Contains_includes _ _) Hlogin) as Hlogin'.
  destruct (startsWith (js "GET ") message) eqn:Hget.
  { apply startsWith_spec in Hget as [r ->].
    change (drop 4 (js "GET " ++ r)) with r.
    pose proof (takeWhile_forallb notSpace r) as Hpath.
    pose proof (takeWhile_dropWhile notSpace r) as Hsplit.
    destruct (takeWhile notSpace r) as [|c path] eqn:Htw.
    - change (js "GET /") with (js "GET " ++ js "/").
      apply (Classified_get _ [] (dropWhile notSpace r)); try done.
      + by rewrite <- Hsplit at 1.
      + apply headOutside_dropWhile.
    - apply (Classified_get _ (c :: path) (dropWhile notSpace r)); try done.
      + by rewrite Hsplit.
      + apply headOutside_dropWhile. }
  pose proof (proj2 (not_startsWith _ _) Hget) as Hget'.
  rewrite cveMatch_scan.
  destruct (scanCve message) as [id|] eqn:Hcve.
  { apply Classified_cve; [done|done|]. by apply scanCve_first. }
  destruct message as [|c message].
  { by apply Classified_other. }
  apply Classified_literal; [done|done| |done]. by apply scanCve_none.
Qed.



(** ** Logins *)

Lemma lazyUser_sound user s u pw :
  lazyUser user s = Some (u, pw) ->
  exists more, u = rev user ++ more /\ Credential s more pw.
Proof.
  revert user. induction s as [|c s IH]; intros user; cbn [lazyUser].
  - destruct (stripPrefix (js " password=") []) as [pw'|] eqn:Hp; [|done].
    destruct (forallb isDot pw') eqn:Hpw; [|done]. intros [= <- <-].
    apply stripPrefix_spec in Hp. exists []. by rewrite app_nil_r.
  - assert (Hmore :
      (if isDot c then lazyUser (c :: user) s else None) = Some (u, pw) ->
      exists more, u = rev user ++ more /\ Credential (c :: s) more pw).
    { destruct (isDot c) eqn:Hc; [|done].
      intros (more & -> & -> & Hmore & Hpw)%IH.
      exists (c :: more). split; [simpl; by rewrite <- app_assoc|].
      split; [done|]. split; [|done]. simpl. by rewrite Hc. }
    destruct (stripPrefix (js " password=") (c :: s)) as [pw'|] eqn:Hp; [|done].
    destruct (forallb isDot pw') eqn:Hpw; [|done]. intros [= <- <-].
    apply stripPrefix_spec in Hp. exists []. by rewrite app_nil_r.
Qed.

Lemma lazyUser_unfold user s :
  lazyUser user s =
  match stripPrefix (js " password=") s with
  | Some pw =>
      if forallb isDot pw then Some (rev user, pw)
      else match s with
           | c :: s' => if isDot c then lazyUser (c :: user) s' else None
           | [] => None
           end
  | None =>
      match s with
      | c :: s' => if isDot c then lazyUser (c :: user) s' else None
      | [] => None
      end
  end.
Proof. by destruct s. Qed.

Lemma lazyUser_shortest user s more pw :
  Credential s more pw ->
  (forall more' pw', Credential s more' pw' -> length more <= length more') ->
  lazyUser user s = Some (rev user ++ more, pw).
Proof.
  revert user s. induction more as [|c more IH]; intros user s (-> & Hmore & Hpw) Hmin.
  - rewrite lazyUser_unfold, app_nil_l.
    rewrite (proj2 (stripPrefix_spec (js " password=") _ pw) eq_refl), Hpw.
    by rewrite app_nil_r.
  - apply andb_true_iff in Hmore as [Hc Hmore].
    assert (lazyUser (c :: user) (more ++ js " password=" ++ pw)
            = Some (rev user ++ c :: more, pw)) as Hrec.
    { rewrite (IH (c :: user) (more ++ js " password=" ++ pw)).
      - cbn [rev]. by rewrite <- app_assoc.
      - done.
      - intros more' pw' (Heq & Hmore' & Hpw').
        cut (length (c :: more) <= length (c :: more')); [simpl; lia|].
        apply (Hmin (c :: more') pw'). split; [|split; [|done]].
        + cbn [app]. by rewrite Heq.
        + cbn [forallb]. by rewrite Hc. }
    rewrite lazyUser_unfold. cbn [app]. rewrite Hc, Hrec.
    destruct (stripPrefix (js " password=") (c :: more ++ js " password=" ++ pw))
      as [pw'|] eqn:Hp; [|done].
    destruct (forallb isDot pw') eqn:Hpw'; [|done].
    exfalso. apply stripPrefix_spec in Hp.
    assert (length (c :: more) <= length (@nil N)); [|simpl in *; lia].
    apply (Hmin [] pw'). by split.
Qed.

Lemma lazyUser_none user s more pw :
  lazyUser user s = None -> ~ Credential s more pw.
Proof.
  revert user s. induction more as [|c more IH]; intros user s Hnone (-> & Hmore & Hpw).
  - rewrite lazyUser_unfold, app_nil_l in Hnone.
    by rewrite (proj2 (stripPrefix_spec (js " password=") _ pw) eq_refl), Hpw in Hnone.
  - apply andb_true_iff in Hmore as [Hc Hmore].
    rewrite lazyUser_unfold in Hnone. cbn [app] in Hnone. rewrite Hc in Hnone.
    assert (lazyUser (c :: user) (more ++ js " password=" ++ pw) = None) as Hrec.
    { destruct (stripPrefix (js " password=") (c :: more ++ js " password=" ++ pw))
        as [pw'|]; [destruct (forallb isDot pw')|]; done. }
    by apply (IH _ _ Hrec).
Qed.

Lemma lazyUser_least user s u pw more' pw' :
  lazyUser user s = Some (u, pw) -> Credential s more' pw' ->
  length u <= length user + length more'.
Proof.
  revert user more'. induction s as [|c s IH]; intros user more';
    rewrite lazyUser_unfold.
  - destruct (stripPrefix (js " password=") []) as [p|]; [|done].
    destruct (forallb isDot p); [|done]. intros [= <- <-] _.
    rewrite length_rev. lia.
  - intros Hrun (Heq & Hmore' & Hpw').
    destruct more' as [|c' more'].
    + rewrite app_nil_l in Heq. rewrite Heq in Hrun.
      rewrite (proj2 (stripPrefix_spec (js " password=") _ pw') eq_refl), Hpw' in Hrun.
      injection Hrun as <- <-. rewrite length_rev. lia.
    + injection Heq as <- Heq.
      apply andb_true_iff in Hmore' as [Hc Hmore'].
      assert (lazyUser (c :: user) s = Some (u, pw) \/ length u <= length user) as [Hrec|Hdone].
      { destruct (stripPrefix (js " password=") (c :: s)) as [p|].
        - destruct (forallb isDot p).
          + right. injection Hrun as <- <-. by rewrite length_rev.
          + left. by rewrite Hc in Hrun.
        - left. by rewrite Hc in Hrun. }
      * specialize (IH (c :: user) more' Hrec). simpl in *.
        assert (Credential s more' pw') by done. specialize (IH H). lia.
      * simpl. lia.
Qed.

(** [loginAt] finds the login at the start of [s], with the shortest
    user. *)
Lemma loginAt_spec s user pw :
  loginAt s = Some (user, pw) <->
  LoginAt s user pw /\
  forall user' pw', LoginAt s user' pw' -> length user <= length user'.
Proof.
  unfold loginAt, LoginAt. split.
  - destruct (stripPrefix (js "LOGIN username=") s) as [[|c r]|] eqn:Hs; try done.
    apply stripPrefix_spec in Hs as ->.
    destruct (isDot c) eqn:Hc; [|done]. intros Hrun.
    pose proof (lazyUser_sound _ _ _ _ Hrun) as (more & -> & -> & Hmore & Hpw).
    split.
    + repeat split; try done. simpl. by rewrite Hc.
    + intros user' pw' (Heq & Hne & Huser' & Hpw').
      apply app_inv_head in Heq.
      destruct user' as [|c' user']; [done|]. injection Heq as <- Heq.
      apply andb_true_iff in Huser' as [_ Huser'].
      pose proof (lazyUser_least _ _ _ _ user' pw' Hrun) as Hle.
      simpl in *. apply Hle. by split.
  - intros [(-> & Hne & Huser & Hpw) Hmin].
    rewrite (proj2 (stripPrefix_spec (js "LOGIN username=") _ _) eq_refl).
    destruct user as [|c user]; [done|]. cbn [app].
    apply andb_true_iff in Huser as [Hc Huser]. rewrite Hc.
    rewrite (lazyUser_shortest [c] _ user pw); [done|by split|].
    intros more' pw' (Heq & Hmore' & Hpw').
    cut (length (c :: user) <= length (c :: more')); [simpl; lia|].
    apply (Hmin (c :: more') pw'). repeat split; try done.
    + cbn [app]. by rewrite Heq.
    + cbn [forallb]. by rewrite Hc.
Qed.

Lemma loginAt_none s user pw : loginAt s = None -> ~ LoginAt s user pw.
Proof.
  unfold loginAt. intros Hnone (-> & Hne & Huser & Hpw).
  rewrite (proj2 (stripPrefix_spec (js "LOGIN username=") _ _) eq_refl) in Hnone.
  destruct user as [|c user]; [done|]. cbn [app] in Hnone.
  apply andb_true_iff in Huser as [Hc Huser]. rewrite Hc in Hnone.
  by apply (lazyUser_none _ _ user pw Hnone).
Qed.

(** The login pattern finds the first login of the message, with the
    shortest user. *)
Lemma scanLogin_first message user pw :
  scanLogin message = Some (user, pw) <-> FirstLogin message user pw.
Proof.
  split.
  - induction message as [|c s IH]; cbn [scanLogin].
    + destruct (loginAt []) as [m|] eqn:Hat; [|done]. intros [= ->].
      apply loginAt_spec in Hat as [Hat Hmin].
      exists [], []. split; [done|]. split; [done|]. split; [done|].
      intros; simpl; lia.
    + destruct (loginAt (c :: s)) as [m|] eqn:Hat.
      * intros [= ->]. apply loginAt_spec in Hat as [Hat Hmin].
        exists [], (c :: s). split; [done|]. split; [done|]. split; [done|].
        intros; simpl; lia.
      * intros (before & rest & -> & Hlogin & Hmin & Hleft)%IH.
        exists (c :: before), rest. split; [done|]. split; [done|]. split; [done|].
        intros [|c' before'] rest' user' pw' Heq Hlogin'.
        { exfalso. simpl in Heq. subst rest'.
          by apply (loginAt_none _ user' pw' Hat). }
        injection Heq as -> Heq. simpl.
        specialize (Hleft _ _ _ _ Heq Hlogin'). lia.
  - intros (before & rest & -> & Hlogin & Hmin & Hleft).
    assert (loginAt rest = Some (user, pw)) as Hat by (by apply loginAt_spec).
    induction before as [|c before IH].
    + simpl. destruct rest; cbn [scanLogin]; by rewrite Hat.
    + cbn [app scanLogin].
      destruct (loginAt (c :: before ++ rest)) as [[u' p']|] eqn:Hat'.
      * exfalso. apply loginAt_spec in Hat' as [Hlogin' _].
        specialize (Hleft [] _ u' p' eq_refl Hlogin'). simpl in Hleft. lia.
      * apply IH. intros before' rest' user' pw' Heq Hlogin'.
        specialize (Hleft (c :: before') rest' user' pw'). simpl in Hleft.
        rewrite Heq in Hleft. specialize (Hleft eq_refl Hlogin'). lia.
Qed.

Lemma scanLogin_none message : scanLogin message = None <-> NoLogin message.
Proof.
  unfold NoLogin. split.
  - intros Hnone before rest user pw ->. revert Hnone.
    induction before as [|c before IH].
    + simpl. destruct rest as [|c t]; cbn [scanLogin].
      * destruct (loginAt []) eqn:Hat; [done|]. intros _.
        by apply loginAt_none.
      * destruct (loginAt (c :: t)) eqn:Hat; [done|]. intros _.
        by apply loginAt_none.
    + cbn [app scanLogin]. by destruct (loginAt (c :: before ++ rest)).
  - intros Hno. destruct (scanLogin message) as [[u p]|] eqn:Hscan; [exfalso|done].
    apply scanLogin_first in Hscan as (before & rest & -> & Hlogin & _).
    by apply (Hno before rest u p).
Qed.

(** ** The fortipot grammar: which lines are events *)

Lemma fortipot_fields line :
  fortipot line = None <-> length (split PIPE line) < 4.
Proof.
  unfold fortipot.
  destruct (split PIPE line) as [|p0 [|p1 [|p2 [|p3 rest]]]]; simpl;
    try (split; [lia|done]).
  destruct_classification.
  split; [done|lia].
Qed.

Lemma fortipot_date line e : fortipot line = Some e -> date e = dateMatch (ts e).
Proof.
  unfold fortipot.
  destruct (split PIPE line) as [|p0 [|p1 [|p2 [|p3 rest]]]]; try done.
  destruct_classification.
  by intros [= <-].
Qed.

Lemma parseLine_fortipot line :
  parseLine line = match trim line with [] => None | _ => fortipot (trim line) end.
Proof. unfold parseLine. by destruct (trim line). Qed.

Lemma parseLine_none_iff line :
  parseLine line = None <->
  trim line = [] \/ length (split PIPE (trim line)) < 4.
Proof.
  rewrite parseLine_fortipot. destruct (trim line) as [|c t] eqn:Ht.
  - split; [by left|done].
  - rewrite fortipot_fields. split; [by right|]. by intros [|].
Qed.

Lemma parseLoop_grammar g lines acc :
  parseLoop (Grammar g) lines acc =
  Normal (acc ++ (EventEntry <$>
            omap (fun line => match trim line with [] => None | t => g t end) lines)).
Proof.
  revert acc. induction lines as [|line lines IH]; intros acc; simpl.
  - by rewrite app_nil_r.
  - destruct (trim line) as [|c t]; [apply IH|].
    destruct (g (c :: t)) as [e|]; simpl; [|apply IH].
    rewrite IH. by rewrite <- app_assoc.
Qed.

Lemma selectParser_fortipot : selectParser (js "fortipot") = Grammar fortipot.
Proof. unfold selectParser, LOG_PARSERS. by rewrite lookup_insert_eq. Qed.

Lemma parseLogLines_fortipot text :
  parseLogLines text (js "fortipot") =
  Normal (EventEntry <$> omap parseLine (splitLines text)).
Proof.
  unfold parseLogLines. rewrite selectParser_fortipot, parseLoop_grammar. done.
Qed.

(** C2. The fortipot parse of a line is NONE exactly when the trimmed line
    is empty or has fewer than four pipe-separated fields: a line of four
    or more fields always gives an event, whose date is the date-shaped
    start of the timestamp and is simply unset when the timestamp has
    none; a line of fewer than four fields gives none; and
    [parseLogLines] hands no empty line to a grammar: its result is the
    same for two grammars that differ on the empty line only. *)
Theorem fortipot_parse_none_iff :
  (forall line,
      parseLine line = None <->
      trim line = [] \/ length (split PIPE (trim line)) < 4) /\
  (forall line,
      4 <= length (split PIPE line) ->
      exists e,
        parseLine line = Some e /\
        forall d, date e = Some d <-> DateShaped d /\ exists rest, ts e = d ++ rest) /\
  (forall line, length (split PIPE line) < 4 -> parseLine line = None) /\
  (forall text,
      parseLogLines text (js "fortipot") =
      Normal (EventEntry <$> omap parseLine (splitLines text))) /\
  (forall g g' lines acc,
      (forall s, s <> [] -> g s = g' s) ->
      parseLoop (Grammar g) lines acc = parseLoop (Grammar g') lines acc).
Proof.
  split; [exact parseLine_none_iff|].
  split.
  { intros line Hlen.
    destruct (parseLine line) as [e|] eqn:He.
    - exists e. split; [done|]. intros d.
      rewrite parseLine_fortipot in He. destruct (trim line); [done|].
      rewrite (fortipot_date _ _ He). apply dateMatch_spec.
    - apply parseLine_none_iff in He as [He|He].
      + rewrite <- split_trim_length, He in Hlen. simpl in Hlen. lia.
      + rewrite split_trim_length in He. lia. }
  split.
  { intros line Hlen. apply parseLine_none_iff. right.
    by rewrite split_trim_length. }
  split; [exact parseLogLines_fortipot|].
  intros g g' lines acc Hgg'. rewrite !parseLoop_grammar. do 3 f_equal.
  induction lines as [|line lines IH]; csimpl; [done|].
  rewrite IH. destruct (trim line) as [|c t]; [done|].
  by rewrite Hgg'.
Qed.

Lemma fortipot_parse_none_iff_witness :
  exists e,
    parseLine (js "bad-stamp|INFO|1.2.3.4|hello") = Some e /\
    forall d, date e = Some d <-> DateShaped d /\ exists rest, ts e = d ++ rest.
Proof.
  apply (proj1 (proj2 fortipot_parse_none_iff)). vm_compute. lia.
Defined.

Example fortipot_no_date_example :
  date <$> parseLine (js "bad-stamp|INFO|1.2.3.4|hello") = Some None.
Proof. vm_compute. reflexivity. Qed.

(** ** The address prefix *)











(** ** Classification of the message *)

Lemma cveAt_nonempty s m : cveAt s = Some m -> m <> [].
Proof.
  unfold cveAt. intros H.
  apply bind_Some in H as (s1 & _ & H).
  apply bind_Some in H as (s2 & _ & H).
  apply bind_Some in H as (s3 & _ & H).
  destruct (takeWhile isDigit s3); [done|]. by injection H as <-.
Qed.

Lemma cveMatch_nonempty s m : cveMatch s = Some m -> m <> [].
Proof.
  rewrite cveMatch_scan.
  induction s as [|c s IH]; [done|]. cbn [scanCve].
  destruct (cveAt (c :: s)) eqn:E; [|done]. intros [= <-]. by eapply cveAt_nonempty.
Qed.

Lemma fortipot_eventType line :
  4 <= length (split PIPE line) ->
  exists e, fortipot line = Some e /\
            eventType e = classifyByPriority (messageOf line).
Proof.
  unfold fortipot, messageOf, classifyByPriority.
  destruct (split PIPE line) as [|p0 [|p1 [|p2 [|p3 rest]]]];
    cbn [length drop]; try lia.
  intros _.
  set (message := stripAddrPrefix (trim (join [PIPE] (p3 :: rest)))).
  destruct (includes (js "LOGIN username=") message).
  { destruct (loginMatch message) as [[u p]|]; eexists; split; reflexivity. }
  destruct (startsWith (js "GET ") message).
  { eexists; split; [reflexivity|]. cbn [eventType].
    destruct (takeWhile notSpace (drop 4 message)); reflexivity. }
  destruct (cveMatch message) as [m|] eqn:Hcve.
  { eexists; split; [reflexivity|]. cbn [eventType].
    apply cveMatch_nonempty in Hcve. by destruct m. }
  eexists; split; [reflexivity|]. cbn [eventType]. by destruct message.
Qed.

Lemma dropWhile_app p s t :
  dropWhile p (s ++ t) =
  if forallb p s then dropWhile p t else dropWhile p s ++ t.
Proof.
  induction s as [|c s IH]; simpl; [done|].
  destruct (p c); simpl; [apply IH|done].
Qed.

Lemma forallb_dropWhile_nil p s : forallb p s = true -> dropWhile p s = [].
Proof.
  intros H. rewrite <- (app_nil_r s). by rewrite dropWhile_run.
Qed.






(** The examples of the specification. *)
Example fortipot_login_example :
  fortipot (js "2026-02-18T00:00:00|INFO|1.2.3.4|LOGIN username=admin password=1234")
  = Some {| date := Some (js "2026-02-18"); ip := js "1.2.3.4";
            eventType := js "LOGIN"; ts := js "2026-02-18T00:00:00";
            loginUsername := Some (js "admin");
            loginPassword := Some (js "1234") |}.
Proof. vm_compute. reflexivity. Qed.

Example fortipot_get_example :
  eventType <$> fortipot (js "2026-02-18T00:00:00|INFO|1.2.3.4|GET /api/v1/users HTTP/1.1")
  = Some (js "GET /api/v1/users").
Proof. vm_compute. reflexivity. Qed.

Example fortipot_cve_example :
  eventType <$> fortipot (js "2026-02-18T00:00:00|INFO|1.2.3.4|exploit attempt CVE-2023-1234 detected")
  = Some (js "CVE-2023-1234").
Proof. vm_compute. reflexivity. Qed.

Example fortipot_prefix_example :
  eventType <$> fortipot (js "2026-02-18T00:00:00|INFO|1.2.3.4|('5.6.7.8', 443) GET /x")
  = Some (js "GET /x").
Proof. vm_compute. reflexivity. Qed.

Example fortipot_two_prefixes_example :
  eventType <$> fortipot (js "2026-02-18T00:00:00|INFO|1.2.3.4|(1.1.1.1, 1) (2.2.2.2, 2) GET /x")
  = Some (js "(2.2.2.2, 2) GET /x").
Proof. vm_compute. reflexivity. Qed.

Example fortipot_get_over_cve_example :
  eventType <$> fortipot (js "2026-02-18T00:00:00|INFO|1.2.3.4|GET /CVE-2023-1234/probe HTTP/1.1")
  = Some (js "GET /CVE-2023-1234/probe").
Proof. vm_compute. reflexivity. Qed.

(** ** The tallies *)

(** The loop keeps its four accumulators apart. *)
Lemma aggregate_loop es acc :
  fold_left aggregateStep es acc =
  {| byDate := fold_left bump (omap dateKey es) (byDate acc);
     byIp := fold_left bump (omap ipKey es) (byIp acc);
     byEvent := fold_left bump (eventKey <$> es) (byEvent acc);
     total := total acc;
     loginAttempts :=
       loginAttempts acc ++ (attemptRow <$> filter (fun e => hasCredential e = true) es) |}.
Proof.
  revert acc. induction es as [|e es IH]; intros acc.
  - destruct acc. simpl. by rewrite app_nil_r.
  - cbn [fold_left]. rewrite IH. unfold aggregateStep at 1 2 3 4 5.
    cbn [byDate byIp byEvent total loginAttempts].
    f_equal.
    + unfold dateKey. csimpl. by destruct (truthyDate (date e)).
    + unfold ipKey. csimpl. by destruct (ip e).
    + rewrite filter_cons. fold (hasCredential e).
      destruct (hasCredential e) eqn:Hc.
      * rewrite decide_True by done. csimpl. by rewrite <- app_assoc.
      * rewrite decide_False by (by intros ?). done.
Qed.

Lemma bump_other o k k' : k <> k' -> bump o k' !! k = o !! k.
Proof.
  intros Hne. unfold bump, setProp. case_bool_decide; [done|].
  by rewrite lookup_insert_ne.
Qed.

Lemma inheritedKey_proto k : inheritedKey k = false -> k <> protoAccessor.
Proof.
  unfold inheritedKey. intros H ->. by rewrite (bool_decide_true (protoAccessor = protoAccessor)), orb_true_r in H.
Qed.

Lemma bump_counted o k n :
  inheritedKey k = false -> o !! k = counted n -> bump o k !! k = counted (S n).
Proof.
  intros Hk Ho. unfold bump, setProp, getProp.
  rewrite bool_decide_false by by apply inheritedKey_proto.
  rewrite lookup_insert_eq, Ho, Hk.
  destruct n as [|n]; simpl; [done|]. do 2 f_equal. lia.
Qed.

(** Under a key that [Object.prototype] does not have, a tally holds the
    number of times the key was counted. *)
Lemma tally_counted keys o k n :
  inheritedKey k = false -> o !! k = counted n ->
  fold_left bump keys o !! k = counted (n + timesIn k keys).
Proof.
  intros Hk. revert o n. induction keys as [|k' keys IH]; intros o n Ho.
  - simpl. by rewrite Nat.add_0_r.
  - cbn [fold_left]. unfold timesIn. rewrite filter_cons.
    destruct (decide (k' = k)) as [->|Hne].
    + rewrite (IH _ (S n)) by by apply bump_counted.
      f_equal. simpl. unfold timesIn. lia.
    + rewrite (IH _ n) by (by rewrite bump_other).
      done.
Qed.

(** *** Sums of a tally *)

Lemma addValue_comm j1 j2 z1 z2 y :
  addValue j1 z1 (addValue j2 z2 y) = addValue j2 z2 (addValue j1 z1 y).
Proof.
  destruct z1, z2, y; simpl; try done. apply (f_equal Some). lia.
Qed.

Lemma sumValues_insert o k v :
  o !! k = None -> sumValues (<[k := v]> o) = addValue k v (sumValues o).
Proof.
  intros Hk. unfold sumValues.
  apply map_fold_insert_L; [|done]. intros j1 j2 z1 z2 y _ _ _. apply (addValue_comm j1 j2).
Qed.

Lemma sumValues_delete o k v :
  o !! k = Some v -> sumValues o = addValue k v (sumValues (delete k o)).
Proof.
  intros Hk. unfold sumValues.
  apply map_fold_delete_L; [|done]. intros j1 j2 z1 z2 y _ _ _. apply (addValue_comm j1 j2).
Qed.

(** Counting under a key that is not inherited adds one to the sum. *)
Lemma bump_sum o k s :
  inheritedKey k = false -> sumValues o = Some s ->
  sumValues (bump o k) = Some (S s).
Proof.
  intros Hk Hs. unfold bump, setProp, getProp.
  rewrite bool_decide_false by by apply inheritedKey_proto.
  destruct (o !! k) as [v|] eqn:Ho.
  - rewrite (sumValues_delete _ _ _ Ho) in Hs.
    destruct v as [n|str]; [|done].
    destruct (sumValues (delete k o)) as [t|] eqn:Ht; [|done].
    simpl in Hs. injection Hs as <-.
    rewrite <- insert_delete_eq.
    rewrite sumValues_insert by apply lookup_delete_eq.
    rewrite Ht. simpl. apply (f_equal Some). lia.
  - rewrite Hk. rewrite sumValues_insert by done. by rewrite Hs.
Qed.

Lemma tally_sum keys o s :
  Forall (fun k => inheritedKey k = false) keys ->
  sumValues o = Some s ->
  sumValues (fold_left bump keys o) = Some (s + length keys).
Proof.
  intros Hkeys. revert o s.
  induction Hkeys as [|k keys Hk Hkeys IH]; intros o s Hs; simpl.
  - by rewrite Nat.add_0_r.
  - rewrite (IH _ (S s)) by by apply bump_sum. apply (f_equal Some). lia.
Qed.

Lemma aggregate_fields es :
  byDate (aggregate es) = fold_left bump (omap dateKey es) ∅ /\
  byIp (aggregate es) = fold_left bump (omap ipKey es) ∅ /\
  byEvent (aggregate es) = fold_left bump (eventKey <$> es) ∅ /\
  total (aggregate es) = length es /\
  loginAttempts (aggregate es) =
    attemptRow <$> filter (fun e => hasCredential e = true) es.
Proof. unfold aggregate. rewrite aggregate_loop. done. Qed.

Lemma length_omap_le {A B} (f : A -> option B) (l : list A) :
  length (omap f l) <= length l.
Proof.
  induction l as [|x l IH]; csimpl; [done|]. destruct (f x); simpl; lia.
Qed.

Lemma length_omap_lt {A B} (f : A -> option B) (l : list A) x :
  x ∈ l -> f x = None -> length (omap f l) < length l.
Proof.
  induction 1 as [x l|x y l Hin IH]; intros Hx; csimpl.
  - rewrite Hx. pose proof (length_omap_le f l). lia.
  - specialize (IH Hx). destruct (f y); simpl; lia.
Qed.

(** The sum property on sequences whose event types and addresses are not
    names that [Object.prototype] has: the by-type sum is the number of
    events, the by-address sum is at most that, and strictly less when
    some event has an empty address. *)
Lemma aggregate_sums_own_keys es :
  Forall (fun e => inheritedKey (eventKey e) = false /\ inheritedKey (ip e) = false) es ->
  total (aggregate es) = length es /\
  sumValues (byEvent (aggregate es)) = Some (total (aggregate es)) /\
  exists n, sumValues (byIp (aggregate es)) = Some n /\
            n <= total (aggregate es) /\
            ((exists e, e ∈ es /\ ip e = []) -> n < total (aggregate es)).
Proof.
  intros Hes.
  destruct (aggregate_fields es) as (_ & Hip & Hev & Htot & _).
  rewrite Htot, Hev, Hip. split; [done|]. split.
  - rewrite (tally_sum _ _ 0); [by rewrite length_fmap| |done].
    apply Forall_fmap. eapply Forall_impl; [done|]. by intros e [? ?].
  - exists (length (omap ipKey es)). split; [|split].
    + rewrite (tally_sum _ _ 0); [done| |done].
      clear -Hes. induction Hes as [|e es [_ He] _ IH]; csimpl; [done|].
      unfold ipKey at 1. destruct (ip e) eqn:Hipe; [done|].
      by constructor.
    + apply length_omap_le.
    + intros (e & Hin & Hempty). eapply length_omap_lt; [done|].
      unfold ipKey. by rewrite Hempty.
Qed.

(** C1. The sum property fails on an event type that [Object.prototype]
    has. The line [nodate|INFO|1.2.3.4|__proto__] parses to an event of
    type [__proto__]; reading [byEvent] under that key gives the prototype
    object and the write is ignored, so the event is in no by-type tally:
    the by-type values sum to 0 while [total] is 1. Under [constructor] the
    tally holds a string and the values have no numeric sum at all. *)
Theorem aggregate_sum_breaks_on_inherited_key :
  let e1 := {| date := None; ip := js "1.2.3.4"; eventType := js "__proto__";
               ts := js "nodate"; loginUsername := None; loginPassword := None |} in
  let e2 := {| date := None; ip := js "1.2.3.4"; eventType := js "constructor";
               ts := js "nodate"; loginUsername := None; loginPassword := None |} in
  fortipot (js "nodate|INFO|1.2.3.4|__proto__") = Some e1 /\
  total (aggregate [e1]) = 1 /\
  byEvent (aggregate [e1]) = ∅ /\
  sumValues (byEvent (aggregate [e1])) = Some 0 /\
  fortipot (js "nodate|INFO|1.2.3.4|constructor") = Some e2 /\
  total (aggregate [e2]) = 1 /\
  byEvent (aggregate [e2]) !! js "constructor"
    = Some (VStr (js "function Object() { [native code] }1")) /\
  sumValues (byEvent (aggregate [e2])) = None.
Proof. vm_compute. repeat split; reflexivity. Qed.

(** ** Events without a date *)

Lemma tallyCount_tally keys k :
  inheritedKey k = false ->
  tallyCount (fold_left bump keys ∅) k = timesIn k keys.
Proof.
  intros Hk. unfold tallyCount.
  rewrite (tally_counted keys ∅ k 0) by done. simpl.
  by destruct (timesIn k keys).
Qed.

Lemma timesIn_app k l1 l2 : timesIn k (l1 ++ l2) = timesIn k l1 + timesIn k l2.
Proof. unfold timesIn. by rewrite filter_app, length_app. Qed.

Lemma timesIn_cons_same k l : timesIn k (k :: l) = S (timesIn k l).
Proof. unfold timesIn. rewrite filter_cons. by rewrite decide_True. Qed.

(** C8, as stated, fails: an event with an unset date is not counted in
    the by-address tally when its address is empty. *)
Lemma unset_date_not_always_in_byIp :
  fortipot (js "nodate|INFO||probe") = Some undatedProbe /\
  ~ (forall es e,
        e ∈ es -> date e = None ->
        0 < total (aggregate es) /\
        is_Some (byEvent (aggregate es) !! eventKey e) /\
        is_Some (byIp (aggregate es) !! ip e)).
Proof.
  split; [vm_compute; reflexivity|].
  intros H. destruct (H [undatedProbe] undatedProbe) as (_ & _ & [v Hv]).
  - apply list_elem_of_here.
  - done.
  - vm_compute in Hv. discriminate.
Qed.

(** C8, amended. An event whose date is unset adds nothing to
    [eventsByDate] and is still counted in [totalEvents]; it is counted in
    [eventsByType] and, when its address is not empty, in [eventsByIP]
    (for an event type and an address that are not names of
    [Object.prototype]); with an empty address it leaves [eventsByIP] as it
    is. *)
Theorem unset_date_event_counted before e after :
  date e = None ->
  let r := aggregate (before ++ e :: after) in
  let r0 := aggregate (before ++ after) in
  byDate r = byDate r0 /\
  total r = S (total r0) /\
  (inheritedKey (eventKey e) = false ->
   tallyCount (byEvent r) (eventKey e) = S (tallyCount (byEvent r0) (eventKey e))) /\
  (ip e <> [] -> inheritedKey (ip e) = false ->
   tallyCount (byIp r) (ip e) = S (tallyCount (byIp r0) (ip e))) /\
  (ip e = [] -> byIp r = byIp r0).
Proof.
  intros Hdate r r0. subst r r0.
  destruct (aggregate_fields (before ++ e :: after)) as (Hd & Hi & Hv & Ht & _).
  destruct (aggregate_fields (before ++ after)) as (Hd0 & Hi0 & Hv0 & Ht0 & _).
  rewrite Hd, Hi, Hv, Ht, Hd0, Hi0, Hv0, Ht0. clear Hd Hi Hv Ht Hd0 Hi0 Hv0 Ht0.
  rewrite !omap_app, !fmap_app, !length_app. csimpl.
  split; [|split; [lia|split; [|split]]].
  - unfold dateKey at 2. by rewrite Hdate.
  - intros Hk. rewrite !tallyCount_tally by done.
    rewrite !timesIn_app, timesIn_cons_same. lia.
  - intros Hne Hk. unfold ipKey at 2. destruct (ip e) as [|c s] eqn:Hip; [done|].
    rewrite !tallyCount_tally by done.
    rewrite !timesIn_app, timesIn_cons_same. lia.
  - intros Hip. unfold ipKey at 2. by rewrite Hip.
Qed.

Lemma unset_date_event_counted_witness :
  let e := {| date := None; ip := js "1.2.3.4"; eventType := js "probe";
              ts := js "nodate"; loginUsername := None; loginPassword := None |} in
  let r := aggregate ([undatedProbe] ++ e :: [e]) in
  let r0 := aggregate ([undatedProbe] ++ [e]) in
  byDate r = byDate r0 /\
  total r = S (total r0) /\
  (inheritedKey (eventKey e) = false ->
   tallyCount (byEvent r) (eventKey e) = S (tallyCount (byEvent r0) (eventKey e))) /\
  (ip e <> [] -> inheritedKey (ip e) = false ->
   tallyCount (byIp r) (ip e) = S (tallyCount (byIp r0) (ip e))) /\
  (ip e = [] -> byIp r = byIp r0).
Proof.
  intros e. apply (unset_date_event_counted [undatedProbe] e [e]). reflexivity.
Defined.

(** ** Credential attempts *)

Lemma loginAttempts_app es1 es2 :
  loginAttempts (aggregate (es1 ++ es2)) =
  loginAttempts (aggregate es1) ++ loginAttempts (aggregate es2).
Proof.
  destruct (aggregate_fields (es1 ++ es2)) as (_ & _ & _ & _ & ->).
  destruct (aggregate_fields es1) as (_ & _ & _ & _ & ->).
  destruct (aggregate_fields es2) as (_ & _ & _ & _ & ->).
  by rewrite filter_app, fmap_app.
Qed.

Lemma loadLoop_fortipot {W Date : Type} (rt : Runtime W Date) files texts acc w w' :
  Fetched rt (js "fortipot") files w texts w' ->
  loadLoop rt (js "fortipot") files acc w =
  (Normal (acc ++ (EventEntry <$> omap parseLine (concat (splitLines <$> texts)))), w').
Proof.
  intros H. revert acc.
  induction H as [w|filename files text texts w w1 w2 Hfetch _ IH]; intros acc.
  - simpl. by rewrite app_nil_r.
  - cbn [loadLoop]. unfold await. rewrite Hfetch, parseLogLines_fortipot, IH.
    csimpl. by rewrite omap_app, fmap_app, app_assoc.
Qed.

Lemma entryView_events (es : list Event) : entryView <$> (EventEntry <$> es) = es.
Proof. induction es as [|e es IH]; csimpl; [done|]. by rewrite IH. Qed.

(** C9. The list of credential attempts is the input events that carry a
    credential pair, in input order, each with the timestamp, date,
    address, user name and password of its event; the result is a function
    of the entries alone: the accumulators are fresh in every call, so a
    run after any other runs gives what a first run gives; and in a run
    over the fortipot folder the input order is the order of the files and,
    within a file, of its lines. *)
Theorem loginAttempts_in_input_order :
  (forall es,
      loginAttempts (aggregate es) =
      attemptRow <$> filter (fun e => hasCredential e = true) es) /\
  (forall earlier es,
      last (aggregate <$> (earlier ++ [es])) = Some (aggregate es)) /\
  (forall (W Date : Type) (rt : Runtime W Date) files texts w w',
      Fetched rt (js "fortipot") files w texts w' ->
      exists entries,
        loadLoop rt (js "fortipot") files [] w = (Normal entries, w') /\
        loginAttempts (aggregate (entryView <$> entries)) =
        attemptRow <$>
          filter (fun e => hasCredential e = true)
                 (omap parseLine (concat (splitLines <$> texts)))).
Proof.
  split; [intros es; apply aggregate_fields|]. split.
  { intros earlier es. rewrite fmap_app. apply last_snoc. }
  intros W Date rt files texts w w' Hfetched. eexists. split.
  - by apply loadLoop_fortipot.
  - rewrite app_nil_l, entryView_events. apply aggregate_fields.
Qed.

Lemma loginAttempts_in_input_order_witness :
  exists entries,
    loadLoop sampleStore (js "fortipot")
      [js "2026-02-18_fortipot.log"; js "2026-02-19_fortipot.log"] [] ()
      = (Normal entries, ()) /\
    loginAttempts (aggregate (entryView <$> entries)) =
    attemptRow <$>
      filter (fun e => hasCredential e = true)
        (omap parseLine
           (concat (splitLines <$>
              [js "2026-02-18T10:00:00|INFO|1.2.3.4|LOGIN username=root password=toor";
               js "2026-02-19T11:00:00|INFO|1.2.3.4|GET /admin HTTP/1.1"]))).
Proof.
  apply (proj2 (proj2 loginAttempts_in_input_order) unit jsstring sampleStore).
  apply Fetched_cons with (w1 := ()); [vm_compute; reflexivity|].
  apply Fetched_cons with (w1 := ()); [vm_compute; reflexivity|].
  apply Fetched_nil.
Defined.

(** ** LOGIN lines *)

Lemma stripPrefix_startsWith p s r : stripPrefix p s = Some r -> startsWith p s = true.
Proof.
  revert s. induction p as [|a p IH]; intros [|b s]; simpl; try done.
  destruct (a =? b)%N; [apply IH|done].
Qed.

Lemma loginAt_startsWith s m :
  loginAt s = Some m -> startsWith (js "LOGIN username=") s = true.
Proof.
  unfold loginAt.
  destruct (stripPrefix (js "LOGIN username=") s) as [r|] eqn:Hr; [|done].
  intros _. by eapply stripPrefix_startsWith.
Qed.

(** A match of the login pattern needs the marker. *)
Lemma loginMatch_includes s m :
  loginMatch s = Some m -> includes (js "LOGIN username=") s = true.
Proof.
  rewrite loginMatch_scan.
  induction s as [|c s IH]; cbn [scanLogin includes].
  - destruct (loginAt []) eqn:E; [|done]. intros _.
    by rewrite (loginAt_startsWith _ _ E).
  - destruct (loginAt (c :: s)) eqn:E.
    + intros _. by rewrite (loginAt_startsWith _ _ E).
    + intros H. rewrite (IH H). apply orb_true_r.
Qed.

Lemma fortipot_login line :
  4 <= length (split PIPE line) ->
  includes (js "LOGIN username=") (messageOf line) = true ->
  exists e,
    fortipot line = Some e /\ eventType e = js "LOGIN" /\
    match loginMatch (messageOf line) with
    | Some (u, p) =>
        loginUsername e = Some (trim u) /\ loginPassword e = Some (trim p)
    | None => loginUsername e = None /\ loginPassword e = None
    end.
Proof.
  unfold fortipot, messageOf.
  destruct (split PIPE line) as [|p0 [|p1 [|p2 [|p3 rest]]]];
    cbn [length drop]; try lia.
  intros _.
  set (message := stripAddrPrefix (trim (join [PIPE] (p3 :: rest)))).
  intros ->.
  destruct (loginMatch message) as [[u p]|]; eexists; (split; [reflexivity|]);
    by cbn.
Qed.

Lemma tallyCount_aggregate_insert before e after :
  inheritedKey (eventKey e) = false ->
  tallyCount (byEvent (aggregate (before ++ e :: after))) (eventKey e) =
  S (tallyCount (byEvent (aggregate (before ++ after))) (eventKey e)).
Proof.
  intros Hk.
  destruct (aggregate_fields (before ++ e :: after)) as (_ & _ & -> & _).
  destruct (aggregate_fields (before ++ after)) as (_ & _ & -> & _).
  rewrite !fmap_app, fmap_cons, !tallyCount_tally by done.
  rewrite !timesIn_app, timesIn_cons_same. lia.
Qed.

(** C5. A fortipot line whose message (fields three and up, which has the
    marker exactly when the message that is classified has it) contains
    [LOGIN username=] but does not match the login pattern still gives an
    event, of type LOGIN and without credential pair; wherever it stands in
    the input of the aggregator, it adds one to the LOGIN tally and to the
    total, and nothing to the credential attempts. *)
Theorem login_marker_without_match line :
  4 <= length (split PIPE line) ->
  includes (js "LOGIN username=") (join [PIPE] (drop 3 (split PIPE line))) = true ->
  loginMatch (messageOf line) = None ->
  exists e,
    fortipot line = Some e /\
    eventType e = js "LOGIN" /\
    loginUsername e = None /\ loginPassword e = None /\
    forall before after,
      let r := aggregate (before ++ e :: after) in
      let r0 := aggregate (before ++ after) in
      tallyCount (byEvent r) (js "LOGIN") = S (tallyCount (byEvent r0) (js "LOGIN")) /\
      total r = S (total r0) /\
      loginAttempts r = loginAttempts r0.
Proof.
  intros Hlen Hmarker Hno. rewrite <- marker_in_message in Hmarker.
  destruct (fortipot_login line Hlen Hmarker) as (e & He & Hty & Hcred).
  rewrite Hno in Hcred. destruct Hcred as [Hu Hp].
  exists e. repeat (split; [done|]).
  intros before after r r0. subst r r0.
  assert (Hkey : eventKey e = js "LOGIN") by (unfold eventKey; by rewrite Hty).
  split; [|split].
  - rewrite <- Hkey. apply tallyCount_aggregate_insert. by rewrite Hkey.
  - destruct (aggregate_fields (before ++ e :: after)) as (_ & _ & _ & -> & _).
    destruct (aggregate_fields (before ++ after)) as (_ & _ & _ & -> & _).
    rewrite !length_app. simpl. lia.
  - rewrite (loginAttempts_app before (e :: after)), (loginAttempts_app before after).
    f_equal.
    destruct (aggregate_fields (e :: after)) as (_ & _ & _ & _ & ->).
    destruct (aggregate_fields after) as (_ & _ & _ & _ & ->).
    rewrite filter_cons, decide_False; [done|].
    unfold hasCredential. by rewrite Hu, Hp.
Qed.

Lemma login_marker_without_match_witness :
  exists e,
    fortipot (js "2026-02-18T00:00:00|INFO|1.2.3.4|LOGIN username=admin") = Some e /\
    eventType e = js "LOGIN" /\
    loginUsername e = None /\ loginPassword e = None /\
    forall before after,
      let r := aggregate (before ++ e :: after) in
      let r0 := aggregate (before ++ after) in
      tallyCount (byEvent r) (js "LOGIN") = S (tallyCount (byEvent r0) (js "LOGIN")) /\
      total r = S (total r0) /\
      loginAttempts r = loginAttempts r0.
Proof.
  apply (login_marker_without_match
           (js "2026-02-18T00:00:00|INFO|1.2.3.4|LOGIN username=admin")).
  - vm_compute. lia.
  - vm_compute. reflexivity.
  - vm_compute. reflexivity.
Defined.

(** C4, as stated, fails on its own example: in [LOGIN username= password=x]
    nothing stands between the marker and the password literal, the lazy
    group of the pattern needs one code unit, the pattern does not match,
    and the event carries no credential pair and is not recorded. *)
Lemma empty_username_not_captured :
  exists e,
    fortipot (js "2026-02-18T00:00:00|INFO|1.2.3.4|LOGIN username= password=x") = Some e /\
    eventType e = js "LOGIN" /\
    loginUsername e = None /\ loginPassword e = None /\
    loginAttempts (aggregate [e]) = [].
Proof. eexists. vm_compute. repeat split; reflexivity. Qed.

Lemma loginMatch_pair_recorded line u p :
  4 <= length (split PIPE line) ->
  loginMatch (messageOf line) = Some (u, p) ->
  exists e,
    fortipot line = Some e /\
    eventType e = js "LOGIN" /\
    loginUsername e = Some (trim u) /\ loginPassword e = Some (trim p) /\
    forall before after,
      loginAttempts (aggregate (before ++ e :: after)) =
      loginAttempts (aggregate before)
        ++ {| a_ts := ts e; a_date := date e; a_ip := ip e;
              username := trim u; password := trim p |}
        :: loginAttempts (aggregate after).
Proof.
  intros Hlen Hmatch.
  pose proof (loginMatch_includes _ _ Hmatch) as Hmarker.
  destruct (fortipot_login line Hlen Hmarker) as (e & He & Hty & Hcred).
  rewrite Hmatch in Hcred. destruct Hcred as [Hu Hp].
  exists e. repeat (split; [done|]).
  intros before after.
  rewrite (loginAttempts_app before (e :: after)). f_equal.
  destruct (aggregate_fields (e :: after)) as (_ & _ & _ & _ & ->).
  destruct (aggregate_fields after) as (_ & _ & _ & _ & ->).
  rewrite filter_cons, decide_True by (unfold hasCredential; by rewrite Hu).
  rewrite fmap_cons. f_equal. unfold attemptRow. by rewrite Hu, Hp.
Qed.

Lemma loginMatch_none_not_recorded line :
  4 <= length (split PIPE line) ->
  includes (js "LOGIN username=") (messageOf line) = true ->
  loginMatch (messageOf line) = None ->
  exists e,
    fortipot line = Some e /\
    eventType e = js "LOGIN" /\
    loginUsername e = None /\ loginPassword e = None /\
    forall before after,
      loginAttempts (aggregate (before ++ e :: after)) =
      loginAttempts (aggregate (before ++ after)).
Proof.
  intros Hlen Hmarker Hno.
  destruct (fortipot_login line Hlen Hmarker) as (e & He & Hty & Hcred).
  rewrite Hno in Hcred. destruct Hcred as [Hu Hp].
  exists e. repeat (split; [done|]).
  intros before after.
  rewrite (loginAttempts_app before (e :: after)), (loginAttempts_app before after).
  f_equal.
  destruct (aggregate_fields (e :: after)) as (_ & _ & _ & _ & ->).
  destruct (aggregate_fields after) as (_ & _ & _ & _ & ->).
  rewrite filter_cons, decide_False; [done|].
  unfold hasCredential. by rewrite Hu, Hp.
Qed.

Lemma dropWhile_nil p s : dropWhile p s = [] -> forallb p s = true.
Proof.
  induction s as [|c s IH]; simpl; [done|].
  destruct (p c); [apply IH|done].
Qed.

(** Trimming gives the empty string exactly for white space. *)
Lemma trim_empty s : trim s = [] <-> forallb isWhiteSpace s = true.
Proof.
  unfold trim, trimEnd, trimStart. split.
  - intros H. apply (f_equal (@rev N)) in H. rewrite rev_involutive in H.
    simpl in H. apply dropWhile_nil in H.
    rewrite forallb_forall in H.
    apply dropWhile_nil.
    destruct (dropWhile isWhiteSpace s) as [|c t] eqn:Hd; [done|exfalso].
    pose proof (headOutside_dropWhile isWhiteSpace s) as Hout.
    rewrite Hd in Hout. simpl in Hout.
    rewrite (H c) in Hout; [done|]. apply in_rev. rewrite rev_involutive. by left.
  - intros H. by rewrite (forallb_dropWhile_nil _ s H).
Qed.

(** C4, amended. Take a fortipot line of four or more fields and its
    message. When the message has a login (the marker, a user of one code
    unit or more, the password literal, a password up to the end of the
    message, no line terminator in either), the event is of type LOGIN and
    carries a credential pair: for the first place where a login starts
    and the shortest user there, the trimmed user and the trimmed
    password; the aggregator records the pair at the place of the event.
    A field of the pair is the empty string exactly when its text is
    white space only, so an empty field is recorded like any other. When
    the message has the marker but no login, the event is of type LOGIN,
    carries no pair, and is not recorded. *)
Theorem login_pair_recorded line :
  4 <= length (split PIPE line) ->
  (forall user pw,
      FirstLogin (messageOf line) user pw ->
      exists e,
        fortipot line = Some e /\
        eventType e = js "LOGIN" /\
        loginUsername e = Some (trim user) /\
        loginPassword e = Some (trim pw) /\
        (trim user = [] <-> forallb isWhiteSpace user = true) /\
        (trim pw = [] <-> forallb isWhiteSpace pw = true) /\
        forall before after,
          loginAttempts (aggregate (before ++ e :: after)) =
          loginAttempts (aggregate before)
            ++ {| a_ts := ts e; a_date := date e; a_ip := ip e;
                  username := trim user; password := trim pw |}
            :: loginAttempts (aggregate after)) /\
  (Contains (js "LOGIN username=") (messageOf line) ->
   NoLogin (messageOf line) ->
   exists e,
     fortipot line = Some e /\
     eventType e = js "LOGIN" /\
     loginUsername e = None /\ loginPassword e = None /\
     forall before after,
       loginAttempts (aggregate (before ++ e :: after)) =
       loginAttempts (aggregate (before ++ after))).
Proof.
  intros Hlen. split.
  - intros user pw Hfirst.
    apply scanLogin_first in Hfirst. rewrite <- loginMatch_scan in Hfirst.
    destruct (loginMatch_pair_recorded line user pw Hlen Hfirst)
      as (e & He & Hty & Hu & Hp & Hrec).
    exists e. repeat (split; [done|]).
    split; [apply trim_empty|]. split; [apply trim_empty|]. done.
  - intros Hmarker Hno.
    apply Contains_includes in Hmarker.
    apply scanLogin_none in Hno. rewrite <- loginMatch_scan in Hno.
    by apply loginMatch_none_not_recorded.
Qed.

(** A user of white space only is captured and trimmed to the empty
    string; so is an empty password. *)
Lemma login_pair_recorded_witness :
  exists e,
    fortipot (js "2026-02-18T00:00:00|INFO|1.2.3.4|LOGIN username=  password=") = Some e /\
    eventType e = js "LOGIN" /\
    loginUsername e = Some [] /\ loginPassword e = Some [] /\
    forall before after,
      loginAttempts (aggregate (before ++ e :: after)) =
      loginAttempts (aggregate before)
        ++ {| a_ts := ts e; a_date := date e; a_ip := ip e;
              username := []; password := [] |}
        :: loginAttempts (aggregate after).
Proof.
  destruct (proj1 (login_pair_recorded
                     (js "2026-02-18T00:00:00|INFO|1.2.3.4|LOGIN username=  password=")
                     ltac:(vm_compute; lia))
              (js " ") [])
    as (e & He & Hty & Hu & Hp & _ & _ & Hrec).
  - apply scanLogin_first. vm_compute. reflexivity.
  - exists e. repeat (split; [done|]). exact Hrec.
Defined.

(** With a second password literal the first login still starts at the
    marker, and its shortest user runs up to the second literal. *)
Example login_second_literal_example :
  (fun e => (loginUsername e, loginPassword e)) <$>
    fortipot (js "2026-02-18T00:00:00|INFO|1.2.3.4|LOGIN username= password=x password=y")
  = Some (Some (js "password=x"), Some (js "y")).
Proof. vm_compute. reflexivity. Qed.

Example login_empty_fields_example :
  (fun e => (loginUsername e, loginPassword e)) <$>
    fortipot (js "2026-02-18T00:00:00|INFO|1.2.3.4|LOGIN username=  password=")
  = Some (Some [], Some []).
Proof. vm_compute. reflexivity. Qed.

(** ** The parser table *)



(** For a tag that names a member of [Object.prototype] the fallback is
    not taken: [LOG_PARSERS] inherits the member, the value is truthy, and
    it is called in place of a grammar. With the tag [__proto__] the call
    raises a [TypeError] on the first non-empty line; with [constructor]
    the entries are wrapped lines, not events; with [isPrototypeOf] there
    are no entries. The tag [fortipot] gives the event. *)
Lemma parseLogLines_inherited_tag :
  let text := js "2026-02-18T00:00:00|INFO|1.2.3.4|GET /x" in
  (js "__proto__" ∉ declaredTypes) /\
  parseLogLines text (js "__proto__") = Throw TypeError /\
  parseLogLines text (js "constructor") = Normal [StringObject text] /\
  parseLogLines text (js "isPrototypeOf") = Normal [] /\
  parseLogLines text (js "fortipot") =
    Normal [EventEntry {| date := Some (js "2026-02-18"); ip := js "1.2.3.4";
                          eventType := js "GET /x"; ts := js "2026-02-18T00:00:00";
                          loginUsername := None; loginPassword := None |}].
Proof.
  intros text. split.
  { unfold declaredTypes. intros H. repeat (apply elem_of_cons in H as [H|H]; [discriminate H|]).
    by apply elem_of_nil in H. }
  repeat split; vm_compute; reflexivity.
Qed.




(** ** Failures of the remote store *)

Section Failures.

Context {W Date : Type} (rt : Runtime W Date).

Lemma listLogFiles_response folder w t w1 res w2 :
  dateNow rt w = (t, w1) ->
  fetch rt (listRequest folder t) w1 = (Resolved res, w2) ->
  listLogFiles rt folder w =
  if negb (ok res) then
    (Throw (Error (js "Failed to list " ++ folder ++ js ": " ++ decimal (status res))), w2)
  else
    match jsonBody res with
    | None => (Throw SyntaxError, w2)
    | Some (JArray data) => (Normal (logFiles data), w2)
    | Some JOther => (Throw (Error (js "Invalid API response")), w2)
    end.
Proof.
  intros Hnow Hfetch. unfold listLogFiles, await, cacheBust, awaitFetch.
  rewrite Hnow. unfold listRequest in Hfetch. rewrite Hfetch.
  destruct (ok res); simpl; [|done].
  by destruct (jsonBody res) as [[data|]|].
Qed.

Lemma fetchLogContent_response folder filename encoded w t w1 res w2 :
  encodeURIComponent rt filename = Some encoded ->
  dateNow rt w = (t, w1) ->
  fetch rt (contentRequest folder encoded t) w1 = (Resolved res, w2) ->
  fetchLogContent rt folder filename w =
  (Normal (if ok res then default [] (textBody res) else []), w2).
Proof.
  intros Henc Hnow Hfetch. unfold fetchLogContent, await, cacheBust, awaitFetch.
  rewrite Henc, Hnow. unfold contentRequest in Hfetch. rewrite Hfetch.
  destruct (ok res); simpl; [|done].
  by destruct (textBody res).
Qed.

Lemma parseLogLines_empty folder : parseLogLines [] folder = Normal [].
Proof. done. Qed.

(** What a response does. A non-success response to the listing makes
    [listLogFiles] throw an error whose message ends in the status, and
    the whole run fails with it. A content fetch that is answered by a
    non-success response, or whose body cannot be read, does not throw:
    [fetchLogContent] returns the empty string; and after a file whose
    content came back empty the loop goes on over the remaining files with
    the entries it had. *)
Lemma listing_failure_fatal_content_failure_absorbed :
  (forall folder dateRange w t w1 res w2,
      dateNow rt w = (t, w1) ->
      fetch rt (listRequest folder t) w1 = (Resolved res, w2) ->
      ok res = false ->
      let err := Error (js "Failed to list " ++ folder ++ js ": " ++ decimal (status res)) in
      listLogFiles rt folder w = (Throw err, w2) /\
      loadAndParseLogs rt folder dateRange w = (Throw err, w2)) /\
  (forall folder filename encoded w t w1 res w2,
      encodeURIComponent rt filename = Some encoded ->
      dateNow rt w = (t, w1) ->
      fetch rt (contentRequest folder encoded t) w1 = (Resolved res, w2) ->
      ok res = false \/ textBody res = None ->
      fetchLogContent rt folder filename w = (Normal [], w2)) /\
  (forall folder filename rest allEntries w w',
      fetchLogContent rt folder filename w = (Normal [], w') ->
      loadLoop rt folder (filename :: rest) allEntries w =
      loadLoop rt folder rest allEntries w').
Proof.
  split; [|split].
  - intros folder dateRange w t w1 res w2 Hnow Hfetch Hok err.
    pose proof (listLogFiles_response folder w t w1 res w2 Hnow Hfetch) as Hlist.
    rewrite Hok in Hlist. simpl in Hlist. split; [done|].
    unfold loadAndParseLogs, await. by rewrite Hlist.
  - intros folder filename encoded w t w1 res w2 Henc Hnow Hfetch Hfail.
    rewrite (fetchLogContent_response folder filename encoded w t w1 res w2) by done.
    destruct Hfail as [->| ->]; [done|]. by destruct (ok res).
  - intros folder filename rest allEntries w w' Hcontent.
    cbn [loadLoop]. unfold await. rewrite Hcontent.
    rewrite parseLogLines_empty. by rewrite app_nil_r.
Qed.

(** A content fetch that gets no response throws. *)
Lemma fetchLogContent_rejected folder filename encoded w t w1 w2 :
  encodeURIComponent rt filename = Some encoded ->
  dateNow rt w = (t, w1) ->
  fetch rt (contentRequest folder encoded t) w1 = (Rejected, w2) ->
  fetchLogContent rt folder filename w = (Throw NetworkFailure, w2).
Proof.
  intros Henc Hnow Hfetch. unfold fetchLogContent, await, cacheBust, awaitFetch.
  rewrite Henc, Hnow. unfold contentRequest in Hfetch. by rewrite Hfetch.
Qed.

(** The loop has no handler: what a content fetch throws ends it, and the
    entries of the files before are gone with it. *)
Lemma loadLoop_throw earlier filename rest texts acc w w0 err w2 :
  Fetched rt (js "fortipot") earlier w texts w0 ->
  fetchLogContent rt (js "fortipot") filename w0 = (Throw err, w2) ->
  loadLoop rt (js "fortipot") (earlier ++ filename :: rest) acc w = (Throw err, w2).
Proof.
  intros Hearlier Hthrow. revert acc.
  induction Hearlier as [w|f files text texts w w1 w0 Hfetch _ IH]; intros acc.
  - cbn [app loadLoop]. unfold await. by rewrite Hthrow.
  - cbn [app loadLoop]. unfold await. rewrite Hfetch, parseLogLines_fortipot.
    by apply IH.
Qed.

End Failures.

(** C7. A failed content fetch can raise. When the request for the content
    of a file gets no response (the promise of [fetch] rejects: the
    network is down, the request is blocked), [fetchLogContent] throws:
    its [await fetch] stands outside the [try] that absorbs a failing read
    of the body. The loop of [loadAndParseLogs] has no handler, so the run
    stops there and the entries of the files fetched before are lost. In
    the sample run the file of 18 February is fetched with its event, the
    fetch for 19 February rejects, and the run fails. *)
Theorem content_fetch_rejection_aborts_run :
  (forall (W Date : Type) (rt : Runtime W Date)
          earlier filename encoded rest texts w w0 t w1 w2,
      Fetched rt (js "fortipot") earlier w texts w0 ->
      encodeURIComponent rt filename = Some encoded ->
      dateNow rt w0 = (t, w1) ->
      fetch rt (contentRequest (js "fortipot") encoded t) w1 = (Rejected, w2) ->
      fetchLogContent rt (js "fortipot") filename w0 = (Throw NetworkFailure, w2) /\
      loadLoop rt (js "fortipot") (earlier ++ filename :: rest) [] w
        = (Throw NetworkFailure, w2)) /\
  fetchLogContent flakyStore (js "fortipot") (js "2026-02-18_fortipot.log") ()
    = (Normal (js "2026-02-18T10:00:00|INFO|1.2.3.4|LOGIN username=root password=toor"), ()) /\
  fetchLogContent flakyStore (js "fortipot") (js "2026-02-19_fortipot.log") ()
    = (Throw NetworkFailure, ()) /\
  filterFilesByDate flakyStore (logFiles sampleListing) february
    = Normal [js "2026-02-18_fortipot.log"; js "2026-02-19_fortipot.log"] /\
  loadAndParseLogs flakyStore (js "fortipot") february ()
    = (Throw NetworkFailure, ()).
Proof.
  split.
  - intros W Date rt earlier filename encoded rest texts w w0 t w1 w2
      Hearlier Henc Hnow Hfetch.
    pose proof (fetchLogContent_rejected rt _ _ _ _ _ _ _ Henc Hnow Hfetch) as Hthrow.
    split; [done|]. by eapply loadLoop_throw.
  - repeat split; vm_compute; reflexivity.
Qed.

Lemma content_fetch_rejection_aborts_run_witness :
  fetchLogContent flakyStore (js "fortipot") (js "2026-02-19_fortipot.log") ()
    = (Throw NetworkFailure, ()) /\
  loadLoop flakyStore (js "fortipot")
      ([js "2026-02-18_fortipot.log"] ++ js "2026-02-19_fortipot.log" :: []) [] ()
    = (Throw NetworkFailure, ()).
Proof.
  apply (proj1 content_fetch_rejection_aborts_run unit jsstring flakyStore
           [js "2026-02-18_fortipot.log"] (js "2026-02-19_fortipot.log")
           (js "2026-02-19_fortipot.log") []
           [js "2026-02-18T10:00:00|INFO|1.2.3.4|LOGIN username=root password=toor"]
           () () 1772323199999%N () ()).
  - eapply Fetched_cons; [vm_compute; reflexivity|apply Fetched_nil].
  - reflexivity.
  - reflexivity.
  - vm_compute. reflexivity.
Defined.

Lemma listing_failure_fatal_content_failure_absorbed_witness :
  let err := Error (js "Failed to list fortipot: 403") in
  let range := {| range_start := js "2026-02-01T00:00:00.000Z";
                  range_end := js "2026-02-28T23:59:59.999Z" |} in
  (listLogFiles forbiddenStore (js "fortipot") () = (Throw err, ()) /\
   loadAndParseLogs forbiddenStore (js "fortipot") range () = (Throw err, ())) /\
  fetchLogContent forbiddenStore (js "fortipot") (js "2026-02-18_fortipot.log") ()
    = (Normal [], ()) /\
  loadLoop forbiddenStore (js "fortipot")
      [js "2026-02-18_fortipot.log"; js "2026-02-19_fortipot.log"] [] ()
    = loadLoop forbiddenStore (js "fortipot") [js "2026-02-19_fortipot.log"] [] ().
Proof.
  intros err range.
  pose proof (listing_failure_fatal_content_failure_absorbed forbiddenStore)
    as (Hlist & Hcontent & Hloop).
  split; [|split].
  - apply (Hlist (js "fortipot") range () 1772323199999%N () 
             {| ok := false; status := 403; textBody := None; jsonBody := None |} ());
      reflexivity.
  - apply (Hcontent (js "fortipot") (js "2026-02-18_fortipot.log")
             (js "2026-02-18_fortipot.log") () 1772323199999%N ()
             {| ok := false; status := 403; textBody := None; jsonBody := None |} ());
      solve [reflexivity | by left].
  - apply (Hloop (js "fortipot") (js "2026-02-18_fortipot.log")
             [js "2026-02-19_fortipot.log"] [] () ()).
    apply (Hcontent (js "fortipot") (js "2026-02-18_fortipot.log")
             (js "2026-02-18_fortipot.log") () 1772323199999%N ()
             {| ok := false; status := 403; textBody := None; jsonBody := None |} ());
      solve [reflexivity | by left].
Defined.

(** ** The file selection *)

Lemma leStr_refl a : leStr a a = true.
Proof. induction a as [|x a IH]; simpl; [done|]. by rewrite N.ltb_irrefl. Qed.

Lemma leStr_total a b : leStr a b = true \/ leStr b a = true.
Proof.
  revert b. induction a as [|x a IH]; intros [|y b]; simpl; auto.
  destruct (N.ltb_spec x y), (N.ltb_spec y x); auto; lia.
Qed.

Lemma leStr_trans a b c : leStr a b = true -> leStr b c = true -> leStr a c = true.
Proof.
  revert b c. induction a as [|x a IH]; intros [|y b] [|z c]; simpl; try done.
  destruct (N.ltb_spec x y), (N.ltb_spec y x), (N.ltb_spec y z), (N.ltb_spec z y),
    (N.ltb_spec x z), (N.ltb_spec z x); try done; try lia.
  apply IH.
Qed.

Lemma leStr_antisym a b : leStr a b = true -> leStr b a = true -> a = b.
Proof.
  revert b. induction a as [|x a IH]; intros [|y b]; simpl; try done.
  destruct (N.ltb_spec x y), (N.ltb_spec y x); try done; try lia.
  intros Hab Hba. f_equal; [lia|by apply IH].
Qed.

#[global] Instance StrLe_total : Total StrLe.
Proof. intros a b. apply leStr_total. Qed.

#[global] Instance StrLe_trans : Transitive StrLe.
Proof. intros a b c. apply leStr_trans. Qed.

#[global] Instance StrLe_antisym : AntiSymm (=) StrLe.
Proof. intros a b. apply leStr_antisym. Qed.

Lemma StronglySorted_filter {A} (R : relation A) (P : A -> Prop)
    `{forall x, Decision (P x)} (l : list A) :
  StronglySorted R l -> StronglySorted R (filter P l).
Proof.
  induction 1 as [|x l Hl IH Hx]; [constructor|].
  rewrite filter_cons. destruct (decide (P x)); [|done].
  constructor; [done|]. apply Forall_forall. intros y Hy.
  apply list_elem_of_filter in Hy as [_ Hy].
  rewrite Forall_forall in Hx. by apply Hx.
Qed.

Lemma sortNames_sorted names : StronglySorted StrLe (sortNames names).
Proof. apply StronglySorted_merge_sort; apply _. Qed.

Lemma sortNames_perm names : sortNames names ≡ₚ names.
Proof. apply merge_sort_Permutation. Qed.

Lemma LogFilePattern_prefix name :
  LogFilePattern name ->
  exists d anything,
    name = d ++ js "_" ++ anything ++ js ".log" /\ DateShaped d /\
    forallb isDot anything = true /\ take 10 name = d.
Proof.
  intros (d & anything & -> & Hd & Hdots). exists d, anything.
  repeat (split; [done|]).
  rewrite take_app_length'; [done|]. symmetry. by apply DateShaped_length.
Qed.

(** ** Dates *)

Lemma DateShaped_chars d :
  DateShaped d ->
  exists y1 y2 y3 y4 m1 m2 d1 d2,
    d = [y1; y2; y3; y4; 45%N; m1; m2; 45%N; d1; d2] /\
    isDigit y1 = true /\ isDigit y2 = true /\ isDigit y3 = true /\ isDigit y4 = true /\
    isDigit m1 = true /\ isDigit m2 = true /\ isDigit d1 = true /\ isDigit d2 = true.
Proof.
  intros (y & m & dd & -> & Hy & Hm & Hdd & Hyd & Hmd & Hddd).
  destruct y as [|y1 [|y2 [|y3 [|y4 [|]]]]]; try done.
  destruct m as [|m1 [|m2 [|]]]; try done.
  destruct dd as [|d1 [|d2 [|]]]; try done.
  simpl in Hyd, Hmd, Hddd.
  repeat match goal with H : _ && _ = true |- _ => apply andb_true_iff in H as [? H] end.
  exists y1, y2, y3, y4, m1, m2, d1, d2. done.
Qed.

Lemma isDigit_value c : isDigit c = true -> exists v, c = (v + 48)%N /\ (v <= 9)%N.
Proof.
  unfold isDigit. intros [?%N.leb_le ?%N.leb_le]%andb_true_iff.
  exists (c - 48)%N. lia.
Qed.

(** On dates, the order of strings is the order of the calendar. *)
Lemma date_order a b :
  DateShaped a -> DateShaped b ->
  (StrLe a b <-> (dateNumber a <= dateNumber b)%N).
Proof.
  intros (a1 & a2 & a3 & a4 & a5 & a6 & a7 & a8 & -> & Ha)%DateShaped_chars
         (b1 & b2 & b3 & b4 & b5 & b6 & b7 & b8 & -> & Hb)%DateShaped_chars.
  destruct Ha as ((u1 & -> & ?)%isDigit_value & (u2 & -> & ?)%isDigit_value
                  & (u3 & -> & ?)%isDigit_value & (u4 & -> & ?)%isDigit_value
                  & (u5 & -> & ?)%isDigit_value & (u6 & -> & ?)%isDigit_value
                  & (u7 & -> & ?)%isDigit_value & (u8 & -> & ?)%isDigit_value).
  destruct Hb as ((v1 & -> & ?)%isDigit_value & (v2 & -> & ?)%isDigit_value
                  & (v3 & -> & ?)%isDigit_value & (v4 & -> & ?)%isDigit_value
                  & (v5 & -> & ?)%isDigit_value & (v6 & -> & ?)%isDigit_value
                  & (v7 & -> & ?)%isDigit_value & (v8 & -> & ?)%isDigit_value).
  unfold StrLe, dateNumber, digitsValue. cbn [take drop fold_left leStr].
  rewrite !N.add_sub.
  compare_digits u1 v1. compare_digits u2 v2.
  compare_digits u3 v3. compare_digits u4 v4.
  change (45 <? 45)%N with false. cbv iota.
  compare_digits u5 v5. compare_digits u6 v6.
  change (45 <? 45)%N with false. cbv iota.
  compare_digits u7 v7. compare_digits u8 v8.
  split; intros; [lia|done].
Qed.

Lemma datedWithin_unfold startStr endStr files :
  datedWithin startStr endStr files = filter (inWindow startStr endStr) files.
Proof.
  unfold datedWithin. apply list_filter_iff. intros name.
  unfold inWindow, StrLe, geStr. by rewrite andb_true_iff.
Qed.

Lemma names_filter (P : jsstring -> Prop) `{forall x, Decision (P x)}
    (Q : Listed -> Prop) `{forall x, Decision (Q x)} (data : list Listed) :
  l_name <$> filter (fun f => Q f /\ P (l_name f)) data =
  filter P (l_name <$> filter Q data).
Proof.
  induction data as [|f data IH]; [done|].
  rewrite !filter_cons.
  destruct (decide (Q f)) as [HQ|HQ].
  - rewrite fmap_cons, filter_cons. destruct (decide (P (l_name f))) as [HP|HP].
    + rewrite decide_True by done. by rewrite fmap_cons, IH.
    + rewrite decide_False by (by intros [? ?]). done.
  - rewrite decide_False by (by intros [? ?]). done.
Qed.

(** The selection for two date texts. *)
Lemma selection_exact (data : list Listed) (startStr endStr : jsstring) :
  let selected := datedWithin startStr endStr (logFiles data) in
  StronglySorted StrLe selected /\
  selected ≡ₚ
    filter (fun name => isLogFileName name = true /\ inWindow startStr endStr name)
           (l_name <$> filter (fun f => l_type f = js "file") data) /\
  (forall name,
      name ∈ selected <->
      (exists f, f ∈ data /\ l_type f = js "file" /\ l_name f = name) /\
      exists d anything,
        name = d ++ js "_" ++ anything ++ js ".log" /\ DateShaped d /\
        forallb isDot anything = true /\ StrLe startStr d /\ StrLe d endStr).
Proof.
  intros selected.
  assert (Hperm : selected ≡ₚ
    filter (fun name => isLogFileName name = true /\ inWindow startStr endStr name)
           (l_name <$> filter (fun f => l_type f = js "file") data)).
  { subst selected. rewrite datedWithin_unfold.
    unfold logFiles. rewrite sortNames_perm.
    pose proof (names_filter (fun n => isLogFileName n = true)
                  (fun f => l_type f = js "file") data) as Hnames.
    cbv beta in Hnames. rewrite Hnames.
    rewrite list_filter_filter. apply Permutation_refl'.
    apply list_filter_iff. intros n. tauto. }
  split.
  { subst selected. rewrite datedWithin_unfold.
    apply StronglySorted_filter, sortNames_sorted. }
  split; [done|].
  intros name. rewrite Hperm, list_elem_of_filter, list_elem_of_fmap. split.
  - intros [[Hlog [Hs He]] (f & -> & [Hfile Hf]%list_elem_of_filter)].
    split; [by exists f|].
    apply isLogFileName_spec, LogFilePattern_prefix in Hlog
      as (d & anything & Hname & Hd & Hdots & Htake).
    exists d, anything. rewrite Htake in Hs, He. done.
  - intros [(f & Hf & Hfile & <-) (d & anything & Hname & Hd & Hdots & Hs & He)].
    assert (Hpat : LogFilePattern (l_name f)) by by exists d, anything.
    split.
    + split; [by apply isLogFileName_spec|].
      apply LogFilePattern_prefix in Hpat as (d' & a' & _ & _ & _ & Htake).
      assert (d' = d) as ->.
      { rewrite <- Htake, Hname. rewrite take_app_length'; [done|].
        symmetry. by apply DateShaped_length. }
      unfold inWindow. by rewrite Htake.
    + exists f. split; [done|]. by apply list_elem_of_filter.
Qed.

Section Selection.

Context {W Date : Type} (rt : Runtime W Date).

(** C6. For every listing and every window of two valid dates, the file
    selection is sorted in the order of [sort], and it holds, as often as
    the listing has them as files, exactly the names of the pattern (date,
    underscore, anything the dot accepts, [.log]) whose first ten code
    units, the date, lie between the date texts of the start and of the
    end of the window, both included. A name outside the pattern, such as
    [not-a-date.log], or outside the window is never selected; the run
    fetches the selected files and no others. For all time,
    [getDateRange] gives a window like any other, from the first day of
    2000 to now. The order of the texts is the order of the calendar. *)
Theorem file_selection_exact (data : list Listed) (dateRange : DateRange Date)
    (startIso endIso : jsstring) :
  toISOString rt (range_start dateRange) = Some startIso ->
  toISOString rt (range_end dateRange) = Some endIso ->
  let startStr := take 10 startIso in
  let endStr := take 10 endIso in
  exists selected,
    filterFilesByDate rt (logFiles data) dateRange = Normal selected /\
    StronglySorted StrLe selected /\
    selected ≡ₚ
      filter (fun name => isLogFileName name = true /\ inWindow startStr endStr name)
             (l_name <$> filter (fun f => l_type f = js "file") data) /\
    (forall name,
        name ∈ selected <->
        (exists f, f ∈ data /\ l_type f = js "file" /\ l_name f = name) /\
        exists d anything,
          name = d ++ js "_" ++ anything ++ js ".log" /\ DateShaped d /\
          forallb isDot anything = true /\ StrLe startStr d /\ StrLe d endStr) /\
    (forall name, ~ LogFilePattern name -> name ∉ selected) /\
    (forall name, ~ inWindow startStr endStr name -> name ∉ selected) /\
    ~ LogFilePattern (js "not-a-date.log") /\
    (forall folder w t w1 res w2,
        dateNow rt w = (t, w1) ->
        fetch rt (listRequest folder t) w1 = (Resolved res, w2) ->
        ok res = true -> jsonBody res = Some (JArray data) ->
        loadAndParseLogs rt folder dateRange w =
        (let* allEntries := loadLoop rt folder selected [] in
         resolve (aggregate (entryView <$> allEntries))) w2) /\
    (forall w,
        fst (getDateRange rt (js "all") w) =
        {| range_start := makeDate rt 2000 0 1;
           range_end := fst (newDate rt w) |}) /\
    (forall a b,
        DateShaped a -> DateShaped b ->
        (StrLe a b <-> (dateNumber a <= dateNumber b)%N)).
Proof.
  intros Hstart Hend startStr endStr.
  exists (datedWithin startStr endStr (logFiles data)).
  assert (Hfilter : filterFilesByDate rt (logFiles data) dateRange =
                    Normal (datedWithin startStr endStr (logFiles data))).
  { unfold filterFilesByDate. by rewrite Hstart, Hend. }
  destruct (selection_exact data startStr endStr) as (Hsorted & Hperm & Hmem).
  split; [done|]. split; [done|]. split; [done|]. split; [done|].
  split.
  { intros name Hpat [_ (d & anything & Hname & Hd & Hdots & _)]%Hmem.
    apply Hpat. by exists d, anything. }
  split.
  { intros name Hwin Hin. apply Hwin.
    rewrite datedWithin_unfold in Hin. by apply list_elem_of_filter in Hin as [? _]. }
  split.
  { intros Hpat%isLogFileName_spec. vm_compute in Hpat. discriminate. }
  split.
  { intros folder w t w1 res w2 Hnow Hfetch Hok Hjson.
    unfold loadAndParseLogs at 1. unfold await at 1.
    rewrite (listLogFiles_response rt folder w t w1 res w2 Hnow Hfetch).
    rewrite Hok, Hjson. cbn [negb]. by rewrite Hfilter. }
  split; [|exact date_order].
  intros w. unfold getDateRange.
  destruct (newDate rt w) as [end_ w1]. destruct (newDate rt w1) as [start w2].
  by rewrite bool_decide_true.
Qed.

End Selection.

(** ** The sample store *)

Example sample_selection :
  filterFilesByDate sampleStore (logFiles sampleListing) february =
  Normal [js "2026-02-18_fortipot.log"; js "2026-02-19_fortipot.log"].
Proof. vm_compute. reflexivity. Qed.

(** End to end: the two files of February give their two events, the file
    of March gives none. *)
Example sample_run :
  loadAndParseLogs sampleStore (js "fortipot") february () =
  (Normal
     {| byDate := {[ js "2026-02-18" := VNum 1; js "2026-02-19" := VNum 1 ]};
        byIp := {[ js "1.2.3.4" := VNum 2 ]};
        byEvent := {[ js "LOGIN" := VNum 1; js "GET /admin" := VNum 1 ]};
        total := 2;
        loginAttempts :=
          [ {| a_ts := js "2026-02-18T10:00:00"; a_date := Some (js "2026-02-18");
               a_ip := js "1.2.3.4"; username := js "root"; password := js "toor" |} ] |},
   ()).
Proof. vm_compute. reflexivity. Qed.

Lemma file_selection_exact_witness :
  exists selected,
    filterFilesByDate sampleStore (logFiles sampleListing) february = Normal selected /\
    (js "2026-02-18_fortipot.log" ∈ selected) /\
    (js "not-a-date.log" ∉ selected) /\
    (js "2026-03-05_fortipot.log" ∉ selected) /\
    loadAndParseLogs sampleStore (js "fortipot") february () =
    (let* allEntries := loadLoop sampleStore (js "fortipot") selected [] in
     resolve (aggregate (entryView <$> allEntries))) ().
Proof.
  destruct (file_selection_exact sampleStore sampleListing february
              (js "2026-02-01T00:00:00.000Z") sampleNow eq_refl eq_refl)
    as (selected & Hsel & _ & _ & Hmem & Hpat & Hwin & Hnot & Hrun & _ & _).
  exists selected. split; [done|]. split; [|split; [|split]].
  - apply Hmem. split.
    + exists {| l_type := js "file"; l_name := js "2026-02-18_fortipot.log" |}.
      split; [|done]. apply list_elem_of_In. simpl. auto 10.
    + exists (js "2026-02-18"), (js "fortipot").
      split; [reflexivity|]. split; [|by vm_compute].
      exists (js "2026"), (js "02"), (js "18"). by vm_compute.
  - apply Hpat, Hnot.
  - apply Hwin. vm_compute. intros [_ H]. discriminate H.
  - apply (Hrun (js "fortipot") () 1772323199999%N ()
             {| ok := true; status := 200; textBody := None;
                jsonBody := Some (JArray sampleListing) |} ());
      reflexivity.
Defined.

(** * The page *)

(** ** Markup *)

Lemma replaceAll_flat_map c r (f : N -> jsstring) s :
  replaceAll c r (flat_map f s) = flat_map (fun d => replaceAll c r (f d)) s.
Proof.
  unfold replaceAll. induction s as [|d s IH]; simpl; [done|].
  by rewrite flat_map_app, IH.
Qed.

Lemma replaceAll_units c r s :
  replaceAll c r s = flat_map (fun d => if (d =? c)%N then r else [d]) s.
Proof. done. Qed.

Lemma escape_unit d :
  replaceAll DQUOTE (js "&quot;")
    (replaceAll GT (js "&gt;")
       (replaceAll LT (js "&lt;")
          (if (d =? AMP)%N then js "&amp;" else [d]))) = escapeUnit d.
Proof.
  unfold escapeUnit.
  destruct (N.eqb_spec d AMP) as [->|Hamp]; [reflexivity|].
  destruct (N.eqb_spec d LT) as [->|Hlt]; [reflexivity|].
  destruct (N.eqb_spec d GT) as [->|Hgt]; [reflexivity|].
  destruct (N.eqb_spec d DQUOTE) as [->|Hq]; [reflexivity|].
  unfold replaceAll; simpl.
  rewrite (proj2 (N.eqb_neq d LT)) by done. simpl.
  rewrite (proj2 (N.eqb_neq d GT)) by done. simpl.
  by rewrite (proj2 (N.eqb_neq d DQUOTE)).
Qed.

Lemma escapeHtml_units s : escapeHtml s = flat_map escapeUnit s.
Proof.
  destruct s as [|c s]; [done|]. unfold escapeHtml.
  rewrite (replaceAll_units AMP), !replaceAll_flat_map.
  apply flat_map_ext. intros d. apply escape_unit.
Qed.

Lemma occurrences_flat_map c (f : N -> jsstring) s :
  (forall d, occurrences c (f d) = 0) -> occurrences c (flat_map f s) = 0.
Proof.
  intros Hf. induction s as [|d s IH]; simpl; [done|].
  by rewrite occurrences_app, Hf, IH.
Qed.

Lemma escapeUnit_cases c :
  (c = AMP /\ escapeUnit c = js "&amp;") \/
  (c = LT /\ escapeUnit c = js "&lt;") \/
  (c = GT /\ escapeUnit c = js "&gt;") \/
  (c = DQUOTE /\ escapeUnit c = js "&quot;") \/
  (isMarkup c = false /\ escapeUnit c = [c]).
Proof.
  unfold escapeUnit, isMarkup.
  destruct (N.eqb_spec c AMP) as [->|?]; [by left|].
  destruct (N.eqb_spec c LT) as [->|?]; [by right; left|].
  destruct (N.eqb_spec c GT) as [->|?]; [by right; right; left|].
  destruct (N.eqb_spec c DQUOTE) as [->|?]; [by right; right; right; left|].
  by right; right; right; right.
Qed.

Lemma isMarkup_false c :
  isMarkup c = false -> c <> AMP /\ c <> LT /\ c <> GT /\ c <> DQUOTE.
Proof.
  unfold isMarkup. intros H. repeat split; intros ->; done.
Qed.

Lemma occurrences_escapeUnit c d :
  c = LT \/ c = GT \/ c = DQUOTE -> occurrences c (escapeUnit d) = 0.
Proof.
  intros Hc.
  destruct (escapeUnit_cases d) as [(-> & ->)|[(-> & ->)|[(-> & ->)|[(-> & ->)|(Hd & ->)]]]];
    try (by destruct Hc as [-> | [-> | ->]]).
  apply isMarkup_false in Hd as (_ & ? & ? & ?). simpl.
  destruct (N.eqb_spec d c) as [->|?]; [|done].
  by destruct Hc as [-> | [-> | ->]].
Qed.

Lemma occurrences_escapeHtml c s :
  c = LT \/ c = GT \/ c = DQUOTE -> occurrences c (escapeHtml s) = 0.
Proof.
  intros Hc. rewrite escapeHtml_units. apply occurrences_flat_map.
  intros d. by apply occurrences_escapeUnit.
Qed.

(** An ampersand in what [escapeUnit] writes is the first code unit, and an
    entity name follows. *)
Lemma escapeUnit_amp c before after :
  escapeUnit c = before ++ AMP :: after ->
  before = [] /\ after ∈ entityNames.
Proof.
  unfold entityNames.
  destruct (escapeUnit_cases c) as [(-> & ->)|[(-> & ->)|[(-> & ->)|[(-> & ->)|(Hd & ->)]]]];
    intros H.
  1-4: destruct before as [|b0 before]; [injection H as <-; split; [done|set_solver]|];
       exfalso; injection H as _ H;
       repeat (destruct before as [|? before]; [done|]; injection H as _ H);
       by destruct before.
  apply isMarkup_false in Hd as (? & _).
  destruct before as [|b0 before]; [by injection H|].
  injection H as _ H. by destruct before.
Qed.

Lemma startsWith_app p s : startsWith p (p ++ s) = true.
Proof. induction p as [|c p IH]; simpl; [done|]. by rewrite N.eqb_refl. Qed.

Lemma escaped_amp s before after :
  flat_map escapeUnit s = before ++ AMP :: after ->
  exists name, name ∈ entityNames /\ startsWith name after = true.
Proof.
  revert before. induction s as [|c s IH]; intros before H; simpl in H.
  - by destruct before.
  - apply app_eq_app in H as [l [[Hu Ha]|[Hb Hr]]].
    + destruct l as [|x l].
      * simpl in Ha. by apply (IH []).
      * injection Ha as <- ->.
        apply escapeUnit_amp in Hu as [-> Hname].
        exists l. split; [done|]. apply startsWith_app.
    + by apply (IH l).
Qed.

Lemma entity_units :
  js "&amp;" = [38; 97; 109; 112; 59]%N /\ js "&lt;" = [38; 108; 116; 59]%N /\
  js "&gt;" = [38; 103; 116; 59]%N /\ js "&quot;" = [38; 113; 117; 111; 116; 59]%N.
Proof. done. Qed.

Lemma escapeUnit_nonempty c : escapeUnit c <> [].
Proof.
  destruct (escapeUnit_cases c) as [(-> & ->)|[(-> & ->)|[(-> & ->)|[(-> & ->)|(Hd & ->)]]]];
    done.
Qed.

Lemma escaped_inj a b :
  flat_map escapeUnit a = flat_map escapeUnit b -> a = b.
Proof.
  revert b. induction a as [|x a IH]; intros [|y b] H; cbn [flat_map] in H.
  - done.
  - symmetry in H. apply app_eq_nil in H as [H _]. by apply escapeUnit_nonempty in H.
  - apply app_eq_nil in H as [H _]. by apply escapeUnit_nonempty in H.
  - destruct entity_units as (Ea & El & Eg & Eq).
    destruct (escapeUnit_cases x) as [(-> & Hx)|[(-> & Hx)|[(-> & Hx)|[(-> & Hx)|(Hd & Hx)]]]];
    destruct (escapeUnit_cases y) as [(-> & Hy)|[(-> & Hy)|[(-> & Hy)|[(-> & Hy)|(Hd' & Hy)]]]];
    rewrite ?Hx, ?Hy in H; rewrite ?Ea, ?El, ?Eg, ?Eq in H; simpl in H;
    try discriminate H;
    try (f_equal; apply IH; by simplify_eq).
    + apply isMarkup_false in Hd' as (? & _). by injection H as <-.
    + apply isMarkup_false in Hd' as (? & _). by injection H as <-.
    + apply isMarkup_false in Hd' as (? & _). by injection H as <-.
    + apply isMarkup_false in Hd' as (? & _). by injection H as <-.
    + apply isMarkup_false in Hd as (? & _). by injection H as ->.
    + apply isMarkup_false in Hd as (? & _). by injection H as ->.
    + apply isMarkup_false in Hd as (? & _). by injection H as ->.
    + apply isMarkup_false in Hd as (? & _). by injection H as ->.
    + injection H as -> H. f_equal. by apply IH.
Qed.

Lemma escapeUnit_length c : 1 <= length (escapeUnit c).
Proof.
  destruct (escapeUnit_cases c) as [(-> & ->)|[(-> & ->)|[(-> & ->)|[(-> & ->)|(Hd & ->)]]]];
    vm_compute; lia.
Qed.

Lemma escapeUnit_length_markup c :
  isMarkup c = true -> 4 <= length (escapeUnit c).
Proof.
  destruct (escapeUnit_cases c) as [(-> & ->)|[(-> & ->)|[(-> & ->)|[(-> & ->)|(Hd & ->)]]]];
    intros H; try (vm_compute; lia). congruence.
Qed.

Lemma escaped_length s :
  length s + 3 * length (filter (fun c => isMarkup c = true) s)
    <= length (flat_map escapeUnit s).
Proof.
  induction s as [|c s IH]; simpl; [done|].
  rewrite length_app, filter_cons.
  destruct (decide (isMarkup c = true)) as [Hc|Hc].
  - apply escapeUnit_length_markup in Hc. simpl. lia.
  - pose proof (escapeUnit_length c). lia.
Qed.

Lemma escaped_plain s :
  forallb (fun c => negb (isMarkup c)) s = true -> flat_map escapeUnit s = s.
Proof.
  induction s as [|c s IH]; simpl; [done|].
  intros [Hc Hs]%andb_true_iff. rewrite IH by done.
  destruct (escapeUnit_cases c) as [(-> & ->)|[(-> & ->)|[(-> & ->)|[(-> & ->)|(Hd & ->)]]]];
    done.
Qed.

Lemma escapeHtml_fixed s :
  escapeHtml s = s <-> forallb (fun c => negb (isMarkup c)) s = true.
Proof.
  rewrite escapeHtml_units. split.
  - intros H. apply forallb_forall. intros c Hc.
    destruct (isMarkup c) eqn:Hm; [exfalso|done].
    pose proof (escaped_length s) as Hlen. rewrite H in Hlen.
    assert (0 < length (filter (fun c => isMarkup c = true) s)); [|lia].
    apply in_split in Hc as (l1 & l2 & ->).
    rewrite filter_app, filter_cons, decide_True by done.
    rewrite length_app. simpl. lia.
  - apply escaped_plain.
Qed.

(** ** The table of login attempts *)

Lemma occurrences_loginRow row :
  occurrences LT (loginRow row) = 12 /\ occurrences GT (loginRow row) = 12 /\
  occurrences DQUOTE (loginRow row) = 6.
Proof.
  unfold loginRow.
  rewrite !occurrences_app, !occurrences_escapeHtml by auto.
  done.
Qed.

Lemma occurrences_rows c n (rows : list jsstring) :
  Forall (fun r => occurrences c r = n) rows ->
  occurrences c (join [] rows) = n * length rows.
Proof.
  induction 1 as [|r rows Hr _ IH]; [simpl; lia|].
  destruct rows as [|r' rows].
  - simpl. lia.
  - change (join [] (r :: r' :: rows)) with (r ++ [] ++ join [] (r' :: rows)).
    rewrite !occurrences_app, Hr, IH. simpl. lia.
Qed.

Lemma take_rev {A} n (l : list A) :
  take n (rev l) = rev (drop (length l - n) l).
Proof. apply firstn_rev. Qed.

(** X1. [escapeHtml] rewrites the text in one pass: each of the four code
    units [&], [<], [>] and the double quote becomes its entity, once, and
    every other code unit stays; the ampersand of an entity that an
    earlier replacement wrote is not rewritten again. So a text without
    the four is returned as it is, only such a text is, and no text gets
    shorter. *)
Theorem escapeHtml_one_pass s :
  escapeHtml s = flat_map escapeUnit s /\
  (escapeHtml s = s <-> forallb (fun c => negb (isMarkup c)) s = true) /\
  length s <= length (escapeHtml s).
Proof.
  split; [apply escapeHtml_units|]. split; [apply escapeHtml_fixed|].
  rewrite escapeHtml_units. pose proof (escaped_length s). lia.
Qed.

(** X2. What [escapeHtml] returns holds no [<], no [>] and no double
    quote, and every ampersand in it starts one of the four entities
    [&amp;], [&lt;], [&gt;], [&quot;]: the text cannot open or close a tag
    or end a double-quoted attribute value. *)
Theorem escapeHtml_output_safe s :
  occurrences LT (escapeHtml s) = 0 /\
  occurrences GT (escapeHtml s) = 0 /\
  occurrences DQUOTE (escapeHtml s) = 0 /\
  forall before after,
    escapeHtml s = before ++ AMP :: after ->
    exists name, name ∈ entityNames /\ startsWith name after = true.
Proof.
  repeat split; try (apply occurrences_escapeHtml; auto).
  intros before after. rewrite escapeHtml_units. apply escaped_amp.
Qed.

(** X3. [escapeHtml] loses nothing: two texts with the same escaped form
    are the same text. *)
Theorem escapeHtml_injective a b :
  escapeHtml a = escapeHtml b -> a = b.
Proof. rewrite !escapeHtml_units. apply escaped_inj. Qed.

Lemma escapeHtml_injective_witness :
  escapeHtml (js "a<b") = escapeHtml (js "a<b") /\ js "a<b" = js "a<b".
Proof. split; [reflexivity|]. apply escapeHtml_injective. reflexivity. Defined.

(** X4. The table body of [renderLoginAttempts] has one row for each of
    the first [limit] attempts and its markup is that of the rows alone,
    whatever the attempts hold: twelve [<], twelve [>] and six double
    quotes a row. A timestamp, address, user name or password from the
    log cannot add a tag or leave its cell. Without a table body nothing
    is written. *)
Theorem renderLoginAttempts_markup tbody attempts limit :
  renderLoginAttempts None attempts limit = None /\
  exists html,
    renderLoginAttempts (Some tbody) attempts limit = Some html /\
    occurrences LT html = 12 * min limit (length attempts) /\
    occurrences GT html = 12 * min limit (length attempts) /\
    occurrences DQUOTE html = 6 * min limit (length attempts).
Proof.
  split; [reflexivity|].
  exists (join [] (loginRow <$> take limit (rev attempts))).
  split; [reflexivity|].
  assert (length (loginRow <$> take limit (rev attempts))
          = min limit (length attempts)) as Hlen.
  { rewrite length_fmap, length_take, length_rev. reflexivity. }
  rewrite <- Hlen.
  assert (forall c n, (forall row, occurrences c (loginRow row) = n) ->
            occurrences c (join [] (loginRow <$> take limit (rev attempts)))
            = n * length (loginRow <$> take limit (rev attempts))) as Hrows.
  { intros c n Hrow. apply occurrences_rows.
    apply Forall_fmap, Forall_forall. intros row _. exact (Hrow row). }
  split; [|split]; apply Hrows; intros row;
    destruct (occurrences_loginRow row) as (Hlt & Hgt & Hq); assumption.
Qed.

(** X5. The table of login attempts shows the newest first: of the events
    that carry a credential, the last [limit] in the order of the input,
    the last one in the first row. With more, the oldest are left out. *)
Theorem renderLoginAttempts_newest_first es limit tbody :
  let rows := attemptRow <$> filter (fun e => hasCredential e = true) es in
  renderLoginAttempts (Some tbody) (loginAttempts (aggregate es)) limit =
    Some (join [] (loginRow <$> rev (drop (length rows - limit) rows))).
Proof.
  intros rows. destruct (aggregate_fields es) as (_ & _ & _ & _ & ->).
  unfold renderLoginAttempts. by rewrite take_rev.
Qed.

(** ** Labels *)

Lemma sliceTo_take n s : sliceTo (Z.of_nat n) s = take n s.
Proof.
  unfold sliceTo. rewrite (proj2 (Z.ltb_ge _ _)) by lia. by rewrite Nat2Z.id.
Qed.

(** X6. A chart label of [renderEvents] is at most [maxLen] code units
    long (40 in the script): an event type that fits is the label, a
    longer one is cut to its first [maxLen - 1] code units and an
    ellipsis. *)
Theorem shortLabel_bound s maxLen :
  1 <= maxLen ->
  length (shortLabel s maxLen) <= maxLen /\
  (length s <= maxLen -> shortLabel s maxLen = s) /\
  (maxLen < length s ->
   shortLabel s maxLen = take (maxLen - 1) s ++ [ELLIPSIS]).
Proof.
  intros Hmax. unfold shortLabel.
  replace (Z.of_nat maxLen - 1)%Z with (Z.of_nat (maxLen - 1)) by lia.
  rewrite sliceTo_take.
  destruct (Nat.leb_spec (length s) maxLen) as [Hle|Hgt].
  - split; [exact Hle|]. split; [reflexivity|]. intros Hgt. lia.
  - split; [|split; [intros Hle; lia|reflexivity]].
    rewrite length_app, length_take. simpl. lia.
Qed.

Lemma shortLabel_bound_witness :
  1 <= 4 /\ shortLabel (js "GET /admin") 4 = js "GET" ++ [ELLIPSIS].
Proof.
  split; [lia|].
  apply (proj2 (proj2 (shortLabel_bound (js "GET /admin") 4 ltac:(lia)))).
  vm_compute. lia.
Defined.

(** ** The tallies, key by key *)

Lemma setProp_comm o k1 v1 k2 v2 :
  k1 <> k2 ->
  setProp (setProp o k1 v1) k2 v2 = setProp (setProp o k2 v2) k1 v1.
Proof.
  intros Hne. unfold setProp.
  repeat case_bool_decide; try done. by apply insert_insert_ne.
Qed.

Lemma getProp_bump_other o k k' : k <> k' -> getProp (bump o k') k = getProp o k.
Proof. intros Hne. unfold getProp. by rewrite bump_other. Qed.

(** Counting under two keys, in either order. *)
Lemma bump_comm o k1 k2 : bump (bump o k1) k2 = bump (bump o k2) k1.
Proof.
  destruct (decide (k1 = k2)) as [->|Hne]; [done|].
  unfold bump at 1 3.
  rewrite (getProp_bump_other o k2 k1), (getProp_bump_other o k1 k2) by done.
  unfold bump. by apply setProp_comm.
Qed.

Lemma tally_permutation keys1 keys2 o :
  keys1 ≡ₚ keys2 -> fold_left bump keys1 o = fold_left bump keys2 o.
Proof.
  intros Hperm. revert o.
  induction Hperm as [|k keys1 keys2 _ IH|k1 k2 keys|keys1 keys2 keys3 _ IH1 _ IH2];
    intros o; cbn [fold_left].
  - done.
  - apply IH.
  - by rewrite bump_comm.
  - by rewrite IH1.
Qed.

(** X7. Under every key that is not a name of [Object.prototype], each
    tally holds the exact count: the number of events with that date, with
    that address, of that type; a key that no event has is absent from the
    tally. *)
Theorem aggregate_counts_exact es k :
  inheritedKey k = false ->
  byDate (aggregate es) !! k = counted (timesIn k (omap dateKey es)) /\
  byIp (aggregate es) !! k = counted (timesIn k (omap ipKey es)) /\
  byEvent (aggregate es) !! k = counted (timesIn k (eventKey <$> es)).
Proof.
  intros Hk.
  destruct (aggregate_fields es) as (-> & -> & -> & _).
  repeat split; by rewrite (tally_counted _ ∅ k 0).
Qed.

Lemma aggregate_counts_exact_witness :
  let es := [undatedProbe; undatedProbe] in
  byDate (aggregate es) !! js "probe" = counted (timesIn (js "probe") (omap dateKey es)) /\
  byIp (aggregate es) !! js "probe" = counted (timesIn (js "probe") (omap ipKey es)) /\
  byEvent (aggregate es) !! js "probe" = counted (timesIn (js "probe") (eventKey <$> es)).
Proof.
  intros es. apply (aggregate_counts_exact es (js "probe")). vm_compute. reflexivity.
Defined.

(** X8. The tallies and the total do not depend on the order of the
    events: a reordered input gives the same [byDate], [byIp], [byEvent]
    and [total], whatever the keys are; only the list of login attempts
    follows the order, and it is reordered with the input. *)
Theorem aggregate_tallies_order_free es1 es2 :
  es1 ≡ₚ es2 ->
  byDate (aggregate es1) = byDate (aggregate es2) /\
  byIp (aggregate es1) = byIp (aggregate es2) /\
  byEvent (aggregate es1) = byEvent (aggregate es2) /\
  total (aggregate es1) = total (aggregate es2) /\
  loginAttempts (aggregate es1) ≡ₚ loginAttempts (aggregate es2).
Proof.
  intros Hperm.
  destruct (aggregate_fields es1) as (-> & -> & -> & -> & ->).
  destruct (aggregate_fields es2) as (-> & -> & -> & -> & ->).
  split; [|split; [|split; [|split]]].
  - apply tally_permutation. by rewrite Hperm.
  - apply tally_permutation. by rewrite Hperm.
  - apply tally_permutation. by rewrite Hperm.
  - by rewrite Hperm.
  - by rewrite Hperm.
Qed.

Lemma aggregate_tallies_order_free_witness :
  let e1 := undatedProbe in
  let e2 := {| date := Some (js "2026-02-18"); ip := js "1.2.3.4";
               eventType := js "LOGIN"; ts := js "2026-02-18T10:00:00";
               loginUsername := Some (js "root"); loginPassword := Some (js "toor") |} in
  byDate (aggregate [e1; e2]) = byDate (aggregate [e2; e1]) /\
  byIp (aggregate [e1; e2]) = byIp (aggregate [e2; e1]) /\
  byEvent (aggregate [e1; e2]) = byEvent (aggregate [e2; e1]) /\
  total (aggregate [e1; e2]) = total (aggregate [e2; e1]) /\
  loginAttempts (aggregate [e1; e2]) ≡ₚ loginAttempts (aggregate [e2; e1]).
Proof.
  intros e1 e2. apply (aggregate_tallies_order_free [e1; e2] [e2; e1]).
  apply perm_swap.
Defined.

(** ** The keys of a tally *)

Lemma bump_lookup_same o k :
  k <> protoAccessor -> is_Some (bump o k !! k).
Proof.
  intros Hk. unfold bump, setProp. rewrite bool_decide_false by done.
  rewrite lookup_insert_eq. eauto.
Qed.

Lemma bump_proto o : bump o protoAccessor = o.
Proof. unfold bump, setProp. by rewrite bool_decide_true. Qed.

(** A tally has a property under the keys counted, [__proto__] apart. *)
Lemma tally_keys keys o k :
  is_Some (fold_left bump keys o !! k) <->
  is_Some (o !! k) \/ (k ∈ keys /\ k <> protoAccessor).
Proof.
  revert o. induction keys as [|k' keys IH]; intros o; cbn [fold_left].
  - split; [by left|]. intros [H|[H _]]; [done|]. by apply elem_of_nil in H.
  - rewrite IH. rewrite elem_of_cons.
    destruct (decide (k = k')) as [<-|Hne].
    + destruct (decide (k = protoAccessor)) as [->|Hproto].
      * rewrite bump_proto. split; [intros [H|[H ?]]; [by left|done]|].
        intros [H|[_ ?]]; [by left|done].
      * split; [intros _; right; split; [by left|done]|].
        intros _. left. by apply bump_lookup_same.
    + rewrite bump_other by done. split.
      * intros [H|[H ?]]; [by left|]. right. split; [by right|done].
      * intros [H|[[H|H] ?]]; [by left|done|]. right. by split.
Qed.

Lemma distinctKeys_elem keys k :
  k ∈ distinctKeys keys <-> k ∈ keys /\ k <> protoAccessor.
Proof.
  unfold distinctKeys. rewrite elem_of_remove_dups, list_elem_of_filter. tauto.
Qed.

Lemma length_remove_dups {A} `{EqDecision A} (l : list A) :
  length (remove_dups l) <= length l.
Proof.
  induction l as [|x l IH]; simpl; [done|].
  destruct (decide_rel elem_of x l); simpl; lia.
Qed.

Lemma length_distinctKeys keys : length (distinctKeys keys) <= length keys.
Proof.
  unfold distinctKeys.
  etrans; [apply length_remove_dups|]. apply length_filter.
Qed.

(** A date text is not a name of [Object.prototype]. *)
Lemma DateShaped_own d : DateShaped d -> inheritedKey d = false.
Proof.
  intros Hd%DateShaped_length. unfold inheritedKey.
  apply orb_false_iff. split; apply bool_decide_eq_false.
  - unfold objectPrototypeMethods. intros Hin.
    repeat (apply elem_of_cons in Hin as [->|Hin]; [by vm_compute in Hd|]).
    by apply elem_of_nil in Hin.
  - intros ->. by vm_compute in Hd.
Qed.

Lemma DateShaped_nonempty d : DateShaped d -> d <> [].
Proof. intros Hd%DateShaped_length ->. done. Qed.

Lemma FromGrammar_date e d : FromGrammar e -> date e = Some d -> DateShaped d.
Proof.
  intros [line Hline] Hd. apply fortipot_date in Hline.
  rewrite Hd in Hline. symmetry in Hline. by apply dateMatch_spec in Hline as [? _].
Qed.

Lemma FromGrammar_dateKey e d :
  FromGrammar e -> dateKey e = Some d <-> date e = Some d.
Proof.
  intros He. unfold dateKey, truthyDate. split.
  - by destruct (date e) as [[|c t]|].
  - intros Hd. pose proof (FromGrammar_date e d He Hd) as Hne%DateShaped_nonempty.
    rewrite Hd. by destruct d.
Qed.

Lemma timesIn_positive k keys : k ∈ keys -> 0 < timesIn k keys.
Proof.
  unfold timesIn. induction 1 as [k keys|k k' keys _ IH]; rewrite filter_cons.
  - rewrite decide_True by done. simpl. lia.
  - destruct (decide (k' = k)); simpl; lia.
Qed.

(** The dates of the events of the grammar, counted. *)
Lemma timesIn_dates es d :
  Forall FromGrammar es ->
  timesIn d (omap dateKey es) = length (filter (fun e => date e = Some d) es).
Proof.
  unfold timesIn. induction 1 as [|e es He _ IH]; [done|].
  csimpl. rewrite filter_cons.
  destruct (decide (date e = Some d)) as [Hd|Hd].
  - rewrite (proj2 (FromGrammar_dateKey e d He) Hd).
    rewrite filter_cons, decide_True by done. simpl. by rewrite IH.
  - destruct (dateKey e) as [d'|] eqn:Hkey; [|done].
    rewrite filter_cons, decide_False; [done|].
    intros ->. by apply FromGrammar_dateKey in Hkey.
Qed.

Lemma sorted_dates dates :
  NoDup dates -> Forall DateShaped dates -> StronglySorted StrLe dates ->
  StronglySorted (fun a b => (dateNumber a < dateNumber b)%N) dates.
Proof.
  intros Hnodup Hshape Hsorted.
  induction Hsorted as [|a dates _ IH Hle]; [constructor|].
  apply NoDup_cons in Hnodup as [Hnotin Hnodup].
  apply Forall_cons in Hshape as [Ha Hshape].
  constructor; [by apply IH|].
  rewrite Forall_forall in Hle, Hshape |- *. intros b Hb.
  pose proof (proj1 (date_order a b Ha (Hshape b Hb)) (Hle b Hb)) as Hab.
  destruct (decide (dateNumber a = dateNumber b)) as [Heq|Hne]; [exfalso|lia].
  assert (StrLe b a) as Hba.
  { apply date_order; [by apply Hshape|done|lia]. }
  assert (a = b) as -> by (by apply leStr_antisym; [apply Hle|]).
  done.
Qed.

(** Counting under keys that are not inherited leaves numbers only. *)
Lemma tally_numbers keys k v :
  Forall (fun k => inheritedKey k = false) keys ->
  fold_left bump keys ∅ !! k = Some v -> exists n, v = VNum n.
Proof.
  intros Hkeys Hv.
  assert (is_Some (fold_left bump keys ∅ !! k)) as Hs by eauto.
  apply tally_keys in Hs as [[? Hs]|[Hin _]]; [by rewrite lookup_empty in Hs|].
  rewrite Forall_forall in Hkeys.
  rewrite (tally_counted keys ∅ k 0 (Hkeys k Hin) (lookup_empty k)) in Hv.
  destruct (0 + timesIn k keys); simpl in Hv; [done|]. injection Hv as <-. eauto.
Qed.

(** *** Sorting by count *)

Lemma insertByCount_perm a l : insertByCount a l ≡ₚ a :: l.
Proof.
  induction l as [|b l IH]; simpl; [done|].
  destruct (b.2 <=? a.2); [done|]. rewrite IH. apply perm_swap.
Qed.

Lemma sortByCount_perm l : sortByCount l ≡ₚ l.
Proof.
  induction l as [|a l IH]; simpl; [done|].
  by rewrite insertByCount_perm, IH.
Qed.

Lemma insertByCount_sorted a l : ByCountDesc l -> ByCountDesc (insertByCount a l).
Proof.
  unfold ByCountDesc. induction 1 as [|b l Hl IH Hb]; simpl.
  - by repeat constructor.
  - destruct (Nat.leb_spec b.2 a.2) as [Hle|Hgt].
    + constructor; [by constructor|]. constructor; [done|].
      eapply Forall_impl; [exact Hb|]. simpl. intros c Hc. lia.
    + constructor; [done|]. rewrite insertByCount_perm.
      constructor; [lia|done].
Qed.

Lemma sortByCount_sorted l : ByCountDesc (sortByCount l).
Proof.
  induction l as [|a l IH]; simpl; [constructor|].
  by apply insertByCount_sorted.
Qed.

(** The sort is stable: the entries of one count keep their order. *)
Lemma insertByCount_stable n a l :
  filter (fun e => e.2 = n) (insertByCount a l) = filter (fun e => e.2 = n) (a :: l).
Proof.
  induction l as [|b l IH]; simpl; [done|].
  destruct (Nat.leb_spec b.2 a.2) as [Hle|Hgt]; [done|].
  rewrite (filter_cons _ b), IH, !(filter_cons _ a), (filter_cons _ b).
  destruct (decide (a.2 = n)), (decide (b.2 = n)); try done. lia.
Qed.

Lemma sortByCount_stable n l :
  filter (fun e => e.2 = n) (sortByCount l) = filter (fun e => e.2 = n) l.
Proof.
  induction l as [|a l IH]; simpl; [done|].
  by rewrite insertByCount_stable, !filter_cons, IH.
Qed.

(** The count of a value that is a number. *)
Lemma numericEntries_numbers entries :
  Forall (fun kv => exists n, kv.2 = VNum n) entries ->
  exists l, numericEntries entries = Some l /\
            Forall2 (fun kv e => e.1 = kv.1 /\ kv.2 = VNum e.2) entries l.
Proof.
  intros Hall.
  assert (exists l,
    Forall2 (fun kv e => (n ← numberOf kv.2; Some (kv.1, n)) = Some e) entries l /\
    Forall2 (fun kv e => e.1 = kv.1 /\ kv.2 = VNum e.2) entries l) as (l & Hl & Hrel).
  { induction Hall as [|[k v] entries [n Hv] _ (l & Hl & Hrel)]; [by exists []|].
    simpl in Hv. subst v. exists ((k, n) :: l). split; by constructor. }
  exists l. split; [|done]. unfold numericEntries. by apply mapM_Some_2.
Qed.

Section Enumeration.

Variable entriesOf : gmap jsstring jsval -> list (jsstring * jsval).
Hypothesis entriesOf_own : forall o, entriesOf o ≡ₚ map_to_list o.

Lemma keysOf_perm o : keysOf entriesOf o ≡ₚ (map_to_list o).*1.
Proof using entriesOf_own. unfold keysOf. by rewrite entriesOf_own. Qed.

Lemma keysOf_NoDup o : NoDup (keysOf entriesOf o).
Proof using entriesOf_own. rewrite keysOf_perm. apply NoDup_fst_map_to_list. Qed.

Lemma keysOf_elem o k : k ∈ keysOf entriesOf o <-> is_Some (o !! k).
Proof using entriesOf_own.
  rewrite keysOf_perm. rewrite list_elem_of_fmap. split.
  - intros ([k' v] & -> & Hin). apply elem_of_map_to_list in Hin. eauto.
  - intros [v Hv]. exists (k, v). split; [done|]. by apply elem_of_map_to_list.
Qed.

Lemma keysOf_tally keys : keysOf entriesOf (fold_left bump keys ∅) ≡ₚ distinctKeys keys.
Proof using entriesOf_own.
  apply NoDup_Permutation.
  - apply keysOf_NoDup.
  - apply NoDup_remove_dups.
  - intros k. rewrite keysOf_elem, tally_keys, distinctKeys_elem.
    rewrite lookup_empty. split; [intros [[? [=]]|H]; done|by right].
Qed.

(** X9. The summary cards show the number of events, the number of
    different non-empty addresses and the number of different dates of the
    events (the key [__proto__] apart, which a tally never holds), in
    whatever order the engine lists the keys; neither count is greater
    than the number of events. *)
Theorem renderSummary_counts es :
  renderSummary entriesOf (aggregate es) =
    (length es,
     length (distinctKeys (omap ipKey es)),
     length (distinctKeys (omap dateKey es))) /\
  length (distinctKeys (omap ipKey es)) <= length es /\
  length (distinctKeys (omap dateKey es)) <= length es.
Proof using entriesOf_own.
  unfold renderSummary.
  destruct (aggregate_fields es) as (-> & -> & _ & -> & _).
  rewrite !keysOf_tally. split; [done|].
  split; (etrans; [apply length_distinctKeys|apply length_omap_le]).
Qed.

(** X10. For events that the grammar gave, the traffic chart has one
    label for each date that an event has, the labels stand in the order
    of the calendar, earliest first, each once, and the value under a
    label is the number of events of that date; an event without a date
    is in no value. *)
Theorem renderTrafficChart_days es :
  Forall FromGrammar es ->
  exists dates counts,
    renderTrafficChart entriesOf (byDate (aggregate es)) = (dates, counts) /\
    (forall d, d ∈ dates <-> exists e, e ∈ es /\ date e = Some d) /\
    StronglySorted (fun a b => (dateNumber a < dateNumber b)%N) dates /\
    counts =
      (fun d => Own (VNum (length (filter (fun e => date e = Some d) es)))) <$> dates.
Proof using entriesOf_own.
  intros Hes. unfold renderTrafficChart.
  destruct (aggregate_fields es) as (-> & _).
  set (keys := omap dateKey es).
  set (dates := sortNames (keysOf entriesOf (fold_left bump keys ∅))).
  assert (Hmem : forall d, d ∈ dates <-> exists e, e ∈ es /\ date e = Some d).
  { intros d. unfold dates. rewrite sortNames_perm, keysOf_tally, distinctKeys_elem.
    unfold keys. rewrite list_elem_of_omap. rewrite Forall_forall in Hes. split.
    - intros [(e & He & Hkey) _]. exists e. split; [done|].
      by apply (FromGrammar_dateKey e d (Hes e He)).
    - intros (e & He & Hd). split.
      + exists e. split; [done|]. by apply (FromGrammar_dateKey e d (Hes e He)).
      + apply inheritedKey_proto, DateShaped_own.
        by apply (FromGrammar_date e d (Hes e He)). }
  assert (Hshape : Forall DateShaped dates).
  { apply Forall_forall. intros d (e & He & Hd)%Hmem.
    rewrite Forall_forall in Hes. by apply (FromGrammar_date e d (Hes e He)). }
  exists dates, ((fun d => getProp (fold_left bump keys ∅) d) <$> dates).
  split; [done|]. split; [done|]. split.
  - apply sorted_dates; [|done|apply sortNames_sorted].
    unfold dates. rewrite sortNames_perm. apply keysOf_NoDup.
  - apply Forall_fmap_ext_1. rewrite Forall_forall in Hshape |- *.
    intros d Hd. unfold getProp.
    rewrite (tally_counted keys ∅ d 0 (DateShaped_own d (Hshape d Hd)) (lookup_empty d)).
    rewrite Nat.add_0_l. unfold keys at 1. rewrite timesIn_dates by done.
    apply Hmem in Hd as (e & He & Hdate).
    assert (e ∈ filter (fun e => date e = Some d) es) as Hin
      by (by apply list_elem_of_filter).
    destruct (filter (fun e => date e = Some d) es); [by apply elem_of_nil in Hin|].
    done.
Qed.

(** X11. For a tally whose values are numbers, the table of top addresses
    and the table of event types list the entries of greatest count: at
    most [limit] rows, as many as the tally has keys when these are
    fewer, in the order of [sort] by count, greatest first, each key once
    with its own count, and no key left out has a greater count than a
    key shown. The labels of the event chart are the keys cut by
    [shortLabel] to 40 code units. *)
Theorem sortedTop_greatest o limit :
  (forall k v, o !! k = Some v -> exists n, v = VNum n) ->
  exists sorted,
    sortedTop entriesOf o limit = Some sorted /\
    renderTopIps entriesOf o limit = Some (sorted.*1, sorted.*2) /\
    renderEvents entriesOf o limit
      = Some (sorted.*1, (fun s => shortLabel s 40) <$> sorted.*1, sorted.*2) /\
    length sorted = min limit (size o) /\
    ByCountDesc sorted /\
    NoDup sorted.*1 /\
    (forall k n, (k, n) ∈ sorted -> o !! k = Some (VNum n)) /\
    (forall k n, o !! k = Some (VNum n) -> k ∉ sorted.*1 ->
                 forall shown, shown ∈ sorted -> n <= shown.2).
Proof using entriesOf_own.
  intros Hnum.
  assert (Forall (fun kv => exists n, kv.2 = VNum n) (entriesOf o)) as Hall.
  { apply Forall_forall. intros [k v] Hin. rewrite entriesOf_own in Hin.
    apply elem_of_map_to_list in Hin. by apply (Hnum k v). }
  destruct (numericEntries_numbers _ Hall) as (l & Hl & Hrel).
  set (full := sortByCount l).
  assert (Hkeys : l.*1 = keysOf entriesOf o).
  { unfold keysOf. clear -Hrel. induction Hrel as [|kv e ? ? [He _] _ IH]; [done|].
    csimpl. by rewrite He, IH. }
  assert (Hentry : forall k n, (k, n) ∈ l <-> o !! k = Some (VNum n)).
  { intros k n. rewrite <- elem_of_map_to_list, <- entriesOf_own.
    clear -Hrel. induction Hrel as [|[k' v] [k'' n'] ? ? [He Hv] _ IH].
    - split; intros H; by apply elem_of_nil in H.
    - simpl in He, Hv. subst k'' v. rewrite !elem_of_cons, IH.
      split; (intros [[= -> ->]|H]; [by left|by right]). }
  exists (take limit full).
  assert (sortedTop entriesOf o limit = Some (take limit full)) as Htop.
  { unfold sortedTop. by rewrite Hl. }
  split; [done|]. split; [unfold renderTopIps; by rewrite Htop|].
  split; [unfold renderEvents; by rewrite Htop|].
  assert (Hfull : StronglySorted (fun a b => b.2 <= a.2) (take limit full ++ drop limit full)).
  { rewrite take_drop. apply sortByCount_sorted. }
  split; [|split; [|split; [|split]]].
  - rewrite length_take. unfold full.
    rewrite sortByCount_perm, <- length_map_to_list, <- entriesOf_own.
    by rewrite (Forall2_length _ _ _ Hrel).
  - by apply StronglySorted_app_1_l in Hfull.
  - rewrite fmap_take. eapply sublist_NoDup; [|apply sublist_take].
    unfold full. rewrite sortByCount_perm, Hkeys. apply keysOf_NoDup; done.
  - intros k n Hin. apply Hentry.
    rewrite <- (sortByCount_perm l). fold full.
    rewrite <- (take_drop limit full). apply elem_of_app. by left.
  - intros k n Ho Hout shown Hshown.
    apply Hentry in Ho. rewrite <- (sortByCount_perm l) in Ho. fold full in Ho.
    rewrite <- (take_drop limit full) in Ho. apply elem_of_app in Ho as [Ho|Ho].
    + exfalso. apply Hout. apply list_elem_of_fmap. by exists (k, n).
    + apply (StronglySorted_app_1_elem_of _ _ _ shown (k, n) Hfull Hshown Ho).
Qed.

End Enumeration.

Lemma renderSummary_counts_witness :
  let es := [undatedProbe;
             {| date := Some (js "2026-02-18"); ip := js "1.2.3.4";
                eventType := js "GET /"; ts := js "2026-02-18T10:00:00";
                loginUsername := None; loginPassword := None |};
             {| date := Some (js "2026-02-18"); ip := js "1.2.3.4";
                eventType := js "GET /x"; ts := js "2026-02-18T11:00:00";
                loginUsername := None; loginPassword := None |}] in
  renderSummary map_to_list (aggregate es) =
    (length es,
     length (distinctKeys (omap ipKey es)),
     length (distinctKeys (omap dateKey es))) /\
  length (distinctKeys (omap ipKey es)) <= length es /\
  length (distinctKeys (omap dateKey es)) <= length es.
Proof.
  intros es. apply (renderSummary_counts map_to_list). intros o. reflexivity.
Defined.

Lemma renderTrafficChart_days_witness :
  exists e1 e2,
    fortipot (js "2026-02-19T11:00:00|INFO|1.2.3.4|GET /admin HTTP/1.1") = Some e1 /\
    fortipot (js "2026-02-18T10:00:00|INFO|1.2.3.4|GET / HTTP/1.1") = Some e2 /\
    exists dates counts,
      renderTrafficChart map_to_list (byDate (aggregate [e1; e2; e1])) = (dates, counts) /\
      (forall d, d ∈ dates <-> exists e, e ∈ [e1; e2; e1] /\ date e = Some d) /\
      StronglySorted (fun a b => (dateNumber a < dateNumber b)%N) dates /\
      counts =
        (fun d => Own (VNum (length (filter (fun e => date e = Some d) [e1; e2; e1]))))
          <$> dates.
Proof.
  eexists _, _. split; [vm_compute; reflexivity|]. split; [vm_compute; reflexivity|].
  apply (renderTrafficChart_days map_to_list).
  - intros o. reflexivity.
  - repeat constructor.
    + by exists (js "2026-02-19T11:00:00|INFO|1.2.3.4|GET /admin HTTP/1.1").
    + by exists (js "2026-02-18T10:00:00|INFO|1.2.3.4|GET / HTTP/1.1").
    + by exists (js "2026-02-19T11:00:00|INFO|1.2.3.4|GET /admin HTTP/1.1").
Defined.

Lemma sortedTop_greatest_witness :
  let o := fold_left bump [js "1.2.3.4"; js "5.6.7.8"; js "5.6.7.8"] ∅ in
  exists sorted,
    sortedTop map_to_list o 1 = Some sorted /\
    renderTopIps map_to_list o 1 = Some (sorted.*1, sorted.*2) /\
    renderEvents map_to_list o 1
      = Some (sorted.*1, (fun s => shortLabel s 40) <$> sorted.*1, sorted.*2) /\
    length sorted = min 1 (size o) /\
    ByCountDesc sorted /\
    NoDup sorted.*1 /\
    (forall k n, (k, n) ∈ sorted -> o !! k = Some (VNum n)) /\
    (forall k n, o !! k = Some (VNum n) -> k ∉ sorted.*1 ->
                 forall shown, shown ∈ sorted -> n <= shown.2).
Proof.
  intros o. apply (sortedTop_greatest map_to_list).
  - intros m. reflexivity.
  - intros k v. apply tally_numbers. repeat constructor.
Defined.

(** ** The run *)

Lemma snoc_neq {A} (l : list A) x : l ++ [x] <> l.
Proof.
  intros H. apply (f_equal length) in H. rewrite length_app in H. simpl in H. lia.
Qed.

Section RunProperties.

Context {W Date : Type} (rt : Runtime W Date).
Variable engineMessage : jsError -> jsstring.

(** X12. On a page that has the two selects and the three panels,
    [runStats] returns without throwing, whatever the store answers, and
    leaves the page in one of two states: the loading panel is hidden and
    exactly one of the error panel and the content panel is visible. The
    content panel is visible exactly when one [renderCharts] call was
    handed over for statistics of at least one event; otherwise none was.
    For the type [fortipot] the button ends enabled; for another type the
    store is not asked and the button is not touched. *)
Theorem runStats_panels page w honeypotType dateRangeVal loading error content :
  honeypotSelect page = Some honeypotType ->
  dateRangeSelect page = Some dateRangeVal ->
  loadingEl page = Some loading ->
  errorEl page = Some error ->
  contentEl page = Some content ->
  exists page' w' loading' error' content',
    runStats rt engineMessage page w = (Normal tt, page', w') /\
    loadingEl page' = Some loading' /\
    errorEl page' = Some error' /\
    contentEl page' = Some content' /\
    hidden loading' = true /\
    hidden error' = negb (hidden content') /\
    (hidden content' = false <->
     exists stats, frames page' = frames page ++ [stats] /\ 0 < total stats) /\
    (hidden content' = true -> frames page' = frames page) /\
    (honeypotType = js "fortipot" -> loadBtn page' = setDisabled (loadBtn page) false) /\
    (honeypotType <> js "fortipot" -> w' = w /\ loadBtn page' = loadBtn page).
Proof.
  intros Hhp Hdr Hl He Hc.
  destruct page as [hs ds btn lo er co chart fr]. simpl in *. subst.
  unfold runStats. cbn [honeypotSelect dateRangeSelect].
  case_bool_decide as Hf; cbn [negb].
  - (* the type is fortipot *)
    unfold runStatsTry. cbn [chartDefined withPanels].
    destruct chart; cbn [negb].
    + destruct (getDateRange rt dateRangeVal w) as [range w1].
      destruct (loadAndParseLogs rt (js "fortipot") range w1) as [[stats|err] w2].
      * destruct (Nat.eqb_spec (total stats) 0) as [Hzero|Hpos].
        -- eexists _, _, _, _, _. split; [reflexivity|]. cbn.
           repeat (split; [reflexivity|]). split; [|split; [|split]].
           ++ split; [done|]. intros (s & Hfr & _).
              symmetry in Hfr. by apply snoc_neq in Hfr.
           ++ done.
           ++ by destruct btn.
           ++ done.
        -- eexists _, _, _, _, _. split; [reflexivity|]. cbn.
           repeat (split; [reflexivity|]). split; [|split; [|split]].
           ++ split; [|done]. intros _. exists stats. split; [done|lia].
           ++ done.
           ++ by destruct btn.
           ++ done.
      * eexists _, _, _, _, _. split; [reflexivity|]. cbn.
        repeat (split; [reflexivity|]). split; [|split; [|split]].
        -- split; [done|]. intros (s & Hfr & _).
           symmetry in Hfr. by apply snoc_neq in Hfr.
        -- done.
        -- by destruct btn.
        -- done.
    + eexists _, _, _, _, _. split; [reflexivity|]. cbn.
      repeat (split; [reflexivity|]). split; [|split; [|split]].
      * split; [done|]. intros (s & Hfr & _).
        symmetry in Hfr. by apply snoc_neq in Hfr.
      * done.
      * by destruct btn.
      * done.
  - eexists _, _, _, _, _. split; [reflexivity|]. cbn.
    repeat (split; [reflexivity|]). split; [|split; [|split]].
    + split; [done|]. intros (s & Hfr & _).
      symmetry in Hfr. by apply snoc_neq in Hfr.
    + done.
    + done.
    + done.
Qed.

(** X13. What the error panel says after a run for the type [fortipot] on
    a page that has the selects and the error panel. Without the chart
    library the store is not asked and the panel holds the message that
    the library failed to load. When the run throws, the panel holds the
    message of what was thrown, in the markup of the [catch] block: for a
    listing that is answered with a non-success status, the text
    [Failed to list fortipot:] and the status. When the run gives
    statistics of no event, the panel holds the text for no entries. In
    each case the panel is visible and no [renderCharts] call is handed
    over. *)
Theorem runStats_error_panel page w dateRangeVal error :
  honeypotSelect page = Some (js "fortipot") ->
  dateRangeSelect page = Some dateRangeVal ->
  errorEl page = Some error ->
  (chartDefined page = false ->
   exists page',
     runStats rt engineMessage page w = (Normal tt, page', w) /\
     errorEl page' = Some {| hidden := false; innerHTML := errorMarkup CHART_MISSING |} /\
     frames page' = frames page) /\
  (chartDefined page = true ->
   forall range w0 err w2,
     getDateRange rt dateRangeVal w = (range, w0) ->
     loadAndParseLogs rt (js "fortipot") range w0 = (Throw err, w2) ->
     exists page',
       runStats rt engineMessage page w = (Normal tt, page', w2) /\
       errorEl page' =
         Some {| hidden := false;
                 innerHTML := errorMarkup (messageText engineMessage err) |} /\
       frames page' = frames page) /\
  (chartDefined page = true ->
   forall range w0 t w1 res w2,
     getDateRange rt dateRangeVal w = (range, w0) ->
     dateNow rt w0 = (t, w1) ->
     fetch rt (listRequest (js "fortipot") t) w1 = (Resolved res, w2) ->
     ok res = false ->
     exists page',
       runStats rt engineMessage page w = (Normal tt, page', w2) /\
       errorEl page' =
         Some {| hidden := false;
                 innerHTML :=
                   errorMarkup (js "Failed to list fortipot: " ++ decimal (status res)) |} /\
       frames page' = frames page) /\
  (chartDefined page = true ->
   forall range w0 stats w2,
     getDateRange rt dateRangeVal w = (range, w0) ->
     loadAndParseLogs rt (js "fortipot") range w0 = (Normal stats, w2) ->
     total stats = 0 ->
     exists page',
       runStats rt engineMessage page w = (Normal tt, page', w2) /\
       errorEl page' = Some {| hidden := false; innerHTML := NO_ENTRIES |} /\
       frames page' = frames page).
Proof.
  intros Hhp Hdr He.
  destruct page as [hs ds btn lo er co chart fr]. simpl in *. subst.
  assert (Hthrow : chart = true ->
    forall range w0 err w2,
      getDateRange rt dateRangeVal w = (range, w0) ->
      loadAndParseLogs rt (js "fortipot") range w0 = (Throw err, w2) ->
      exists page',
        runStats rt engineMessage
          {| honeypotSelect := Some (js "fortipot");
             dateRangeSelect := Some dateRangeVal; loadBtn := btn;
             loadingEl := lo; errorEl := Some error; contentEl := co;
             chartDefined := chart; frames := fr |} w = (Normal tt, page', w2) /\
        errorEl page' =
          Some {| hidden := false;
                  innerHTML := errorMarkup (messageText engineMessage err) |} /\
        frames page' = fr).
  { intros -> range w0 err w2 Hrange Hload.
    unfold runStats, runStatsTry. cbn [honeypotSelect dateRangeSelect].
    rewrite bool_decide_true by done. cbn [negb chartDefined withPanels].
    rewrite Hrange, Hload. eexists. split; [reflexivity|]. by cbn. }
  split; [|split; [|split]].
  - intros ->. unfold runStats, runStatsTry. cbn [honeypotSelect dateRangeSelect].
    rewrite bool_decide_true by done. cbn [negb chartDefined withPanels].
    eexists. split; [reflexivity|]. by cbn.
  - exact Hthrow.
  - intros Hchart range w0 t w1 res w2 Hrange Hnow Hfetch Hok.
    apply (Hthrow Hchart range w0 (Error (js "Failed to list fortipot: " ++ decimal (status res))) w2 Hrange).
    unfold loadAndParseLogs, await.
    rewrite (listLogFiles_response rt (js "fortipot") w0 t w1 res w2 Hnow Hfetch), Hok.
    done.
  - intros -> range w0 stats w2 Hrange Hload Hzero.
    unfold runStats, runStatsTry. cbn [honeypotSelect dateRangeSelect].
    rewrite bool_decide_true by done. cbn [negb chartDefined withPanels].
    rewrite Hrange, Hload, Hzero. eexists. split; [reflexivity|]. by cbn.
Qed.

End RunProperties.

Lemma runStats_panels_witness :
  exists page' w' loading' error' content',
    runStats sampleStore (fun _ => []) samplePage () = (Normal tt, page', w') /\
    loadingEl page' = Some loading' /\
    errorEl page' = Some error' /\
    contentEl page' = Some content' /\
    hidden loading' = true /\
    hidden error' = negb (hidden content') /\
    (hidden content' = false <->
     exists stats, frames page' = frames samplePage ++ [stats] /\ 0 < total stats) /\
    (hidden content' = true -> frames page' = frames samplePage) /\
    (js "fortipot" = js "fortipot" ->
     loadBtn page' = setDisabled (loadBtn samplePage) false) /\
    (js "fortipot" <> js "fortipot" -> w' = () /\ loadBtn page' = loadBtn samplePage).
Proof.
  apply (runStats_panels sampleStore (fun _ => []) samplePage ()
           (js "fortipot") (js "all") hiddenPanel hiddenPanel hiddenPanel);
    reflexivity.
Defined.

Lemma runStats_error_panel_witness :
  exists page',
    runStats forbiddenStore (fun _ => []) samplePage () = (Normal tt, page', ()) /\
    errorEl page' =
      Some {| hidden := false;
              innerHTML := errorMarkup (js "Failed to list fortipot: " ++ decimal 403) |} /\
    frames page' = frames samplePage.
Proof.
  apply (proj1 (proj2 (proj2
           (runStats_error_panel forbiddenStore (fun _ => []) samplePage ()
              (js "all") hiddenPanel eq_refl eq_refl eq_refl)))
           eq_refl
           {| range_start := js "2000-01-01T00:00:00.000Z"; range_end := sampleNow |}
           () 1772323199999%N ()
           {| ok := false; status := 403; textBody := None; jsonBody := None |} ());
    reflexivity.
Defined.

(** ** Texts and their lines *)

(** White space at the end of a line is trimmed away. *)
Lemma trim_snoc_space l c : isWhiteSpace c = true -> trim (l ++ [c]) = trim l.
Proof.
  intros Hc. unfold trim, trimStart.
  rewrite dropWhile_app.
  destruct (forallb isWhiteSpace l) eqn:Hall.
  - rewrite (forallb_dropWhile_nil _ l Hall). simpl. by rewrite Hc.
  - unfold trimEnd. rewrite rev_app_distr. simpl. by rewrite Hc.
Qed.

Lemma parseLine_snoc_cr l : parseLine (l ++ [13%N]) = parseLine l.
Proof. unfold parseLine. by rewrite trim_snoc_space. Qed.

(** Putting a code unit in front of the first line. *)
Lemma splitLines_cons_char c s :
  c <> 10%N -> (c = 13%N -> forall t, s <> 10%N :: t) ->
  splitLines (c :: s) =
  match splitLines s with
  | [] => [[c]]
  | f :: fs => (c :: f) :: fs
  end.
Proof.
  intros Hlf Hcr. cbn [splitLines].
  rewrite (proj2 (N.eqb_neq c 10)) by done.
  destruct (N.eqb_spec c 13) as [->|Hc]; [|done].
  destruct s as [|d s]; [done|].
  destruct (N.eqb_spec d 10) as [->|Hd]; [|done].
  by destruct (Hcr eq_refl s).
Qed.

Lemma splitLines_nonempty s : splitLines s <> [].
Proof.
  destruct s as [|c s]; [done|]. cbn [splitLines].
  destruct (c =? 10)%N; [done|].
  destruct (c =? 13)%N.
  - destruct s as [|d s]; [by destruct (splitLines [])|].
    destruct (d =? 10)%N; [done|]. by destruct (splitLines (d :: s)).
  - by destruct (splitLines s).
Qed.

(** The lines of a text up to a line feed and of the text behind it: the
    line in front of the line feed may lose a carriage return. *)
Lemma splitLines_lf_bounded n a b :
  length a <= n ->
  exists init line line',
    splitLines a = init ++ [line] /\
    splitLines (a ++ 10%N :: b) = init ++ line' :: splitLines b /\
    (line = line' \/ line = line' ++ [13%N]).
Proof.
  revert a. induction n as [|n IH]; intros a Hlen.
  { destruct a; [|simpl in Hlen; lia]. exists [], [], []. simpl. auto. }
  destruct a as [|c a]; [exists [], [], []; simpl; auto|].
  simpl in Hlen.
  destruct (N.eqb_spec c 10) as [->|Hlf].
  { destruct (IH a ltac:(lia)) as (init & line & line' & Ha & Hab & Hrel).
    exists ([] :: init), line, line'.
    cbn [splitLines app]. rewrite N.eqb_refl, Ha, Hab. auto. }
  destruct (N.eqb_spec c 13) as [->|Hcr].
  - destruct a as [|d a].
    + exists [], [13%N], []. simpl. auto.
    + destruct (N.eqb_spec d 10) as [->|Hd].
      * simpl in Hlen.
        destruct (IH a ltac:(lia)) as (init & line & line' & Ha & Hab & Hrel).
        exists ([] :: init), line, line'.
        cbn [splitLines app]. simpl. rewrite Ha, Hab. auto.
      * destruct (IH (d :: a) ltac:(simpl in *; lia))
          as (init & line & line' & Ha & Hab & Hrel).
        rewrite (splitLines_cons_char 13 (d :: a)) by (done || intros _ t [=]; done).
        change ((13%N :: d :: a) ++ 10%N :: b) with (13%N :: (d :: a) ++ 10%N :: b).
        rewrite (splitLines_cons_char 13 ((d :: a) ++ 10%N :: b))
          by (done || intros _ t [=]; done).
        rewrite Ha, Hab.
        destruct init as [|f init].
        -- exists [], (13%N :: line), (13%N :: line'). simpl.
           split; [done|]. split; [done|]. destruct Hrel as [->| ->]; auto.
        -- exists ((13%N :: f) :: init), line, line'. simpl. auto.
  - destruct (IH a ltac:(lia)) as (init & line & line' & Ha & Hab & Hrel).
    rewrite (splitLines_cons_char c a) by done.
    change ((c :: a) ++ 10%N :: b) with (c :: a ++ 10%N :: b).
    rewrite (splitLines_cons_char c (a ++ 10%N :: b)) by done.
    rewrite Ha, Hab.
    destruct init as [|f init].
    + exists [], (c :: line), (c :: line'). simpl.
      split; [done|]. split; [done|]. destruct Hrel as [->| ->]; auto.
    + exists ((c :: f) :: init), line, line'. simpl. auto.
Qed.

(** A carriage return at the end of a text goes to its last line. *)
Lemma splitLines_cr_bounded n a :
  length a <= n ->
  exists init line,
    splitLines a = init ++ [line] /\
    splitLines (a ++ [13%N]) = init ++ [line ++ [13%N]].
Proof.
  revert a. induction n as [|n IH]; intros a Hlen.
  { destruct a; [|simpl in Hlen; lia]. by exists [], []. }
  destruct a as [|c a]; [by exists [], []|].
  simpl in Hlen.
  destruct (N.eqb_spec c 10) as [->|Hlf].
  { destruct (IH a ltac:(lia)) as (init & line & Ha & Hab).
    exists ([] :: init), line.
    cbn [splitLines app]. rewrite N.eqb_refl, Ha, Hab. auto. }
  destruct (N.eqb_spec c 13) as [->|Hcr].
  - destruct a as [|d a].
    + by exists [], [13%N].
    + destruct (N.eqb_spec d 10) as [->|Hd].
      * simpl in Hlen.
        destruct (IH a ltac:(lia)) as (init & line & Ha & Hab).
        exists ([] :: init), line.
        cbn [splitLines app]. simpl. rewrite Ha, Hab. auto.
      * destruct (IH (d :: a) ltac:(simpl in *; lia)) as (init & line & Ha & Hab).
        rewrite (splitLines_cons_char 13 (d :: a)) by (done || intros _ t [=]; done).
        change ((13%N :: d :: a) ++ [13%N]) with (13%N :: (d :: a) ++ [13%N]).
        rewrite (splitLines_cons_char 13 ((d :: a) ++ [13%N]))
          by (done || intros _ t [=]; done).
        rewrite Ha, Hab.
        destruct init as [|f init].
        -- by exists [], (13%N :: line).
        -- by exists ((13%N :: f) :: init), line.
  - destruct (IH a ltac:(lia)) as (init & line & Ha & Hab).
    rewrite (splitLines_cons_char c a) by done.
    change ((c :: a) ++ [13%N]) with (c :: a ++ [13%N]).
    rewrite (splitLines_cons_char c (a ++ [13%N])) by done.
    rewrite Ha, Hab.
    destruct init as [|f init].
    + by exists [], (c :: line).
    + by exists ((c :: f) :: init), line.
Qed.

Lemma events_lf a b :
  omap parseLine (splitLines (a ++ 10%N :: b)) =
  omap parseLine (splitLines a) ++ omap parseLine (splitLines b).
Proof.
  destruct (splitLines_lf_bounded (length a) a b (le_n _))
    as (init & line & line' & -> & -> & Hrel).
  rewrite !omap_app. csimpl.
  assert (parseLine line = parseLine line') as ->.
  { destruct Hrel as [->| ->]; [done|apply parseLine_snoc_cr]. }
  rewrite <- app_assoc. by destruct (parseLine line').
Qed.

Lemma events_cr a :
  omap parseLine (splitLines (a ++ [13%N])) = omap parseLine (splitLines a).
Proof.
  destruct (splitLines_cr_bounded (length a) a (le_n _)) as (init & line & -> & ->).
  rewrite !omap_app. csimpl. by rewrite parseLine_snoc_cr.
Qed.

(** X14. Joining two texts by a line break joins their entries: the
    entries of the one text, then the entries of the other, whether the
    break is a line feed or a carriage return and a line feed. So the
    entries of a run are those of the fetched files put together, and a
    file with the other kind of line ending gives the same entries. *)
Theorem parseLogLines_join a b :
  exists entries_a entries_b,
    parseLogLines a (js "fortipot") = Normal entries_a /\
    parseLogLines b (js "fortipot") = Normal entries_b /\
    parseLogLines (a ++ [10%N] ++ b) (js "fortipot")
      = Normal (entries_a ++ entries_b) /\
    parseLogLines (a ++ [13%N; 10%N] ++ b) (js "fortipot")
      = Normal (entries_a ++ entries_b).
Proof.
  exists (EventEntry <$> omap parseLine (splitLines a)),
         (EventEntry <$> omap parseLine (splitLines b)).
  rewrite !parseLogLines_fortipot. repeat split.
  - cbn [app]. by rewrite events_lf, fmap_app.
  - change (a ++ [13%N; 10%N] ++ b) with (a ++ 13%N :: 10%N :: b).
    rewrite (cons_middle 13%N a), app_assoc.
    by rewrite events_lf, events_cr, fmap_app.
Qed.

(** ** The fields of a line *)

Lemma split_field sep field rest :
  occurrences sep field = 0 ->
  split sep (field ++ sep :: rest) = field :: split sep rest.
Proof.
  induction field as [|c field IH]; cbn [app split occurrences].
  - by rewrite N.eqb_refl.
  - destruct (N.eqb_spec c sep) as [->|Hc]; [done|]. intros H. by rewrite IH.
Qed.

Lemma split_nonempty sep s : split sep s <> [].
Proof.
  destruct s as [|c s]; [done|]. cbn [split].
  destruct (c =? sep)%N; [done|]. by destruct (split sep s).
Qed.

(** Joining the fields of a text by the separator gives the text back. *)
Lemma join_split sep s : join [sep] (split sep s) = s.
Proof.
  induction s as [|c s IH]; [done|]. cbn [split].
  pose proof (split_nonempty sep s) as Hne.
  destruct (split sep s) as [|f fs]; [done|].
  destruct (N.eqb_spec c sep) as [->|Hc].
  - change (join [sep] ([] :: f :: fs)) with (sep :: join [sep] (f :: fs)).
    by rewrite IH.
  - rewrite <- IH. by destruct fs.
Qed.

(** X15. In a line [t|l|a|m] whose first three fields hold no pipe, the
    grammar reads the timestamp from [t] and the address from [a], both
    trimmed, the date from the start of the timestamp, and the message
    from all of [m], with the pipes that [m] may hold; it does not read
    the level [l]: a line that differs in the level only gives the same
    event. *)
Theorem fortipot_reads_fields t l a m :
  occurrences PIPE t = 0 -> occurrences PIPE l = 0 -> occurrences PIPE a = 0 ->
  exists e,
    fortipot (t ++ [PIPE] ++ l ++ [PIPE] ++ a ++ [PIPE] ++ m) = Some e /\
    ts e = trim t /\
    ip e = trim a /\
    date e = dateMatch (trim t) /\
    Classified (stripAddrPrefix (trim m)) (eventType e) /\
    forall l',
      occurrences PIPE l' = 0 ->
      fortipot (t ++ [PIPE] ++ l' ++ [PIPE] ++ a ++ [PIPE] ++ m) = Some e.
Proof.
  intros Ht Hl Ha.
  assert (Hsplit : forall l', occurrences PIPE l' = 0 ->
    split PIPE (t ++ [PIPE] ++ l' ++ [PIPE] ++ a ++ [PIPE] ++ m)
    = t :: l' :: a :: split PIPE m).
  { intros l' Hl'. cbn [app]. by rewrite !split_field. }
  destruct (split PIPE m) as [|p3 rest] eqn:Hm; [by apply split_nonempty in Hm|].
  assert (Hjoin : join [PIPE] (p3 :: rest) = m) by (rewrite <- Hm; apply join_split).
  destruct (fortipot_eventType (t ++ [PIPE] ++ l ++ [PIPE] ++ a ++ [PIPE] ++ m))
    as (e & He & Hty).
  { rewrite (Hsplit l Hl). simpl. lia. }
  exists e. split; [done|].
  pose proof (fortipot_date _ _ He) as Hdate.
  unfold messageOf in Hty. rewrite (Hsplit l Hl) in Hty. cbn [drop] in Hty.
  rewrite Hjoin in Hty.
  assert (ts e = trim t /\ ip e = trim a) as [Hts Hip].
  { revert He. unfold fortipot. rewrite (Hsplit l Hl).
    destruct_classification. by intros [= <-]. }
  split; [done|]. split; [done|]. split; [by rewrite Hdate, Hts|].
  split; [rewrite Hty; apply classifyByPriority_Classified|].
  intros l' Hl'. rewrite <- He. unfold fortipot.
  by rewrite (Hsplit l Hl), (Hsplit l' Hl').
Qed.

Lemma fortipot_reads_fields_witness :
  exists e,
    fortipot (js "2026-02-18T00:00:00 " ++ [PIPE] ++ js "INFO" ++ [PIPE]
                ++ js " 1.2.3.4" ++ [PIPE] ++ js "GET /a|b HTTP/1.1") = Some e /\
    ts e = trim (js "2026-02-18T00:00:00 ") /\
    ip e = trim (js " 1.2.3.4") /\
    date e = dateMatch (trim (js "2026-02-18T00:00:00 ")) /\
    Classified (stripAddrPrefix (trim (js "GET /a|b HTTP/1.1"))) (eventType e) /\
    forall l',
      occurrences PIPE l' = 0 ->
      fortipot (js "2026-02-18T00:00:00 " ++ [PIPE] ++ l' ++ [PIPE]
                  ++ js " 1.2.3.4" ++ [PIPE] ++ js "GET /a|b HTTP/1.1") = Some e.
Proof.
  apply (fortipot_reads_fields (js "2026-02-18T00:00:00 ") (js "INFO")
           (js " 1.2.3.4") (js "GET /a|b HTTP/1.1")); reflexivity.
Defined.

(** * The statistics page: the filter of the days *)

Lemma sortNames_canonical l1 l2 : l1 ≡ₚ l2 -> sortNames l1 = sortNames l2.
Proof.
  intros Hperm. apply (StronglySorted_unique StrLe); try apply sortNames_sorted.
  by rewrite !sortNames_perm.
Qed.

Section DaysProperties.

Context {W Date : Type} (rt : Runtime W Date).
Context {V : Type} (isObjectOrNull : V -> bool).

Lemma assignDay_own filtered d v k :
  own (assignDay isObjectOrNull filtered d v) !! k =
  if bool_decide (k = d /\ d <> protoAccessor) then Some v else own filtered !! k.
Proof.
  unfold assignDay. case_bool_decide as Hproto.
  - rewrite bool_decide_false by (by intros [_ ?]).
    by destruct (isObjectOrNull v).
  - cbn [own]. case_bool_decide as Hk.
    + destruct Hk as [-> _]. by rewrite lookup_insert_eq.
    + rewrite lookup_insert_ne; [done|]. intros <-. by apply Hk.
Qed.

(** The loop leaves under a key what the day of that key brought, when
    that day passed the cut. *)
Lemma keepDay_fold cutStr (read : list (jsstring * V)) filtered k :
  NoDup read.*1 ->
  own (fold_left (keepDay isObjectOrNull cutStr) read filtered) !! k =
  match list_find (fun day => day.1 = k) read with
  | Some (_, day) =>
      if geStr k cutStr && negb (bool_decide (k = protoAccessor))
      then Some day.2 else own filtered !! k
  | None => own filtered !! k
  end.
Proof.
  revert filtered. induction read as [|[d v] read IH]; intros filtered Hnodup;
    [done|].
  apply NoDup_cons in Hnodup as [Hd Hnodup]. cbn [fold_left].
  rewrite IH by done. cbn [list_find]. cbn [fst].
  destruct (decide (d = k)) as [->|Hne].
  - assert (list_find (fun day : jsstring * V => day.1 = k) read = None) as ->.
    { apply list_find_None, Forall_forall. intros day Hday Heq.
      apply Hd. apply list_elem_of_fmap. by exists day. }
    cbn. unfold keepDay. cbn [fst snd].
    destruct (geStr k cutStr); [|done]. cbn [andb].
    rewrite assignDay_own. by repeat case_bool_decide; try tauto.
  - destruct (list_find (fun day : jsstring * V => day.1 = k) read)
      as [[i day]|] eqn:Hfind; cbn.
    + apply list_find_Some in Hfind as (_ & _ & _).
      unfold keepDay. cbn [fst snd].
      destruct (geStr k cutStr && negb (bool_decide (k = protoAccessor))); [done|].
      destruct (geStr d cutStr); [|done].
      rewrite assignDay_own. rewrite bool_decide_false; [done|]. by intros [? _].
    + unfold keepDay. cbn [fst snd]. destruct (geStr d cutStr); [|done].
      rewrite assignDay_own. rewrite bool_decide_false; [done|]. by intros [? _].
Qed.

Lemma read_keys (o : gmap jsstring V) (ks : list jsstring) :
  Forall (fun d => is_Some (o !! d)) ks ->
  (omap (fun d => v ← o !! d; Some (d, v)) ks).*1 = ks.
Proof.
  induction 1 as [|d ks [v Hv] _ IH]; [done|].
  csimpl. rewrite Hv. csimpl. by rewrite IH.
Qed.

Lemma allDays_own (o : gmap jsstring V) d :
  d ∈ sortNames (map_to_list o).*1 <-> is_Some (o !! d).
Proof.
  rewrite sortNames_perm, list_elem_of_fmap. split.
  - intros ([d' v] & -> & Hin). apply elem_of_map_to_list in Hin. eauto.
  - intros [v Hv]. exists (d, v). split; [done|]. by apply elem_of_map_to_list.
Qed.

(** What the loop reads: each key once, with the value under it. *)
Lemma read_find (o : gmap jsstring V) k :
  let read := omap (fun d => v ← o !! d; Some (d, v)) (sortNames (map_to_list o).*1) in
  NoDup read.*1 /\
  match list_find (fun day : jsstring * V => day.1 = k) read with
  | Some (_, day) => o !! k = Some day.2
  | None => o !! k = None
  end.
Proof.
  intros read.
  assert (read.*1 = sortNames (map_to_list o).*1) as Hkeys.
  { apply read_keys, Forall_forall. intros d. apply allDays_own. }
  split.
  { rewrite Hkeys, sortNames_perm. apply NoDup_fst_map_to_list. }
  destruct (list_find _ read) as [[i [d v]]|] eqn:Hfind.
  - apply list_find_Some in Hfind as (Hi & Hd & _). simpl in Hd. subst d.
    apply list_elem_of_lookup_2 in Hi. unfold read in Hi.
    apply list_elem_of_omap in Hi as (d & _ & Hread).
    destruct (o !! d) as [v'|] eqn:Hv; [|done]. by injection Hread as -> ->.
  - destruct (o !! k) as [v|] eqn:Hv; [exfalso|done].
    apply list_find_None in Hfind. rewrite Forall_forall in Hfind.
    assert (k ∈ read.*1) as Hin by (rewrite Hkeys; apply allDays_own; eauto).
    apply list_elem_of_fmap in Hin as (day & -> & Hday). by apply (Hfind day).
Qed.

(** X16. [filterDays] keeps the days from the cut on. A missing table
    gives an empty one, the range [all] gives the table itself. For
    another range, with the cut the first ten code units of the ISO text
    of the date so many days before now, the result has under a key what
    the table has there when the key is not less than the cut, and
    nothing otherwise ([__proto__] apart, which the assignment does not
    make a property); for date texts that is: when the day is the day of
    the cut or a later day of the calendar. When the date is invalid, as
    for a range that is not a number, a [RangeError] is thrown. *)
Theorem filterDays_keeps (o : gmap jsstring V) days w :
  filterDays rt isObjectOrNull None days w = (Normal emptyTable, w) /\
  filterDays rt isObjectOrNull (Some o) (js "all") w
    = (Normal {| own := o; proto := None |}, w) /\
  (days <> js "all" ->
   forall cutoff w1,
     newDate rt w = (cutoff, w1) ->
     match toISOString rt (daysBefore rt cutoff days) with
     | None => filterDays rt isObjectOrNull (Some o) days w = (Throw RangeError, w1)
     | Some iso =>
         exists filtered,
           filterDays rt isObjectOrNull (Some o) days w = (Normal filtered, w1) /\
           (forall d,
               own filtered !! d =
               if geStr d (take 10 iso) && negb (bool_decide (d = protoAccessor))
               then o !! d else None) /\
           (forall d,
               DateShaped d -> DateShaped (take 10 iso) ->
               own filtered !! d =
               if (dateNumber (take 10 iso) <=? dateNumber d)%N
               then o !! d else None)
     end).
Proof.
  split; [done|]. split; [done|].
  intros Hdays cutoff w1 Hnow. unfold filterDays.
  rewrite bool_decide_false by done. rewrite Hnow.
  destruct (toISOString rt (daysBefore rt cutoff days)) as [iso|]; [|done].
  eexists. split; [reflexivity|].
  assert (Hown : forall d,
    own (fold_left (keepDay isObjectOrNull (take 10 iso))
           (omap (fun d => v ← o !! d; Some (d, v)) (sortNames (map_to_list o).*1))
           emptyTable) !! d =
    if geStr d (take 10 iso) && negb (bool_decide (d = protoAccessor))
    then o !! d else None).
  { intros d. destruct (read_find o d) as [Hnodup Hfind].
    rewrite keepDay_fold by done.
    destruct (list_find _ _) as [[i day]|].
    - rewrite Hfind. cbn [own emptyTable]. rewrite lookup_empty. done.
    - rewrite Hfind. cbn [own emptyTable]. rewrite lookup_empty.
      by destruct (geStr d (take 10 iso) && negb (bool_decide (d = protoAccessor))). }
  split; [exact Hown|].
  intros d Hd Hcut. rewrite Hown.
  rewrite bool_decide_false by (apply inheritedKey_proto; by apply DateShaped_own).
  rewrite andb_true_r. unfold geStr.
  destruct (N.leb_spec (dateNumber (take 10 iso)) (dateNumber d)) as [Hle|Hgt].
  - by rewrite (proj2 (date_order _ _ Hcut Hd) Hle).
  - destruct (leStr (take 10 iso) d) eqn:Hstr; [|done].
    apply (date_order _ _ Hcut Hd) in Hstr. lia.
Qed.

End DaysProperties.

Lemma filterDays_keeps_witness :
  let o : gmap jsstring nat :=
    <[js "2026-02-27" := 3]> (<[js "2026-02-28" := 5]> (<[js "2026-03-01" := 7]> ∅)) in
  exists filtered,
    filterDays sampleStore (fun _ => false) (Some o) (js "1") ()
      = (Normal filtered, ()) /\
    (forall d,
        own filtered !! d =
        if geStr d (take 10 sampleNow) && negb (bool_decide (d = protoAccessor))
        then o !! d else None) /\
    (forall d,
        DateShaped d -> DateShaped (take 10 sampleNow) ->
        own filtered !! d =
        if (dateNumber (take 10 sampleNow) <=? dateNumber d)%N
        then o !! d else None).
Proof.
  intros o.
  apply (proj2 (proj2 (filterDays_keeps sampleStore (fun _ => false) o (js "1") ()))
           ltac:(discriminate) sampleNow () eq_refl).
Defined.
